(** * Agentic document verifier: the verify route and the decision engine

    The development has two layers.

    - The HTTP layer is the [POST] handler of
      [app/src/app/api/verify/route.ts] together with the shared types of
      [app/src/types/index.ts].  It is embedded from the source: the form
      data, the two JSON payloads, the module-level [FALLBACK_POLICY] object
      (kept in a store, because the handler hands out references to it) and
      the [try]/[catch] structure.
    - The verification engine ([app/src/lib/document.ts]) is invoked by the
      handler as [verifyDocuments].  The handler is stated over an arbitrary
      engine; the engine's own stages are modelled from the design document
      in the second half of the file. *)

From Stdlib Require Import ZArith Lia Ascii String.
From stdpp Require Import gmap strings list fin_maps pretty.

Open Scope Z_scope.

(** ** JSON values *)

(** A value as [JSON.parse] builds it.  A number is kept as the decimal
    [mantissa * 10 ^ exponent] that was written; an object keeps its members
    in source order, and a key written twice is looked up at its last
    occurrence, which is the member [JSON.parse] keeps. *)
#[warnings="-register-all"]
Inductive json : Type :=
| JNull
| JBool (b : bool)
| JNum (mantissa exponent : Z)
| JStr (s : string)
| JArr (items : list json)
| JObj (members : list (string * json)).

Definition jint (n : Z) : json := JNum n 0.

Fixpoint assoc_last {A : Type} (k : string) (kvs : list (string * A)) : option A :=
  match kvs with
  | [] => None
  | (k', v) :: rest =>
      match assoc_last k rest with
      | Some v' => Some v'
      | None => if String.eqb k k' then Some v else None
      end
  end.

Definition json_get (k : string) (j : json) : option json :=
  match j with
  | JObj members => assoc_last k members
  | _ => None
  end.

(** ** A reader for JSON text

    [JSON.parse] is a builtin of the JavaScript runtime.  The handler is
    stated over any reader of type [string -> option json] ([None] stands
    for the [SyntaxError] it throws); [json_parse] below is a reader for the
    ECMA-404 grammar, used to run the handler on concrete requests.  Strings
    are byte strings here, so a [\u] escape is read only below U+0100. *)
Module JsonText.

Definition dquote : ascii := "034"%char.
Definition backslash : ascii := "092"%char.

Definition is_ws (c : ascii) : bool :=
  let n := nat_of_ascii c in
  (n =? 32)%nat || (n =? 9)%nat || (n =? 10)%nat || (n =? 13)%nat.

Definition is_digit (c : ascii) : bool :=
  let n := nat_of_ascii c in (48 <=? n)%nat && (n <=? 57)%nat.

Definition digit_val (c : ascii) : Z := Z.of_nat (nat_of_ascii c) - 48.

Definition hex_val (c : ascii) : option Z :=
  let n := Z.of_nat (nat_of_ascii c) in
  if (48 <=? n) && (n <=? 57) then Some (n - 48)
  else if (65 <=? n) && (n <=? 70) then Some (n - 55)
  else if (97 <=? n) && (n <=? 102) then Some (n - 87)
  else None.

Fixpoint skip_ws (cs : list ascii) : list ascii :=
  match cs with
  | c :: rest => if is_ws c then skip_ws rest else cs
  | [] => []
  end.

Fixpoint strip_prefix (p cs : list ascii) : option (list ascii) :=
  match p, cs with
  | [], _ => Some cs
  | a :: p', c :: cs' => if Ascii.eqb a c then strip_prefix p' cs' else None
  | _ :: _, [] => None
  end.

(** Reads a maximal run of digits: accumulated value, number of digits,
    rest of the input. *)
Fixpoint read_digits (acc : Z) (count : Z) (cs : list ascii) : Z * Z * list ascii :=
  match cs with
  | c :: rest =>
      if is_digit c then read_digits (10 * acc + digit_val c) (count + 1) rest
      else (acc, count, cs)
  | [] => (acc, count, [])
  end.

(** A number: an optional minus sign, an integer part without a leading
    zero, an optional fraction, an optional exponent. *)
Definition read_number (cs : list ascii) : option (json * list ascii) :=
  let '(neg, cs1) :=
    match cs with
    | c :: rest => if Ascii.eqb c "-" then (true, rest) else (false, cs)
    | [] => (false, cs)
    end in
  let '(ip, icount, cs2) := read_digits 0 0 cs1 in
  let leading_zero :=
    match cs1 with
    | c :: _ => Ascii.eqb c "0" && (1 <? icount)
    | [] => false
    end in
  if (icount =? 0) || leading_zero then None
  else
    let frac :=
      match cs2 with
      | c :: rest =>
          if Ascii.eqb c "." then
            let '(fp, fcount, cs3) := read_digits ip 0 rest in
            if fcount =? 0 then None else Some (fp, fcount, cs3)
          else Some (ip, 0, cs2)
      | [] => Some (ip, 0, cs2)
      end in
    match frac with
    | None => None
    | Some (m, fcount, cs3) =>
        let expo :=
          match cs3 with
          | c :: rest =>
              if Ascii.eqb c "e" || Ascii.eqb c "E" then
                let '(eneg, rest') :=
                  match rest with
                  | s :: rest' =>
                      if Ascii.eqb s "-" then (true, rest')
                      else if Ascii.eqb s "+" then (false, rest')
                      else (false, rest)
                  | [] => (false, rest)
                  end in
                let '(ev, ecount, cs4) := read_digits 0 0 rest' in
                if ecount =? 0 then None
                else Some (if eneg then - ev else ev, cs4)
              else Some (0, cs3)
          | [] => Some (0, cs3)
          end in
        match expo with
        | None => None
        | Some (e, cs4) =>
            Some (JNum (if neg then - m else m) (e - fcount), cs4)
        end
    end.

(** The body of a string literal, after the opening quote. *)
Fixpoint read_string (cs : list ascii) : option (string * list ascii) :=
  match cs with
  | [] => None
  | c :: rest =>
      if Ascii.eqb c dquote then Some (EmptyString, rest)
      else if Ascii.eqb c backslash then
        match rest with
        | e :: rest' =>
            let simple (ch : ascii) :=
              match read_string rest' with
              | Some (s, r) => Some (String ch s, r)
              | None => None
              end in
            if Ascii.eqb e dquote then simple dquote
            else if Ascii.eqb e backslash then simple backslash
            else if Ascii.eqb e "/" then simple "/"%char
            else if Ascii.eqb e "b" then simple "008"%char
            else if Ascii.eqb e "f" then simple "012"%char
            else if Ascii.eqb e "n" then simple "010"%char
            else if Ascii.eqb e "r" then simple "013"%char
            else if Ascii.eqb e "t" then simple "009"%char
            else if Ascii.eqb e "u" then
              match rest' with
              | h1 :: h2 :: h3 :: h4 :: rest'' =>
                  match hex_val h1, hex_val h2, hex_val h3, hex_val h4 with
                  | Some 0, Some 0, Some a, Some b =>
                      match read_string rest'' with
                      | Some (s, r) =>
                          Some (String (ascii_of_nat (Z.to_nat (16 * a + b))) s, r)
                      | None => None
                      end
                  | _, _, _, _ => None
                  end
              | _ => None
              end
            else None
        | [] => None
        end
      else if (nat_of_ascii c <? 32)%nat then None
      else
        match read_string rest with
        | Some (s, r) => Some (String c s, r)
        | None => None
        end
  end.

Fixpoint read_value (fuel : nat) (cs : list ascii) : option (json * list ascii) :=
  match fuel with
  | O => None
  | S fuel' =>
      match skip_ws cs with
      | [] => None
      | c :: rest =>
          if Ascii.eqb c dquote then
            match read_string rest with
            | Some (s, r) => Some (JStr s, r)
            | None => None
            end
          else if Ascii.eqb c "[" then
            match skip_ws rest with
            | c' :: rest' =>
                if Ascii.eqb c' "]" then Some (JArr [], rest')
                else
                  match read_items fuel' rest with
                  | Some (xs, r) => Some (JArr xs, r)
                  | None => None
                  end
            | [] => None
            end
          else if Ascii.eqb c "{" then
            match skip_ws rest with
            | c' :: rest' =>
                if Ascii.eqb c' "}" then Some (JObj [], rest')
                else
                  match read_members fuel' rest with
                  | Some (kvs, r) => Some (JObj kvs, r)
                  | None => None
                  end
            | [] => None
            end
          else if Ascii.eqb c "-" || is_digit c then read_number (c :: rest)
          else
            match strip_prefix (list_ascii_of_string "null") (c :: rest) with
            | Some r => Some (JNull, r)
            | None =>
                match strip_prefix (list_ascii_of_string "true") (c :: rest) with
                | Some r => Some (JBool true, r)
                | None =>
                    match strip_prefix (list_ascii_of_string "false") (c :: rest) with
                    | Some r => Some (JBool false, r)
                    | None => None
                    end
                end
            end
      end
  end
with read_items (fuel : nat) (cs : list ascii) : option (list json * list ascii) :=
  match fuel with
  | O => None
  | S fuel' =>
      match read_value fuel' cs with
      | None => None
      | Some (x, r) =>
          match skip_ws r with
          | c :: r' =>
              if Ascii.eqb c "," then
                match read_items fuel' r' with
                | Some (xs, r'') => Some (x :: xs, r'')
                | None => None
                end
              else if Ascii.eqb c "]" then Some ([x], r')
              else None
          | [] => None
          end
      end
  end
with read_members (fuel : nat) (cs : list ascii)
    : option (list (string * json) * list ascii) :=
  match fuel with
  | O => None
  | S fuel' =>
      match skip_ws cs with
      | q :: afterq =>
          if Ascii.eqb q dquote then
            match read_string afterq with
            | None => None
            | Some (k, r0) =>
                match skip_ws r0 with
                | colon :: r1 =>
                    if Ascii.eqb colon ":" then
                      match read_value fuel' r1 with
                      | None => None
                      | Some (v, r2) =>
                          match skip_ws r2 with
                          | c :: r3 =>
                              if Ascii.eqb c "," then
                                match read_members fuel' r3 with
                                | Some (kvs, r4) => Some ((k, v) :: kvs, r4)
                                | None => None
                                end
                              else if Ascii.eqb c "}" then Some ([(k, v)], r3)
                              else None
                          | [] => None
                          end
                      end
                    else None
                | [] => None
                end
            end
          else None
      | [] => None
      end
  end.

Definition json_parse (text : string) : option json :=
  let cs := list_ascii_of_string text in
  match read_value (2 * length cs + 2) cs with
  | Some (v, rest) =>
      match skip_ws rest with
      | [] => Some v
      | _ :: _ => None
      end
  | None => None
  end.

(** [quoted s] is [s] written as a JSON string literal (for [s] without
    quotes, backslashes or control characters). *)
Definition quoted (s : string) : string :=
  String dquote (s +:+ String dquote EmptyString).

End JsonText.

(** ** Shared types ([app/src/types/index.ts])

    Each interface is a record in a module of its name, so that the fields
    keep the names of the source ([ExtractedField.confidence],
    [ValidationCheck.confidence], ...).  A [ConfidenceScore] is a JavaScript
    number; the engine only produces whole scores, so it is an integer
    here. *)

Definition ConfidenceScore : Type := Z.

Module ApplicantProfile.
Record t : Type := mk {
  name : string;
  dateOfBirth : string;
  passportNumber : string;
  nationality : string;
  visaType : string;
  intendedTravelDate : string;
}.
End ApplicantProfile.

Module EligibilityPolicy.
Record t : Type := mk {
  minPassportValidityDays : Z;
  minApplicantAge : Z;
  supportedVisaTypes : list string;
  blacklistedNationalities : list string;
  requireNameMatch : bool;
  requirePassportMatch : bool;
}.
End EligibilityPolicy.

Module Source.
Inductive t : Type := ocr | mrz | barcode | inferred | manual | unknown.
#[global] Instance Source_eq_dec : EqDecision t.
Proof. solve_decision. Defined.
End Source.

Module ExtractedField.
Record t : Type := mk {
  label : string;
  value : option string;
  confidence : ConfidenceScore;
  source : Source.t;
  issues : option (list string);
}.
(** [issues] is optional in the interface; a reader sees an absent list as
    an empty one. *)
Definition issueList (f : t) : list string := default [] (issues f).
End ExtractedField.

Module MrzFormat.
Inductive t : Type :=
| TD1 | TD2 | TD3 | MRVA | MRVB
| FRENCH_NATIONAL_ID | FRENCH_DRIVING_LICENSE | SWISS_DRIVING_LICENSE
| unknown.
#[global] Instance MrzFormat_eq_dec : EqDecision t.
Proof. solve_decision. Defined.
End MrzFormat.

Module MrzResult.
Record t : Type := mk {
  format : MrzFormat.t;
  fields : gmap string ExtractedField.t;
  checksumValid : bool;
}.
End MrzResult.

Module CheckStatus.
Inductive t : Type := pass | fail | warning | unknown.
#[global] Instance CheckStatus_eq_dec : EqDecision t.
Proof. solve_decision. Defined.
End CheckStatus.

Module ValidationCheck.
Record t : Type := mk {
  id : string;
  label : string;
  status : CheckStatus.t;
  details : string;
  confidence : ConfidenceScore;
}.
End ValidationCheck.

Module DecisionStatus.
Inductive t : Type := approved | manual_review | rejected | unknown.
#[global] Instance DecisionStatus_eq_dec : EqDecision t.
Proof. solve_decision. Defined.
End DecisionStatus.

Module EligibilityDecision.
Record t : Type := mk {
  status : DecisionStatus.t;
  reasons : list string;
  confidence : ConfidenceScore;
}.
End EligibilityDecision.

Module BarcodeData.
Record t : Type := mk {
  raw : option string;
  parsed : option (gmap string ExtractedField.t);
}.
End BarcodeData.

Module VerificationResponse.
Record t : Type := mk {
  summary : string;
  overallConfidence : ConfidenceScore;
  extractedFields : gmap string ExtractedField.t;
  mrz : option MrzResult.t;
  barcodeData : option BarcodeData.t;
  validationChecks : list ValidationCheck.t;
  eligibility : EligibilityDecision.t;
  recommendedActions : list string;
  rawOcrText : string;
  timingMs : Z;
}.
End VerificationResponse.

(** ** The module store of [route.ts]

    [FALLBACK_POLICY] is one object, created when the module is loaded and
    shared by every request the process serves.  The handler binds [policy]
    to that very object, or to a shallow copy whose array properties are
    still the arrays of the constant.  The store keeps the objects that can
    be shared in this way; a value built by [JSON.parse] belongs to one
    request and is kept as a tree. *)

Definition loc : Type := positive.

Inductive val : Type :=
| VJson (j : json)
| VRef (l : loc).

Inductive sobj : Type :=
| SObject (props : gmap string val)
| SArray (elems : list val).

Abbreviation store := (gmap loc sobj).

Definition FALLBACK_POLICY : loc := 1%positive.
Definition FALLBACK_supportedVisaTypes : loc := 2%positive.
Definition FALLBACK_blacklistedNationalities : loc := 3%positive.

Definition FALLBACK_POLICY_props : gmap string val :=
  <["minPassportValidityDays" := VJson (jint 180)]>
  (<["minApplicantAge" := VJson (jint 18)]>
  (<["supportedVisaTypes" := VRef FALLBACK_supportedVisaTypes]>
  (<["blacklistedNationalities" := VRef FALLBACK_blacklistedNationalities]>
  (<["requireNameMatch" := VJson (JBool true)]>
  (<["requirePassportMatch" := VJson (JBool true)]> ∅))))).

(** The store once the module body has run. *)
Definition module_store : store :=
  <[FALLBACK_POLICY := SObject FALLBACK_POLICY_props]>
  (<[FALLBACK_supportedVisaTypes :=
       SArray [VJson (JStr "tourist"); VJson (JStr "business"); VJson (JStr "student")]]>
  (<[FALLBACK_blacklistedNationalities := SArray []]> ∅)).

Definition fallback_locs : list loc :=
  [FALLBACK_POLICY; FALLBACK_supportedVisaTypes; FALLBACK_blacklistedNationalities].

Definition index_key (i : nat) : string := pretty i.

(** The own enumerable properties that an object spread copies. *)
Definition ownProperties_json (j : json) : list (string * val) :=
  match j with
  | JObj members => (λ kv, (kv.1, VJson kv.2)) <$> members
  | JArr items => imap (λ i x, (index_key i, VJson x)) items
  | JStr s =>
      imap (λ i c, (index_key i, VJson (JStr (String c EmptyString))))
           (list_ascii_of_string s)
  | JNull | JBool _ | JNum _ _ => []
  end.

Definition ownProperties (σ : store) (v : val) : list (string * val) :=
  match v with
  | VJson j => ownProperties_json j
  | VRef l =>
      match σ !! l with
      | Some (SObject props) => map_to_list props
      | Some (SArray elems) => imap (λ i x, (index_key i, x)) elems
      | None => []
      end
  end.

(** [{ ...a, ...b }]: the properties are defined left to right, so a later
    one replaces an earlier one of the same key. *)
Definition define_all (kvs : list (string * val)) (props : gmap string val)
    : gmap string val :=
  foldl (λ m kv, <[kv.1 := kv.2]> m) props kvs.

Definition spread2 (σ : store) (a b : val) : gmap string val :=
  define_all (ownProperties σ b) (define_all (ownProperties σ a) ∅).

Definition alloc (o : sobj) (σ : store) : loc * store :=
  let l := fresh (dom σ) in (l, <[l := o]> σ).

(** ** The request and the response *)

Module File.
Record t : Type := mk { name : string; size : N }.
End File.

Inductive FormDataEntryValue : Type :=
| EntryFile (f : File.t)
| EntryString (s : string).

(** Multipart form data: the entries in the order they were sent. *)
Definition FormData : Type := list (string * FormDataEntryValue).

Definition getAll (name : string) (fd : FormData) : list FormDataEntryValue :=
  (filter (λ e, e.1 = name) fd).*2.

Definition get (name : string) (fd : FormData) : option FormDataEntryValue :=
  head (getAll name fd).

(** What a [throw] carries: an [Error] instance with its message, or any
    other value. *)
Inductive Thrown : Type :=
| ErrorInstance (message : string)
| OtherThrown (v : json).

Inductive Completion (A : Type) : Type :=
| Normal (a : A)
| Throw (e : Thrown).
Arguments Normal {A} a.
Arguments Throw {A} e.

(** [req.formData()] rejects when the body is not form data, so a request
    carries the completion of that call. *)
Record NextRequest : Type := { formData : Completion FormData }.

Inductive Body : Type :=
| ErrorBody (error : string)
| ResultBody (result : VerificationResponse.t).

Record Response : Type := { status : Z; body : Body }.

(** [NextResponse.json(body, { status })]; the status defaults to 200. *)
Definition NextResponse_json (b : Body) (st : option Z) : Response :=
  {| status := default 200 st; body := b |}.

(** ** The handler's effects *)

Inductive Event : Type :=
| ConsoleError (msg : string) (e : Thrown)
| VerifyCall (files : list File.t) (applicant : json) (policy : val).

Record World : Type := { heap : store; trace : list Event }.

Definition M (A : Type) : Type := World → Completion A * World.

#[global] Instance M_ret : MRet M := λ A a w, (Normal a, w).
#[global] Instance M_bind : MBind M := λ A B f m w,
  match m w with
  | (Normal a, w') => f a w'
  | (Throw e, w') => (Throw e, w')
  end.

Definition try_catch {A : Type} (m : M A) (handler : Thrown → M A) : M A :=
  λ w, match m w with
       | (Normal a, w') => (Normal a, w')
       | (Throw e, w') => handler e w'
       end.

Definition await {A : Type} (c : Completion A) : M A := λ w, (c, w).

Definition console_error (msg : string) (e : Thrown) : M unit :=
  λ w, (Normal (), {| heap := heap w; trace := trace w ++ [ConsoleError msg e] |}).

Definition new_object (props : store → gmap string val) : M val :=
  λ w, let '(l, σ') := alloc (SObject (props (heap w))) (heap w) in
       (Normal (VRef l), {| heap := σ'; trace := trace w |}).

(** What the handler imports or finds in its runtime: [JSON.parse], and
    [verifyDocuments] of [@/lib/document], which receives the applicant and
    the policy by reference and runs against the store. *)
Class Runtime : Type := {
  JSON_parse : string → option json;
  verifyDocuments :
    list File.t → json → val → store → Completion VerificationResponse.t * store;
}.

Definition call_verifyDocuments `{Runtime}
    (files : list File.t) (applicant : json) (policy : val)
    : M VerificationResponse.t :=
  λ w, let '(c, σ') := verifyDocuments files applicant policy (heap w) in
       (c, {| heap := σ'; trace := trace w ++ [VerifyCall files applicant policy] |}).

(** ** [POST] *)

(** [.filter((item): item is File => item instanceof File && item.size > 0)] *)
Definition nonEmptyFile (item : FormDataEntryValue) : option File.t :=
  match item with
  | EntryFile f => if (0 <? File.size f)%N then Some f else None
  | EntryString _ => None
  end.

Definition documentFiles (fd : FormData) : list File.t :=
  omap nonEmptyFile (getAll "documents" fd).

(** [raw && typeof raw === "string"]: a non-empty string. *)
Definition truthyString (raw : option FormDataEntryValue) : option string :=
  match raw with
  | Some (EntryString s) => if decide (s = "") then None else Some s
  | Some (EntryFile _) | None => None
  end.

(** Lines 42 and 53-60: [policy] starts as the constant itself and is
    replaced by a fresh object when the payload parses. *)
Definition effectivePolicy `{Runtime} (policyRaw : option FormDataEntryValue) : M val :=
  match truthyString policyRaw with
  | Some text =>
      match JSON_parse text with
      | Some parsed =>
          new_object (λ σ, spread2 σ (VRef FALLBACK_POLICY) (VJson parsed))
      | None => mret (VRef FALLBACK_POLICY)
      end
  | None => mret (VRef FALLBACK_POLICY)
  end.

Definition errorMessage (e : Thrown) : string :=
  match e with
  | ErrorInstance message => message
  | OtherThrown _ => "Unexpected error"
  end.

Definition POST `{Runtime} (req : NextRequest) : M Response :=
  try_catch
    (fd ← await (formData req);
     let files := documentFiles fd in
     if decide (files = []) then
       mret (NextResponse_json (ErrorBody "No document files were uploaded") (Some 400))
     else
       let applicantRaw := get "applicant" fd in
       let policyRaw := get "policy" fd in
       match truthyString applicantRaw with
       | None =>
           mret (NextResponse_json (ErrorBody "Applicant payload missing") (Some 400))
       | Some text =>
           match JSON_parse text with
           | None =>
               mret (NextResponse_json (ErrorBody "Invalid applicant payload") (Some 400))
           | Some applicant =>
               policy ← effectivePolicy policyRaw;
               result ← call_verifyDocuments files applicant policy;
               mret (NextResponse_json (ResultBody result) None)
           end
       end)
    (λ error,
       _ ← console_error "Verification error" error;
       mret (NextResponse_json (ErrorBody (errorMessage error)) (Some 500))).

(** Requests served one after the other by the same module instance. *)
Fixpoint serve `{Runtime} (reqs : list NextRequest) (w : World) : list Response * World :=
  match reqs with
  | [] => ([], w)
  | req :: rest =>
      match POST req w with
      | (Normal resp, w') => let '(rs, w'') := serve rest w' in (resp :: rs, w'')
      | (Throw _, w') => serve rest w'
      end
  end.

Definition module_world : World := {| heap := module_store; trace := [] |}.

(** The handler is [async]: between its [await]s other requests run.  The
    only steps of a request that touch the store are the construction of its
    policy and the engine's run, so an interleaving of requests is, for the
    store, a schedule of such steps. *)
Inductive StoreStep : Type :=
| BuildPolicy (policyRaw : option FormDataEntryValue)
| RunEngine (files : list File.t) (applicant : json) (policy : val).

Definition runStep `{Runtime} (σ : store) (st : StoreStep) : store :=
  match st with
  | BuildPolicy policyRaw =>
      heap (effectivePolicy policyRaw {| heap := σ; trace := [] |}).2
  | RunEngine files applicant policy => (verifyDocuments files applicant policy σ).2
  end.

Definition runSchedule `{Runtime} (σ : store) (steps : list StoreStep) : store :=
  foldl runStep σ steps.

(** ** Reading a payload at its declared type

    The handler casts what [JSON.parse] returns ([as ApplicantProfile],
    [as Partial<EligibilityPolicy>]); the cast checks nothing.  The readers
    below say when a value really has the shape of the interface. *)

Definition json_string (j : option json) : option string :=
  match j with
  | Some (JStr s) => Some s
  | _ => None
  end.

Definition asApplicantProfile (j : json) : option ApplicantProfile.t :=
  name ← json_string (json_get "name" j);
  dateOfBirth ← json_string (json_get "dateOfBirth" j);
  passportNumber ← json_string (json_get "passportNumber" j);
  nationality ← json_string (json_get "nationality" j);
  visaType ← json_string (json_get "visaType" j);
  intendedTravelDate ← json_string (json_get "intendedTravelDate" j);
  mret (ApplicantProfile.mk name dateOfBirth passportNumber nationality
          visaType intendedTravelDate).

(** The applicant a form denotes, if it denotes one. *)
Definition applicantOf `{Runtime} (fd : FormData) : option ApplicantProfile.t :=
  text ← truthyString (get "applicant" fd);
  a ← JSON_parse text;
  asApplicantProfile a.

(** A whole number written as a JSON number. *)
Definition json_int (j : json) : option Z :=
  match j with
  | JNum m e =>
      if 0 <=? e then Some (m * 10 ^ e)
      else if m mod 10 ^ (- e) =? 0 then Some (m / 10 ^ (- e)) else None
  | _ => None
  end.

Definition val_int (v : option val) : option Z :=
  match v with
  | Some (VJson j) => json_int j
  | _ => None
  end.

Definition val_bool (v : option val) : option bool :=
  match v with
  | Some (VJson (JBool b)) => Some b
  | _ => None
  end.

Definition val_strings (σ : store) (v : option val) : option (list string) :=
  match v with
  | Some (VJson (JArr items)) => mapM (λ x, json_string (Some x)) items
  | Some (VRef l) =>
      match σ !! l with
      | Some (SArray elems) =>
          mapM (λ x, match x with VJson j => json_string (Some j) | VRef _ => None end)
               elems
      | _ => None
      end
  | _ => None
  end.

Definition objectProps (σ : store) (v : val) : option (gmap string val) :=
  match v with
  | VRef l => match σ !! l with Some (SObject props) => Some props | _ => None end
  | VJson _ => None
  end.

Definition asEligibilityPolicy (σ : store) (v : val) : option EligibilityPolicy.t :=
  props ← objectProps σ v;
  days ← val_int (props !! "minPassportValidityDays");
  age ← val_int (props !! "minApplicantAge");
  visas ← val_strings σ (props !! "supportedVisaTypes");
  blacklist ← val_strings σ (props !! "blacklistedNationalities");
  nameMatch ← val_bool (props !! "requireNameMatch");
  passportMatch ← val_bool (props !! "requirePassportMatch");
  mret (EligibilityPolicy.mk days age visas blacklist nameMatch passportMatch).

(** The calls to [verifyDocuments] in a trace. *)
Definition verifyCalls (t : list Event) : list (list File.t * json * val) :=
  omap (λ ev, match ev with
              | VerifyCall files a p => Some (files, a, p)
              | ConsoleError _ _ => None
              end) t.

(** An engine that treats its inputs as read-only and holds no reference of
    its own into the module store leaves every object that existed before
    the call as it was. *)
Definition engine_readonly `{Runtime} : Prop :=
  ∀ files applicant policy σ c σ',
    verifyDocuments files applicant policy σ = (c, σ') →
    ∀ l, l ∈ dom σ → σ' !! l = σ !! l.

(** ** The paths through [POST]

    One constructor per [return] of the handler, with the conditions under
    which it is reached; [POST_handled] below shows that the function takes
    exactly these paths. *)

Definition badRequest (msg : string) : Response :=
  NextResponse_json (ErrorBody msg) (Some 400).

Definition serverError (e : Thrown) : Response :=
  NextResponse_json (ErrorBody (errorMessage e)) (Some 500).

Definition logged (e : Thrown) (σ : store) (t : list Event) : World :=
  {| heap := σ; trace := t ++ [ConsoleError "Verification error" e] |}.

Inductive handled `{Runtime} (req : NextRequest) (w : World) : Response → World → Prop :=
| handled_body_rejected e :
    formData req = Throw e →
    handled req w (serverError e) (logged e (heap w) (trace w))
| handled_no_files fd :
    formData req = Normal fd →
    documentFiles fd = [] →
    handled req w (badRequest "No document files were uploaded") w
| handled_applicant_missing fd :
    formData req = Normal fd →
    documentFiles fd ≠ [] →
    truthyString (get "applicant" fd) = None →
    handled req w (badRequest "Applicant payload missing") w
| handled_applicant_invalid fd text :
    formData req = Normal fd →
    documentFiles fd ≠ [] →
    truthyString (get "applicant" fd) = Some text →
    JSON_parse text = None →
    handled req w (badRequest "Invalid applicant payload") w
| handled_verified fd text applicant policy w1 result σ2 :
    formData req = Normal fd →
    documentFiles fd ≠ [] →
    truthyString (get "applicant" fd) = Some text →
    JSON_parse text = Some applicant →
    effectivePolicy (get "policy" fd) w = (Normal policy, w1) →
    verifyDocuments (documentFiles fd) applicant policy (heap w1) = (Normal result, σ2) →
    handled req w (NextResponse_json (ResultBody result) None)
      {| heap := σ2;
         trace := trace w1 ++ [VerifyCall (documentFiles fd) applicant policy] |}
| handled_engine_threw fd text applicant policy w1 e σ2 :
    formData req = Normal fd →
    documentFiles fd ≠ [] →
    truthyString (get "applicant" fd) = Some text →
    JSON_parse text = Some applicant →
    effectivePolicy (get "policy" fd) w = (Normal policy, w1) →
    verifyDocuments (documentFiles fd) applicant policy (heap w1) = (Throw e, σ2) →
    handled req w (serverError e)
      (logged e σ2 (trace w1 ++ [VerifyCall (documentFiles fd) applicant policy])).

(** ** Sample runtimes, for running the handler *)

Definition blank_response : VerificationResponse.t :=
  VerificationResponse.mk "" 0 ∅ None None []
    (EligibilityDecision.mk DecisionStatus.unknown [] 0) [] "" 0.

(** An engine that only allocates: it leaves a scratch object in the store
    and answers with a fixed report. *)
Definition scratch_engine
    (files : list File.t) (applicant : json) (policy : val) (σ : store)
    : Completion VerificationResponse.t * store :=
  (Normal blank_response, (alloc (SArray []) σ).2).

(** An engine that normalises the policy in place: it appends a visa type
    to the array it was handed ([policy.supportedVisaTypes.push(...)]). *)
Definition normalising_engine
    (files : list File.t) (applicant : json) (policy : val) (σ : store)
    : Completion VerificationResponse.t * store :=
  match objectProps σ policy with
  | Some props =>
      match props !! "supportedVisaTypes" with
      | Some (VRef l) =>
          match σ !! l with
          | Some (SArray elems) =>
              (Normal blank_response,
               <[l := SArray (elems ++ [VJson (JStr "transit")])]> σ)
          | _ => (Normal blank_response, σ)
          end
      | _ => (Normal blank_response, σ)
      end
  | None => (Throw (ErrorInstance "policy is not an object"), σ)
  end.

Definition scratch_runtime : Runtime :=
  {| JSON_parse := JsonText.json_parse; verifyDocuments := scratch_engine |}.

Definition normalising_runtime : Runtime :=
  {| JSON_parse := JsonText.json_parse; verifyDocuments := normalising_engine |}.

Definition passport_png : File.t := File.mk "passport.png" 204800.
Definition empty_png : File.t := File.mk "empty.png" 0.

Definition request_of (fd : FormData) : NextRequest := {| formData := Normal fd |}.

(** A request whose applicant payload is the JSON text [null]. *)
Definition null_applicant_request : NextRequest :=
  request_of [("documents", EntryFile passport_png);
              ("applicant", EntryString "null")].

(** What [page.tsx] sends for its default applicant, with no policy. *)
Definition default_applicant_text : string :=
  let q := JsonText.quoted in
  "{" +:+ q "name" +:+ ":" +:+ q "Alex Johnson" +:+ ","
      +:+ q "dateOfBirth" +:+ ":" +:+ q "1992-04-14" +:+ ","
      +:+ q "passportNumber" +:+ ":" +:+ q "K1234567" +:+ ","
      +:+ q "nationality" +:+ ":" +:+ q "USA" +:+ ","
      +:+ q "visaType" +:+ ":" +:+ q "tourist" +:+ ","
      +:+ q "intendedTravelDate" +:+ ":" +:+ q "2025-06-01" +:+ "}".

Definition default_request : NextRequest :=
  request_of [("documents", EntryFile passport_png);
              ("applicant", EntryString default_applicant_text)].

Definition empty_upload_request : NextRequest :=
  request_of [("documents", EntryFile empty_png);
              ("documents", EntryString "passport.png");
              ("applicant", EntryString default_applicant_text)].

(** A policy payload that is JSON, [{"supportedVisaTypes":5}], but not a
    partial policy. *)
Definition ill_typed_policy_request : NextRequest :=
  request_of [("documents", EntryFile passport_png);
              ("applicant", EntryString default_applicant_text);
              ("policy", EntryString ("{" +:+ JsonText.quoted "supportedVisaTypes" +:+ ":5}"))].

Definition only_empty_files : FormData :=
  [("documents", EntryFile empty_png);
   ("applicant", EntryString default_applicant_text);
   ("documents", EntryFile (File.mk "blank.jpg" 0))].

(** An engine that fails on every call. *)
Definition failing_runtime : Runtime :=
  {| JSON_parse := JsonText.json_parse;
     verifyDocuments := λ _ _ _ σ, (Throw (ErrorInstance "OCR worker crashed"), σ) |}.

Definition default_applicant_json : json :=
  JObj [("name", JStr "Alex Johnson"); ("dateOfBirth", JStr "1992-04-14");
        ("passportNumber", JStr "K1234567"); ("nationality", JStr "USA");
        ("visaType", JStr "tourist"); ("intendedTravelDate", JStr "2025-06-01")].

(** C7 as the design document words it: a request whose applicant payload
    does not denote an [ApplicantProfile] never makes the handler pass that
    payload to [verifyDocuments]. *)
Definition malformed_payloads_never_reach_engine : Prop :=
  ∀ (R : Runtime) (req : NextRequest) (fd : FormData) (w : World) evs files a p,
    formData req = Normal fd →
    applicantOf fd = None →
    trace (POST req w).2 = trace w ++ evs →
    VerifyCall files a p ∈ evs →
    is_Some (asApplicantProfile a).

(** ** Further notions for the handler *)

(** The keys of [EligibilityPolicy]. *)
Definition policyKeys : list string :=
  ["minPassportValidityDays"; "minApplicantAge"; "supportedVisaTypes";
   "blacklistedNationalities"; "requireNameMatch"; "requirePassportMatch"].

(** The payload has no own property of a policy key. *)
Definition keyless (parsed : json) : Prop :=
  ∀ k, k ∈ policyKeys → assoc_last k (ownProperties_json parsed) = None.

(** A form whose policy payload is not JSON. *)
Definition garbled_policy_form : FormData :=
  [("documents", EntryFile passport_png);
   ("policy", EntryString "{minApplicantAge: 21}");
   ("applicant", EntryString default_applicant_text)].

(** The policy objects built for requests: the policies the engine was
    called with, the module constant apart. *)
Definition requestPolicies (t : list Event) : list loc :=
  omap (λ ev, match ev with
              | VerifyCall _ _ (VRef l) =>
                  if decide (l = FALLBACK_POLICY) then None else Some l
              | VerifyCall _ _ (VJson _) | ConsoleError _ _ => None
              end) t.

(** * The page ([app/src/app/page.tsx])

    The client component [Home]: its state, its event handlers and the
    request it sends to the route above. *)

(** ** String operations of the runtime used by the page

    Strings are byte strings here; the case conversions act on the ASCII
    letters and [trim] removes the ASCII white space, which is what the
    JavaScript operations do on ASCII text. *)
Module JsString.

Definition isSpace (c : ascii) : bool :=
  let n := nat_of_ascii c in
  (n =? 32)%nat || ((9 <=? n)%nat && (n <=? 13)%nat).

Definition lowerChar (c : ascii) : ascii :=
  let n := nat_of_ascii c in
  if (65 <=? n)%nat && (n <=? 90)%nat then ascii_of_nat (n + 32) else c.

Definition upperChar (c : ascii) : ascii :=
  let n := nat_of_ascii c in
  if (97 <=? n)%nat && (n <=? 122)%nat then ascii_of_nat (n - 32) else c.

Definition comma : ascii := ","%char.

Fixpoint trimStart (cs : list ascii) : list ascii :=
  match cs with
  | c :: rest => if isSpace c then trimStart rest else cs
  | [] => []
  end.

Definition trimChars (cs : list ascii) : list ascii :=
  reverse (trimStart (reverse (trimStart cs))).

(** [s.split(sep)] for a one-character separator: the empty string splits
    into one empty piece. *)
Fixpoint splitChars (sep : ascii) (cs : list ascii) : list (list ascii) :=
  match cs with
  | [] => [[]]
  | c :: rest =>
      if Ascii.eqb c sep then [] :: splitChars sep rest
      else match splitChars sep rest with
           | piece :: pieces => (c :: piece) :: pieces
           | [] => [[c]]
           end
  end.

(** [items.join(sep)] *)
Fixpoint joinChars (sep : list ascii) (items : list (list ascii)) : list ascii :=
  match items with
  | [] => []
  | [x] => x
  | x :: rest => x ++ sep ++ joinChars sep rest
  end.

Definition startsClean (cs : list ascii) : Prop :=
  match cs with
  | c :: _ => isSpace c = false
  | [] => True
  end.

Definition toLowerCase (s : string) : string :=
  string_of_list_ascii (lowerChar <$> list_ascii_of_string s).

Definition toUpperCase (s : string) : string :=
  string_of_list_ascii (upperChar <$> list_ascii_of_string s).

Definition trim (s : string) : string :=
  string_of_list_ascii (trimChars (list_ascii_of_string s)).

Definition split (sep : ascii) (s : string) : list string :=
  string_of_list_ascii <$> splitChars sep (list_ascii_of_string s).

Definition join (sep : string) (items : list string) : string :=
  string_of_list_ascii
    (joinChars (list_ascii_of_string sep) (list_ascii_of_string <$> items)).

(** [Boolean(s)] for a string: it is not empty. *)
Definition truthy (s : string) : bool :=
  match s with EmptyString => false | String _ _ => true end.

End JsString.

Module Page.

(** Lines 10-26. *)
Definition defaultApplicant : ApplicantProfile.t :=
  ApplicantProfile.mk "Alex Johnson" "1992-04-14" "K1234567" "USA" "tourist"
    "2025-06-01".

Definition defaultPolicy : EligibilityPolicy.t :=
  EligibilityPolicy.mk 180 18 ["tourist"; "business"; "student"] ["IRN"; "PRK"]
    true true.

(** The six [useState] cells of [Home].  [result] holds the payload of the
    response as it was received: the cast to [VerificationResponse] checks
    nothing. *)
Record State : Type := mkState {
  documents : list File.t;
  applicant : ApplicantProfile.t;
  policy : EligibilityPolicy.t;
  submitting : bool;
  error : option string;
  result : option Body;
}.

Definition initial : State :=
  mkState [] defaultApplicant defaultPolicy false None None.

Definition setDocuments (f : list File.t → list File.t) (st : State) : State :=
  mkState (f (documents st)) (applicant st) (policy st) (submitting st) (error st)
    (result st).

Definition setApplicant (f : ApplicantProfile.t → ApplicantProfile.t) (st : State)
    : State :=
  mkState (documents st) (f (applicant st)) (policy st) (submitting st) (error st)
    (result st).

Definition setPolicy (f : EligibilityPolicy.t → EligibilityPolicy.t) (st : State)
    : State :=
  mkState (documents st) (applicant st) (f (policy st)) (submitting st) (error st)
    (result st).

Definition setSubmitting (b : bool) (st : State) : State :=
  mkState (documents st) (applicant st) (policy st) b (error st) (result st).

Definition setError (e : option string) (st : State) : State :=
  mkState (documents st) (applicant st) (policy st) (submitting st) e (result st).

Definition setResult (r : option Body) (st : State) : State :=
  mkState (documents st) (applicant st) (policy st) (submitting st) (error st) r.

(** [handleDocumentInput]: [null] changes nothing; a selection replaces the
    list. *)
Definition handleDocumentInput (files : option (list File.t)) (st : State) : State :=
  match files with
  | None => st
  | Some fs => setDocuments (λ _, fs) st
  end.

(** The keys of [ApplicantProfile]; every value is a string. *)
Inductive ApplicantKey : Type :=
| KName | KDateOfBirth | KPassportNumber | KNationality | KVisaType
| KIntendedTravelDate.

#[global] Instance ApplicantKey_eq_dec : EqDecision ApplicantKey.
Proof. solve_decision. Defined.

Definition readApplicant (key : ApplicantKey) (a : ApplicantProfile.t) : string :=
  match key with
  | KName => ApplicantProfile.name a
  | KDateOfBirth => ApplicantProfile.dateOfBirth a
  | KPassportNumber => ApplicantProfile.passportNumber a
  | KNationality => ApplicantProfile.nationality a
  | KVisaType => ApplicantProfile.visaType a
  | KIntendedTravelDate => ApplicantProfile.intendedTravelDate a
  end.

(** [{ ...prev, [key]: value }] *)
Definition writeApplicant (key : ApplicantKey) (value : string)
    (a : ApplicantProfile.t) : ApplicantProfile.t :=
  let pick k := if decide (k = key) then value else readApplicant k a in
  ApplicantProfile.mk (pick KName) (pick KDateOfBirth) (pick KPassportNumber)
    (pick KNationality) (pick KVisaType) (pick KIntendedTravelDate).

Definition updateApplicant (key : ApplicantKey) (value : string) (st : State) : State :=
  setApplicant (writeApplicant key value) st.

(** A key of [EligibilityPolicy] with a value of its type. *)
Inductive PolicyEntry : Type :=
| MinPassportValidityDays (v : Z)
| MinApplicantAge (v : Z)
| SupportedVisaTypes (v : list string)
| BlacklistedNationalities (v : list string)
| RequireNameMatch (v : bool)
| RequirePassportMatch (v : bool).

Definition writePolicy (e : PolicyEntry) (p : EligibilityPolicy.t) : EligibilityPolicy.t :=
  match e with
  | MinPassportValidityDays v =>
      EligibilityPolicy.mk v (EligibilityPolicy.minApplicantAge p)
        (EligibilityPolicy.supportedVisaTypes p)
        (EligibilityPolicy.blacklistedNationalities p)
        (EligibilityPolicy.requireNameMatch p) (EligibilityPolicy.requirePassportMatch p)
  | MinApplicantAge v =>
      EligibilityPolicy.mk (EligibilityPolicy.minPassportValidityDays p) v
        (EligibilityPolicy.supportedVisaTypes p)
        (EligibilityPolicy.blacklistedNationalities p)
        (EligibilityPolicy.requireNameMatch p) (EligibilityPolicy.requirePassportMatch p)
  | SupportedVisaTypes v =>
      EligibilityPolicy.mk (EligibilityPolicy.minPassportValidityDays p)
        (EligibilityPolicy.minApplicantAge p) v
        (EligibilityPolicy.blacklistedNationalities p)
        (EligibilityPolicy.requireNameMatch p) (EligibilityPolicy.requirePassportMatch p)
  | BlacklistedNationalities v =>
      EligibilityPolicy.mk (EligibilityPolicy.minPassportValidityDays p)
        (EligibilityPolicy.minApplicantAge p) (EligibilityPolicy.supportedVisaTypes p) v
        (EligibilityPolicy.requireNameMatch p) (EligibilityPolicy.requirePassportMatch p)
  | RequireNameMatch v =>
      EligibilityPolicy.mk (EligibilityPolicy.minPassportValidityDays p)
        (EligibilityPolicy.minApplicantAge p) (EligibilityPolicy.supportedVisaTypes p)
        (EligibilityPolicy.blacklistedNationalities p) v
        (EligibilityPolicy.requirePassportMatch p)
  | RequirePassportMatch v =>
      EligibilityPolicy.mk (EligibilityPolicy.minPassportValidityDays p)
        (EligibilityPolicy.minApplicantAge p) (EligibilityPolicy.supportedVisaTypes p)
        (EligibilityPolicy.blacklistedNationalities p)
        (EligibilityPolicy.requireNameMatch p) v
  end.

Definition updatePolicy (e : PolicyEntry) (st : State) : State :=
  setPolicy (writePolicy e) st.

(** Lines 38-45: the text shown in the two list inputs. *)
Definition supportedVisaTypes (st : State) : string :=
  JsString.join ", " (EligibilityPolicy.supportedVisaTypes (policy st)).

Definition blacklistedNationalities (st : State) : string :=
  JsString.join ", " (EligibilityPolicy.blacklistedNationalities (policy st)).

(** Lines 308-311 and 327-330:
    [value.split(",").map((item) => norm(item.trim())).filter(Boolean)] *)
Definition parseList (norm : string → string) (value : string) : list string :=
  filter (λ item, JsString.truthy item = true)
    ((λ item, norm (JsString.trim item)) <$> JsString.split JsString.comma value).

(** Lines 172-176: the Remove button of a listed file. *)
Definition removeDocument (name : string) (st : State) : State :=
  setDocuments (filter (λ candidate, File.name candidate ≠ name)) st.

(** The same on characters, and the shape of the items it stores. *)
Definition parseChars (normChar : ascii → ascii) (cs : list ascii)
    : list (list ascii) :=
  filter (λ item, item ≠ [])
    ((λ piece, normChar <$> JsString.trimChars piece)
       <$> JsString.splitChars JsString.comma cs).

Definition storedChars (normChar : ascii → ascii) (item : list ascii) : Prop :=
  item ≠ [] ∧ (JsString.comma ∉ item) ∧ JsString.trimChars item = item
  ∧ normChar <$> item = item.

Definition storedItem (norm : string → string) (item : string) : Prop :=
  item ≠ "" ∧ (JsString.comma ∉ list_ascii_of_string item)
  ∧ JsString.trim item = item ∧ norm item = item.

(** Line 97. *)
Definition canSubmit (st : State) : bool :=
  (0 <? length (documents st))%nat && negb (submitting st).

(** Lines 118-124: Reset Session.  [submitting] is not among the cells it
    sets. *)
Definition resetSession (st : State) : State :=
  setPolicy (λ _, defaultPolicy)
    (setApplicant (λ _, defaultApplicant)
       (setError None (setResult None (setDocuments (λ _, []) st)))).

(** *** [submit] *)

(** [JSON.stringify] of a string: the quoted text with the two-character
    escapes and [\u00XX] for the other control characters. *)
Definition hexDigit (n : nat) : ascii :=
  if (n <? 10)%nat then ascii_of_nat (48 + n) else ascii_of_nat (87 + n).

Definition escapeChar (c : ascii) : list ascii :=
  let n := nat_of_ascii c in
  if Ascii.eqb c JsonText.dquote then [JsonText.backslash; JsonText.dquote]
  else if Ascii.eqb c JsonText.backslash then [JsonText.backslash; JsonText.backslash]
  else if (n =? 8)%nat then [JsonText.backslash; "b"%char]
  else if (n =? 12)%nat then [JsonText.backslash; "f"%char]
  else if (n =? 10)%nat then [JsonText.backslash; "n"%char]
  else if (n =? 13)%nat then [JsonText.backslash; "r"%char]
  else if (n =? 9)%nat then [JsonText.backslash; "t"%char]
  else if (n <? 32)%nat then
    [JsonText.backslash; "u"%char; "0"%char; "0"%char;
     hexDigit (n / 16); hexDigit (n mod 16)]
  else [c].

Definition quoteChars (s : string) : list ascii :=
  JsonText.dquote :: (list_ascii_of_string s ≫= escapeChar) ++ [JsonText.dquote].

Definition memberChars (key : string) (value : list ascii) : list ascii :=
  quoteChars key ++ ":"%char :: value.

Definition objectChars (members : list (list ascii)) : list ascii :=
  "{"%char :: JsString.joinChars [","%char] members ++ ["}"%char].

Definition arrayChars (items : list (list ascii)) : list ascii :=
  "["%char :: JsString.joinChars [","%char] items ++ ["]"%char].

Definition boolChars (b : bool) : list ascii :=
  list_ascii_of_string (if b then "true" else "false").

(** [JSON.stringify(applicant)]: the six members in the order of the object
    literal, which the spread in [updateApplicant] keeps. *)
Definition stringifyApplicant (a : ApplicantProfile.t) : string :=
  string_of_list_ascii
    (objectChars
       [ memberChars "name" (quoteChars (ApplicantProfile.name a));
         memberChars "dateOfBirth" (quoteChars (ApplicantProfile.dateOfBirth a));
         memberChars "passportNumber" (quoteChars (ApplicantProfile.passportNumber a));
         memberChars "nationality" (quoteChars (ApplicantProfile.nationality a));
         memberChars "visaType" (quoteChars (ApplicantProfile.visaType a));
         memberChars "intendedTravelDate"
           (quoteChars (ApplicantProfile.intendedTravelDate a)) ]).

(** [JSON.stringify(policy)]; the two thresholds are whole numbers (in the
    range where a JavaScript number prints as its decimal digits). *)
Definition stringifyPolicy (p : EligibilityPolicy.t) : string :=
  string_of_list_ascii
    (objectChars
       [ memberChars "minPassportValidityDays"
           (list_ascii_of_string (pretty (EligibilityPolicy.minPassportValidityDays p)));
         memberChars "minApplicantAge"
           (list_ascii_of_string (pretty (EligibilityPolicy.minApplicantAge p)));
         memberChars "supportedVisaTypes"
           (arrayChars (quoteChars <$> EligibilityPolicy.supportedVisaTypes p));
         memberChars "blacklistedNationalities"
           (arrayChars (quoteChars <$> EligibilityPolicy.blacklistedNationalities p));
         memberChars "requireNameMatch"
           (boolChars (EligibilityPolicy.requireNameMatch p));
         memberChars "requirePassportMatch"
           (boolChars (EligibilityPolicy.requirePassportMatch p)) ]).

(** The values [JSON.parse] builds from these two texts. *)
Definition applicantJson (a : ApplicantProfile.t) : json :=
  JObj [ ("name", JStr (ApplicantProfile.name a));
         ("dateOfBirth", JStr (ApplicantProfile.dateOfBirth a));
         ("passportNumber", JStr (ApplicantProfile.passportNumber a));
         ("nationality", JStr (ApplicantProfile.nationality a));
         ("visaType", JStr (ApplicantProfile.visaType a));
         ("intendedTravelDate", JStr (ApplicantProfile.intendedTravelDate a)) ].

Definition policyJson (p : EligibilityPolicy.t) : json :=
  JObj [ ("minPassportValidityDays", jint (EligibilityPolicy.minPassportValidityDays p));
         ("minApplicantAge", jint (EligibilityPolicy.minApplicantAge p));
         ("supportedVisaTypes", JArr (JStr <$> EligibilityPolicy.supportedVisaTypes p));
         ("blacklistedNationalities",
          JArr (JStr <$> EligibilityPolicy.blacklistedNationalities p));
         ("requireNameMatch", JBool (EligibilityPolicy.requireNameMatch p));
         ("requirePassportMatch", JBool (EligibilityPolicy.requirePassportMatch p)) ].

(** Lines 71-74: the form the page sends. *)
Definition formDataOf (st : State) : FormData :=
  ((λ file, ("documents", EntryFile file)) <$> documents st)
  ++ [ ("applicant", EntryString (stringifyApplicant (applicant st)));
       ("policy", EntryString (stringifyPolicy (policy st))) ].

(** Lines 67-69: what [submit] does before it awaits the response. *)
Definition submitStart (st : State) : State :=
  setResult None (setError None (setSubmitting true st)).

(** How the awaited part of [submit] ends: the [fetch] or the reading of the
    body rejects, or a response arrives with a body that was read. *)
Inductive FetchOutcome : Type :=
| FetchRejected (e : Thrown)
| FetchResponded (resp : Response).

(** [response.ok] *)
Definition ok (resp : Response) : bool := (200 <=? status resp) && (status resp <=? 299).

(** [payload.error ?? "Verification failed"] *)
Definition payloadError (b : Body) : string :=
  match b with
  | ErrorBody msg => msg
  | ResultBody _ => "Verification failed"
  end.

(** [err instanceof Error ? err.message : "Unknown error"] *)
Definition caughtMessage (e : Thrown) : string :=
  match e with
  | ErrorInstance message => message
  | OtherThrown _ => "Unknown error"
  end.

(** Lines 79-89: what [submit] does once the [fetch] has settled. *)
Definition submitSettle (o : FetchOutcome) (st : State) : State :=
  setSubmitting false
    (match o with
     | FetchRejected e => setError (Some (caughtMessage e)) st
     | FetchResponded resp =>
         if ok resp then setResult (Some (body resp)) st
         else setError (Some (payloadError (body resp))) st
     end).

(** *** The page as a transition system

    A session is the state of the page and the requests that were sent and
    have not settled yet.  Every event is handled on the state the previous
    one left.  The Submit button is disabled unless [canSubmit]; a Remove
    button exists only for a listed file. *)
Record Session : Type := mkSession { ui : State; inflight : list FormData }.

Inductive Event : Type :=
| SelectFiles (files : option (list File.t))
| ClickRemove (name : string)
| EditApplicant (key : ApplicantKey) (text : string)
| EditMinValidity (v : Z)
| EditMinAge (v : Z)
| EditVisaTypes (text : string)
| EditBlacklist (text : string)
| ToggleNameMatch
| TogglePassportMatch
| ClickReset
| ClickSubmit
| FetchSettles (o : FetchOutcome).

(** What the [onChange] of each applicant input passes on.  The two number
    inputs pass on [Number(event.target.value)], a whole number here. *)
Definition applicantInput (key : ApplicantKey) (text : string) : string :=
  match key with
  | KPassportNumber | KNationality => JsString.toUpperCase text
  | KVisaType => JsString.toLowerCase text
  | KName | KDateOfBirth | KIntendedTravelDate => text
  end.

Inductive step : Session → Event → Session → Prop :=
| step_select files s :
    step s (SelectFiles files) (mkSession (handleDocumentInput files (ui s)) (inflight s))
| step_remove file s :
    file ∈ documents (ui s) →
    step s (ClickRemove (File.name file))
      (mkSession (removeDocument (File.name file) (ui s)) (inflight s))
| step_applicant key text s :
    step s (EditApplicant key text)
      (mkSession (updateApplicant key (applicantInput key text) (ui s)) (inflight s))
| step_min_validity v s :
    step s (EditMinValidity v)
      (mkSession (updatePolicy (MinPassportValidityDays v) (ui s)) (inflight s))
| step_min_age v s :
    step s (EditMinAge v)
      (mkSession (updatePolicy (MinApplicantAge v) (ui s)) (inflight s))
| step_visa_types text s :
    step s (EditVisaTypes text)
      (mkSession
         (updatePolicy (SupportedVisaTypes (parseList JsString.toLowerCase text)) (ui s))
         (inflight s))
| step_blacklist text s :
    step s (EditBlacklist text)
      (mkSession
         (updatePolicy (BlacklistedNationalities (parseList JsString.toUpperCase text))
            (ui s))
         (inflight s))
| step_toggle_name s :
    step s ToggleNameMatch
      (mkSession
         (updatePolicy
            (RequireNameMatch (negb (EligibilityPolicy.requireNameMatch (policy (ui s)))))
            (ui s))
         (inflight s))
| step_toggle_passport s :
    step s TogglePassportMatch
      (mkSession
         (updatePolicy
            (RequirePassportMatch
               (negb (EligibilityPolicy.requirePassportMatch (policy (ui s)))))
            (ui s))
         (inflight s))
| step_reset s :
    step s ClickReset (mkSession (resetSession (ui s)) (inflight s))
| step_submit s :
    canSubmit (ui s) = true →
    step s ClickSubmit
      (mkSession (submitStart (ui s)) (inflight s ++ [formDataOf (ui s)]))
| step_settle o before fd after s :
    inflight s = before ++ fd :: after →
    step s (FetchSettles o) (mkSession (submitSettle o (ui s)) (before ++ after)).

(** The form of the values that the inputs store. *)
Definition normalised (st : State) : Prop :=
  JsString.toUpperCase (ApplicantProfile.passportNumber (applicant st))
    = ApplicantProfile.passportNumber (applicant st)
  ∧ JsString.toUpperCase (ApplicantProfile.nationality (applicant st))
    = ApplicantProfile.nationality (applicant st)
  ∧ JsString.toLowerCase (ApplicantProfile.visaType (applicant st))
    = ApplicantProfile.visaType (applicant st)
  ∧ Forall (storedItem JsString.toLowerCase)
      (EligibilityPolicy.supportedVisaTypes (policy st))
  ∧ Forall (storedItem JsString.toUpperCase)
      (EligibilityPolicy.blacklistedNationalities (policy st)).

Inductive reachable : Session → Prop :=
| reachable_initial : reachable (mkSession initial [])
| reachable_step s ev s' : reachable s → step s ev s' → reachable s'.

(** Two files of one name among the selected ones. *)
Definition duplicate_names : State :=
  handleDocumentInput
    (Some [File.mk "scan.png" 10; File.mk "visa.pdf" 20; File.mk "scan.png" 30])
    initial.

(** The page after a file was selected, and after Submit was clicked. *)
Definition one_file_selected : State :=
  handleDocumentInput (Some [passport_png]) initial.

Definition submitted_session : Session :=
  mkSession (submitStart one_file_selected) ([] ++ [formDataOf one_file_selected]).

End Page.

(** * The verification engine

    [app/src/lib/document.ts] is not part of the sources at hand; the
    handler above only calls it.  Its stages are modelled here from the
    design document, section by section.  What the document leaves open (the
    zone tables of the formats, the text patterns, the rule predicates, the
    wording of messages) is data of [EngineData]. *)

(** ** Check digits (design 4.2) *)

Module Mrz.

Definition filler : ascii := "<"%char.

Definition isDigit (c : ascii) : bool :=
  let n := nat_of_ascii c in (48 <=? n)%nat && (n <=? 57)%nat.

Definition isUpper (c : ascii) : bool :=
  let n := nat_of_ascii c in (65 <=? n)%nat && (n <=? 90)%nat.

Definition inAlphabet (c : ascii) : bool :=
  isDigit c || isUpper c || Ascii.eqb c filler.

(** Modelled from the spec: the character values of the missing
    [document.ts] checksum routine: a digit is its value, [A]..[Z] are
    10..35, the filler is 0.  A character outside the MRZ alphabet never
    reaches the routine; it is given 0. *)
Definition charValue (c : ascii) : Z :=
  let n := Z.of_nat (nat_of_ascii c) in
  if isDigit c then n - 48
  else if isUpper c then n - 55
  else 0.

(** Modelled from the spec: the missing weight table, [7, 3, 1] repeating
    from the first character. *)
Definition weights : list Z := [7; 3; 1].

Definition weightAt (i : nat) : Z := default 0 (weights !! (i mod 3)%nat).

(** Modelled from the spec: the missing check digit routine, written as
    the loop it describes: an index and a running sum over the
    characters, then [sum mod 10]. *)
Definition weightedSum (cs : list ascii) : Z :=
  (foldl (λ st c, (S st.1, st.2 + charValue c * weightAt st.1)) (0%nat, 0) cs).2.

Definition computeCheckDigit (cs : list ascii) : Z := weightedSum cs mod 10.

(** The same sum, position by position. *)
Definition positionalSum (cs : list ascii) : Z :=
  foldr Z.add 0 (imap (λ i c, weightAt i * charValue c) cs).

(** *** Layouts *)

(** Modelled from the spec: the missing format tables.  A format is data, a
    table of fixed-width zones and of check digit segments (design 4.2 and
    9).  A span is a line, a start column and a length. *)
Record Span : Type := mkSpan { spanLine : nat; spanStart : nat; spanLength : nat }.

Record Zone : Type := mkZone {
  zoneField : string;
  zoneLabel : string;
  zoneSpan : Span;
}.

(** Modelled from the spec: a check digit of a layout (missing with the
    tables): the spans it is computed over, in order, the position
    of the digit, the field that receives the issue when it fails, and the
    fields it vouches for. *)
Record CheckSegment : Type := mkSegment {
  segName : string;
  segField : string;
  segData : list Span;
  segDigit : Span;
  segCovers : list string;
}.

Record Layout : Type := mkLayout {
  layoutFormat : MrzFormat.t;
  lineCount : nat;
  lineLength : nat;
  discriminator : list string → bool;
  zones : list Zone;
  segments : list CheckSegment;
}.

Definition slice (sp : Span) (lines : list string) : list ascii :=
  take (spanLength sp)
    (drop (spanStart sp) (list_ascii_of_string (default "" (lines !! spanLine sp)))).

Fixpoint dropFiller (cs : list ascii) : list ascii :=
  match cs with
  | c :: rest => if Ascii.eqb c filler then dropFiller rest else cs
  | [] => []
  end.

(** Modelled from the spec: the missing trimming of a zone; filler on
    either side is removed. *)
Definition trimFiller (cs : list ascii) : string :=
  string_of_list_ascii (reverse (dropFiller (reverse (dropFiller cs)))).

Definition segmentData (seg : CheckSegment) (lines : list string) : list ascii :=
  concat ((λ sp, slice sp lines) <$> segData seg).

(** Modelled from the spec: a check digit matches when the character at
    its position is the digit [computeCheckDigit] gives for the data. *)
Definition segmentMatches (lines : list string) (seg : CheckSegment) : bool :=
  match slice (segDigit seg) lines with
  | [c] => isDigit c && (charValue c =? computeCheckDigit (segmentData seg lines))
  | _ => false
  end.

Definition issueFor (seg : CheckSegment) : string :=
  "Check digit mismatch: " +:+ segName seg.

Definition coveringSegments (L : Layout) (field : string) : list CheckSegment :=
  filter (λ seg, field ∈ segCovers seg) (segments L).

(** The issues a field collects in [decode]: those of the failing segments
    that report to it, in table order (used to state what [decode] does). *)
Definition failedIssues (lines : list string) (segs : list CheckSegment) (k : string)
    : list string :=
  issueFor <$>
    filter (λ seg, segmentMatches lines seg = false ∧ segField seg = k) segs.

Definition withIssues (msgs : list string) (f : ExtractedField.t) : ExtractedField.t :=
  {| ExtractedField.label := ExtractedField.label f;
     ExtractedField.value := ExtractedField.value f;
     ExtractedField.confidence := ExtractedField.confidence f;
     ExtractedField.source := ExtractedField.source f;
     ExtractedField.issues := Some (ExtractedField.issueList f ++ msgs) |}.

Definition appendIssue (msg : string) (f : ExtractedField.t) : ExtractedField.t :=
  withIssues [msg] f.

Definition appendIssues (msgs : list string) (f : ExtractedField.t)
    : ExtractedField.t :=
  foldl (λ f msg, appendIssue msg f) f msgs.

Section Decoder.

(** Modelled from the spec: the confidence of a field under a failed
    check digit; the design only bounds it by 40. *)
Context (invalidConfidence : Z).

(** Modelled from the spec: the missing zone decoder.  The value is the
    trimmed zone whatever the check digits say; the confidence is 100
    when every check digit that covers the field matches, and
    [invalidConfidence] otherwise. *)
Definition decodeZone (L : Layout) (lines : list string) (z : Zone)
    : ExtractedField.t :=
  {| ExtractedField.label := zoneLabel z;
     ExtractedField.value := Some (trimFiller (slice (zoneSpan z) lines));
     ExtractedField.confidence :=
       if forallb (segmentMatches lines) (coveringSegments L (zoneField z))
       then 100 else invalidConfidence;
     ExtractedField.source := Source.mrz;
     ExtractedField.issues := Some [] |}.

Definition decodedZones (L : Layout) (lines : list string)
    : gmap string ExtractedField.t :=
  foldl (λ m z, <[zoneField z := decodeZone L lines z]> m) ∅ (zones L).

(** Modelled from the spec: one step of the missing check digit
    validation; a mismatch clears the flag and appends the issue to the
    field of the segment. *)
Definition verifySegment (lines : list string)
    (st : gmap string ExtractedField.t * bool) (seg : CheckSegment)
    : gmap string ExtractedField.t * bool :=
  if segmentMatches lines seg then st
  else (alter (appendIssue (issueFor seg)) (segField seg) st.1, false).

(** Modelled from the spec: the missing MRZ decoder of a classified
    block. *)
Definition decode (L : Layout) (lines : list string) : MrzResult.t :=
  let st := foldl (verifySegment lines) (decodedZones L lines, true) (segments L) in
  {| MrzResult.format := layoutFormat L;
     MrzResult.fields := st.1;
     MrzResult.checksumValid := st.2 |}.

End Decoder.

(** A layout is well formed when every check digit reports to a field
    that has a zone. *)
Definition wellFormed (L : Layout) : Prop :=
  ∀ seg, seg ∈ segments L → segField seg ∈ zoneField <$> zones L.

(** *** The passport layout *)

(** Modelled from the spec: the missing TD3 row of the format table, two
    lines of 44 characters, with the zones and check digits of ICAO Doc 9303
    part 4. *)
Definition TD3 : Layout :=
  {| layoutFormat := MrzFormat.TD3;
     lineCount := 2;
     lineLength := 44;
     discriminator := λ lines,
       match list_ascii_of_string (default "" (lines !! 0%nat)) with
       | c :: _ => Ascii.eqb c "P"
       | [] => false
       end;
     zones :=
       [ mkZone "documentType" "Document type" (mkSpan 0 0 2);
         mkZone "issuingState" "Issuing state" (mkSpan 0 2 3);
         mkZone "name" "Name" (mkSpan 0 5 39);
         mkZone "documentNumber" "Document number" (mkSpan 1 0 9);
         mkZone "nationality" "Nationality" (mkSpan 1 10 3);
         mkZone "dateOfBirth" "Date of birth" (mkSpan 1 13 6);
         mkZone "sex" "Sex" (mkSpan 1 20 1);
         mkZone "expiryDate" "Expiry date" (mkSpan 1 21 6);
         mkZone "personalNumber" "Personal number" (mkSpan 1 28 14);
         mkZone "compositeCheckDigit" "Composite check digit" (mkSpan 1 43 1) ];
     segments :=
       [ mkSegment "document number" "documentNumber"
           [mkSpan 1 0 9] (mkSpan 1 9 1) ["documentNumber"];
         mkSegment "date of birth" "dateOfBirth"
           [mkSpan 1 13 6] (mkSpan 1 19 1) ["dateOfBirth"];
         mkSegment "expiry date" "expiryDate"
           [mkSpan 1 21 6] (mkSpan 1 27 1) ["expiryDate"];
         mkSegment "personal number" "personalNumber"
           [mkSpan 1 28 14] (mkSpan 1 42 1) ["personalNumber"];
         mkSegment "composite" "compositeCheckDigit"
           [mkSpan 1 0 10; mkSpan 1 13 7; mkSpan 1 21 22] (mkSpan 1 43 1)
           ["documentNumber"; "dateOfBirth"; "expiryDate"; "personalNumber";
            "compositeCheckDigit"] ] |}.

(** The specimen passport of Doc 9303, and the same with the check digit
    of the document number misread (8 for 6). *)
Definition specimen : list string :=
  [ "P<UTOERIKSSON<<ANNA<MARIA<<<<<<<<<<<<<<<<<<<";
    "L898902C36UTO7408122F1204159ZE184226B<<<<<10" ].

Definition specimen_misread : list string :=
  [ "P<UTOERIKSSON<<ANNA<MARIA<<<<<<<<<<<<<<<<<<<";
    "L898902C38UTO7408122F1204159ZE184226B<<<<<10" ].

End Mrz.

(** ** Free-text extraction (design 4.3) *)

Module FreeText.

(** Modelled from the spec: what the missing pattern matcher reports for
    one field: the text it found,
    the strength of the label match, and the OCR engine's confidence for
    the token when it gave one. *)
Record Match : Type := mkMatch {
  matchValue : string;
  labelStrength : Z;
  tokenConfidence : option Z;
}.

(** Modelled from the spec: the missing normalisation of a signal to
    0..100. *)
Definition clamp (x : Z) : Z := Z.max 0 (Z.min 100 x).

(** Modelled from the spec: the missing confidence rule of the free-text
    extractor, the minimum of the two normalised signals (the only signal
    when the OCR engine gave none). *)
Definition matchConfidence (m : Match) : ConfidenceScore :=
  match tokenConfidence m with
  | Some t => Z.min (clamp (labelStrength m)) (clamp t)
  | None => clamp (labelStrength m)
  end.

Definition toField (label : string) (m : Match) : ExtractedField.t :=
  {| ExtractedField.label := label;
     ExtractedField.value := Some (matchValue m);
     ExtractedField.confidence := matchConfidence m;
     ExtractedField.source := Source.ocr;
     ExtractedField.issues := Some [] |}.

End FreeText.

(** ** Reconciliation (design 4.4) *)

Module Reconciler.

(** Modelled from the spec: the missing priority table,
    [mrz > barcode > ocr > inferred]. *)
Definition priority : list Source.t :=
  [Source.mrz; Source.barcode; Source.ocr; Source.inferred].

(** Modelled from the spec: a candidate of the missing reconciler, for one
    field from one source.  Only a source with a
    check digit can be [checksumInvalid]. *)
Record Candidate : Type := mkCandidate {
  field : ExtractedField.t;
  checksumInvalid : bool;
}.

Definition confidenceOf (c : Candidate) : Z := ExtractedField.confidence (field c).

(** Modelled from the spec: the missing selection of the reconciler.  The
    sources are tried in priority order; a source is passed over when it
    has no candidate, and a checksum-invalid candidate yields to the
    choice among the lower sources when that choice is at least as
    confident. *)
Fixpoint selectFrom (cands : Source.t → option Candidate) (order : list Source.t)
    : option (Source.t * Candidate) :=
  match order with
  | [] => None
  | s :: lower =>
      match cands s with
      | None => selectFrom cands lower
      | Some c =>
          if checksumInvalid c then
            match selectFrom cands lower with
            | Some (s', c') =>
                if confidenceOf c <=? confidenceOf c' then Some (s', c') else Some (s, c)
            | None => Some (s, c)
            end
          else Some (s, c)
      end
  end.

Definition upper (c : ascii) : ascii :=
  let n := nat_of_ascii c in
  if (97 <=? n)%nat && (n <=? 122)%nat then ascii_of_nat (n - 32) else c.

Definition isSpace (c : ascii) : bool :=
  let n := nat_of_ascii c in
  (n =? 32)%nat || (n =? 9)%nat || (n =? 10)%nat || (n =? 13)%nat.

(** Modelled from the spec: the missing normalisation of values, case- and
    whitespace-insensitive. *)
Definition normalizeValue (s : string) : list ascii :=
  upper <$> filter (λ c, isSpace c = false) (list_ascii_of_string s).

Definition agrees (a b : ExtractedField.t) : bool :=
  match ExtractedField.value a, ExtractedField.value b with
  | Some x, Some y => bool_decide (normalizeValue x = normalizeValue y)
  | _, _ => false
  end.

Definition sourceName (s : Source.t) : string :=
  match s with
  | Source.ocr => "ocr" | Source.mrz => "mrz" | Source.barcode => "barcode"
  | Source.inferred => "inferred" | Source.manual => "manual"
  | Source.unknown => "unknown"
  end.

Definition conflictIssue (other : Source.t * Candidate) : string :=
  "Conflicting value " +:+ default "" (ExtractedField.value (field other.2))
    +:+ " from " +:+ sourceName other.1.

(** The candidates of the other sources. *)
Definition others (cands : Source.t → option Candidate) (s : Source.t)
    : list (Source.t * Candidate) :=
  omap (λ s', if decide (s' = s) then None else (λ c, (s', c)) <$> cands s') priority.

(** Modelled from the spec: the missing reconciler for one field.  The
    value and the source are those of the selected candidate; agreement
    with another source boosts the confidence to
    [min 100 (max + 10)]; each disagreeing source leaves an issue; with
    no candidate the field is [null], [unknown], 0. *)
Definition reconcile (label : string) (cands : Source.t → option Candidate)
    : ExtractedField.t :=
  match selectFrom cands priority with
  | None =>
      {| ExtractedField.label := label;
         ExtractedField.value := None;
         ExtractedField.confidence := 0;
         ExtractedField.source := Source.unknown;
         ExtractedField.issues := Some [] |}
  | Some (s, c) =>
      let rest := others cands s in
      let agreeing := filter (λ o, agrees (field c) (field o.2) = true) rest in
      let conflicting := filter (λ o, agrees (field c) (field o.2) = false) rest in
      {| ExtractedField.label := label;
         ExtractedField.value := ExtractedField.value (field c);
         ExtractedField.confidence :=
           match agreeing with
           | [] => confidenceOf c
           | _ :: _ =>
               Z.min 100
                 (foldr Z.max (confidenceOf c) ((λ o, confidenceOf o.2) <$> agreeing) + 10)
           end;
         ExtractedField.source := s;
         ExtractedField.issues :=
           Some (ExtractedField.issueList (field c) ++ (conflictIssue <$> conflicting)) |}
  end.

(** The position of a source in the priority table. *)
Definition rank (s : Source.t) : nat :=
  match s with
  | Source.mrz => 0 | Source.barcode => 1 | Source.ocr => 2 | Source.inferred => 3
  | Source.manual => 4 | Source.unknown => 5
  end.

End Reconciler.

(** ** Validation rules (design 4.5) *)

Module Rules.

(** Modelled from the spec: what a rule of the missing rule engine
    reports: a status, the values it compared, and the ids of
    the reconciled fields it read. *)
Record Outcome : Type := mkOutcome {
  outcomeStatus : CheckStatus.t;
  outcomeDetails : string;
  consumed : list string;
}.

(** Modelled from the spec: a row of the rule table, kept as data. *)
Record Rule : Type := mkRule {
  ruleId : string;
  ruleLabel : string;
  ruleEval :
    gmap string ExtractedField.t → option MrzResult.t →
    ApplicantProfile.t → EligibilityPolicy.t → Outcome;
}.

Definition fieldConfidence (fields : gmap string ExtractedField.t) (k : string) : Z :=
  match fields !! k with
  | Some f => ExtractedField.confidence f
  | None => 0
  end.

(** Modelled from the spec: the confidence of a check in the missing rule
    engine, the minimum confidence of the fields it read (100 when it read
    none). *)
Definition minConfidence (fields : gmap string ExtractedField.t) (ks : list string) : Z :=
  foldr Z.min 100 (fieldConfidence fields <$> ks).

Definition runRule (fields : gmap string ExtractedField.t) (mrz : option MrzResult.t)
    (applicant : ApplicantProfile.t) (policy : EligibilityPolicy.t) (r : Rule)
    : ValidationCheck.t :=
  let o := ruleEval r fields mrz applicant policy in
  {| ValidationCheck.id := ruleId r;
     ValidationCheck.label := ruleLabel r;
     ValidationCheck.status := outcomeStatus o;
     ValidationCheck.details := outcomeDetails o;
     ValidationCheck.confidence := minConfidence fields (consumed o) |}.

(** Modelled from the spec: the condition under which no check can run:
    nothing was extracted, every reconciled field is [null]. *)
Definition nothingExtracted (fields : gmap string ExtractedField.t) : bool :=
  forallb (λ kf, bool_decide (ExtractedField.value kf.2 = None)) (map_to_list fields).

(** Modelled from the spec: the missing rule engine.  The rules run in
    table order; no check can run when no field was extracted at all
    (design 4.6). *)
Definition validate (rules : list Rule) (fields : gmap string ExtractedField.t)
    (mrz : option MrzResult.t) (applicant : ApplicantProfile.t)
    (policy : EligibilityPolicy.t) : list ValidationCheck.t :=
  if nothingExtracted fields then []
  else runRule fields mrz applicant policy <$> rules.

(** *** Rows of the table that the design fixes completely

    Modelled from the spec: four rows of the missing rule table, used in
    the sample configuration. *)

Definition lower (c : ascii) : ascii :=
  let n := nat_of_ascii c in
  if (65 <=? n)%nat && (n <=? 90)%nat then ascii_of_nat (n + 32) else c.

Definition lowercase (s : string) : string :=
  string_of_list_ascii (lower <$> list_ascii_of_string s).

Definition mrz_checksum : Rule :=
  mkRule "mrz_checksum" "MRZ checksum"
    (λ _ mrz _ _,
       match mrz with
       | Some block =>
           if MrzResult.checksumValid block
           then mkOutcome CheckStatus.pass "All MRZ check digits match" []
           else mkOutcome CheckStatus.fail "An MRZ check digit does not match" []
       | None => mkOutcome CheckStatus.warning "No MRZ was found" []
       end).

Definition visa_type_supported : Rule :=
  mkRule "visa_type_supported" "Visa type supported"
    (λ _ _ applicant policy,
       let wanted := lowercase (ApplicantProfile.visaType applicant) in
       if bool_decide
            (wanted ∈ lowercase <$> EligibilityPolicy.supportedVisaTypes policy)
       then mkOutcome CheckStatus.pass ("Visa type " +:+ wanted +:+ " is supported") []
       else mkOutcome CheckStatus.fail
              ("Visa type " +:+ wanted +:+ " is not supported") []).

Definition nationality_blacklist : Rule :=
  mkRule "nationality_blacklist" "Nationality not blacklisted"
    (λ _ _ applicant policy,
       let code := ApplicantProfile.nationality applicant in
       if bool_decide (code ∈ EligibilityPolicy.blacklistedNationalities policy)
       then mkOutcome CheckStatus.fail ("Nationality " +:+ code +:+ " is blacklisted") []
       else mkOutcome CheckStatus.pass
              ("Nationality " +:+ code +:+ " is not blacklisted") []).

Definition passport_number_match : Rule :=
  mkRule "passport_number_match" "Passport number match"
    (λ fields _ applicant policy,
       match fields !! "documentNumber" ≫= ExtractedField.value with
       | None =>
           mkOutcome CheckStatus.unknown "No document number was extracted"
             ["documentNumber"]
       | Some number =>
           let given := ApplicantProfile.passportNumber applicant in
           if bool_decide (Reconciler.normalizeValue given
                           = Reconciler.normalizeValue number)
           then mkOutcome CheckStatus.pass
                  ("Passport number " +:+ given +:+ " matches " +:+ number)
                  ["documentNumber"]
           else mkOutcome
                  (if EligibilityPolicy.requirePassportMatch policy
                   then CheckStatus.fail else CheckStatus.warning)
                  ("Passport number " +:+ given +:+ " differs from " +:+ number)
                  ["documentNumber"]
       end).

End Rules.

(** ** The eligibility decision (design 4.6) and the actions (4.7) *)

Module Decision.

(** Modelled from the spec: the state of the missing decision maker, what
    the pass over the checks accumulates. *)
Record Tally : Type := mkTally {
  failing : list string;
  flagged : list string;
  lowest : Z;
  total : Z;
  count : Z;
}.

Definition start : Tally := mkTally [] [] 100 0 0.

Definition confidences (checks : list ValidationCheck.t) : list Z :=
  ValidationCheck.confidence <$> checks.

Definition sumZ (xs : list Z) : Z := foldr Z.add 0 xs.

Definition isFail (c : ValidationCheck.t) : bool :=
  bool_decide (ValidationCheck.status c = CheckStatus.fail).

Definition isFlagged (c : ValidationCheck.t) : bool :=
  bool_decide (ValidationCheck.status c = CheckStatus.warning)
  || bool_decide (ValidationCheck.status c = CheckStatus.unknown).

Definition step (t : Tally) (c : ValidationCheck.t) : Tally :=
  {| failing := if isFail c then failing t ++ [ValidationCheck.label c] else failing t;
     flagged := if isFlagged c then flagged t ++ [ValidationCheck.label c] else flagged t;
     lowest := Z.min (lowest t) (ValidationCheck.confidence c);
     total := total t + ValidationCheck.confidence c;
     count := count t + 1 |}.

(** Modelled from the spec: the missing rounding of the average, to the
    nearest integer (a half rounds up, as [Math.round] does). *)
Definition roundedAverage (sum n : Z) : Z := (2 * sum + n) / (2 * n).

Definition lowConfidenceNote : string := "Low confidence in one or more checks".

Definition isNil {A : Type} (l : list A) : bool :=
  match l with [] => true | _ :: _ => false end.

(** Modelled from the spec: the missing decision maker, one pass over the
    completed checks and then the four cases of design 4.6. *)
Definition decide (checks : list ValidationCheck.t) : EligibilityDecision.t :=
  let t := foldl step start checks in
  if count t =? 0 then
    EligibilityDecision.mk DecisionStatus.unknown [] 0
  else
    let confidence := roundedAverage (total t) (count t) in
    if negb (isNil (failing t)) then
      EligibilityDecision.mk DecisionStatus.rejected (failing t) confidence
    else if negb (isNil (flagged t)) || (lowest t <? 60) then
      EligibilityDecision.mk DecisionStatus.manual_review
        (flagged t ++ if lowest t <? 60 then [lowConfidenceNote] else [])
        confidence
    else
      EligibilityDecision.mk DecisionStatus.approved [] confidence.

Definition needsAction (c : ValidationCheck.t) : bool :=
  bool_decide (ValidationCheck.status c = CheckStatus.fail)
  || bool_decide (ValidationCheck.status c = CheckStatus.warning).

(** Modelled from the spec: the missing list of recommended actions, one
    per failing or warning check, in check order, without duplicates. *)
Definition recommendedActions (remediation : string → string)
    (checks : list ValidationCheck.t) : list string :=
  foldl (λ acc c,
           let action := remediation (ValidationCheck.id c) in
           if needsAction c && negb (bool_decide (action ∈ acc))
           then acc ++ [action] else acc)
        [] checks.

End Decision.

(** ** The engine (design 4.1, 5 and 6) *)

Module Engine.

(** Modelled from the spec: the input of the missing engine, what the OCR
    and barcode collaborators hand over for one uploaded
    image.  A document whose OCR call timed out has an empty text. *)
Record RawDocument : Type := mkDocument {
  ocrText : list string;
  ocrTokenConfidences : option (gmap string Z);
  decodedBarcodeText : option string;
}.

(** Modelled from the spec: the parts of the missing engine that the
    design names but does not spell out. *)
Class EngineData : Type := {
  (** the confidence under a failed check digit (at most 40) *)
  invalidConfidence : Z;
  (** the format table, country-specific layouts included *)
  layouts : list Mrz.Layout;
  (** the field identifiers with their labels *)
  targetFields : list (string * string);
  (** the label-anchored pattern matcher *)
  freeTextMatch : string → RawDocument → option FreeText.Match;
  (** the fields of a decoded barcode text: id, value, confidence *)
  barcodeFields : string → list (string * string * Z);
  (** the ordered rule table *)
  rules : list Rules.Rule;
  (** the remediation text per check id *)
  remediation : string → string;
  (** the two entries of the report the design does not describe *)
  summaryOf : EligibilityDecision.t → string;
  overallOf : gmap string ExtractedField.t → EligibilityDecision.t → Z;
}.

(** Modelled from the spec: the clock behind [timingMs], as the successive
    readings of [Date.now()]. *)
Definition Clock : Type := list Z.

Definition readClock (c : Clock) : Z * Clock :=
  match c with
  | t :: rest => (t, rest)
  | [] => (0, [])
  end.

(** *** Locating the MRZ (design 4.1) *)

Fixpoint windows (n : nat) (lines : list string) : list (list string) :=
  match lines with
  | [] => []
  | _ :: rest =>
      (if decide (n ≤ length lines)%nat then [take n lines] else []) ++ windows n rest
  end.

Definition mrzLine (len : nat) (line : string) : bool :=
  let cs := list_ascii_of_string line in
  bool_decide (length cs = len) && forallb Mrz.inAlphabet cs.

Definition qualifies (L : Mrz.Layout) (run : list string) : bool :=
  bool_decide (length run = Mrz.lineCount L)
  && forallb (mrzLine (Mrz.lineLength L)) run
  && Mrz.discriminator L run.

(** Modelled from the spec: the missing normalisation of OCR confusions.
    A letter that stands for a digit ([O] for 0, [I] for 1, [S] for 5) is
    replaced at the check digit positions of the layout; name zones are
    left as read. *)
Definition confusion (c : ascii) : ascii :=
  if Ascii.eqb c "O" then "0"%char
  else if Ascii.eqb c "I" then "1"%char
  else if Ascii.eqb c "S" then "5"%char
  else c.

Definition normalizeSpan (sp : Mrz.Span) (run : list string) : list string :=
  imap (λ i line,
          if decide (i = Mrz.spanLine sp) then
            string_of_list_ascii
              (imap (λ j c,
                       if decide (Mrz.spanStart sp ≤ j < Mrz.spanStart sp + Mrz.spanLength sp)%nat
                       then confusion c else c)
                    (list_ascii_of_string line))
          else line) run.

Definition normalizeRun (L : Mrz.Layout) (run : list string) : list string :=
  foldl (λ r seg, normalizeSpan (Mrz.segDigit seg) r) run (Mrz.segments L).

Section WithData.
Context `{EngineData}.

(** Modelled from the spec: the runs of the missing locator; every
    qualifying run, decoded. *)
Definition decodedRuns (lines : list string) : list MrzResult.t :=
  L ← layouts;
  run ← windows (Mrz.lineCount L) lines;
  if qualifies L run then [Mrz.decode invalidConfidence L (normalizeRun L run)] else [].

(** Modelled from the spec: the order of the formats in a tie,
    [TD3 > TD2/MRVB > TD1/MRVA]; the design does not place the
    country-specific layouts. *)
Definition formatRank (f : MrzFormat.t) : nat :=
  match f with
  | MrzFormat.TD3 => 3
  | MrzFormat.TD2 | MrzFormat.MRVB => 2
  | MrzFormat.TD1 | MrzFormat.MRVA => 1
  | _ => 0
  end.

(** Modelled from the spec: the preference of the missing locator.  A run
    whose check digits validate is preferred; among equals the format of
    higher rank wins, then the first found. *)
Definition better (a b : MrzResult.t) : bool :=
  match MrzResult.checksumValid a, MrzResult.checksumValid b with
  | true, false => true
  | false, true => false
  | _, _ => (formatRank (MrzResult.format b) <? formatRank (MrzResult.format a))%nat
  end.

Definition best (blocks : list MrzResult.t) : option MrzResult.t :=
  foldl (λ acc b,
           match acc with
           | None => Some b
           | Some a => if better b a then Some b else Some a
           end) None blocks.

(** Modelled from the spec: the missing locator and classifier.  No
    qualifying run gives no block. *)
Definition locate (lines : list string) : option MrzResult.t :=
  best (decodedRuns lines).

(** *** Candidates *)

Definition mrzCandidate (block : option MrzResult.t) (k : string)
    : option Reconciler.Candidate :=
  f ← block ≫= (λ b, MrzResult.fields b !! k);
  Some (Reconciler.mkCandidate f
          (negb (ExtractedField.confidence f =? 100))).

Definition barcodeField (label : string) (entry : string * string * Z)
    : ExtractedField.t :=
  {| ExtractedField.label := label;
     ExtractedField.value := Some entry.1.2;
     ExtractedField.confidence := FreeText.clamp entry.2;
     ExtractedField.source := Source.barcode;
     ExtractedField.issues := Some [] |}.

Definition barcodeCandidate (docs : list RawDocument) (label k : string)
    : option Reconciler.Candidate :=
  entry ← head (filter (λ e, e.1.1 = k)
                  (docs ≫= (λ d, default [] (barcodeFields <$> decodedBarcodeText d))));
  Some (Reconciler.mkCandidate (barcodeField label entry) false).

Definition ocrCandidate (docs : list RawDocument) (label k : string)
    : option Reconciler.Candidate :=
  m ← head (omap (freeTextMatch k) docs);
  Some (Reconciler.mkCandidate (FreeText.toField label m) false).

(** Modelled from the spec: the candidates of one field, by source
    (missing with the reconciler).  Nothing in the design
    produces an [inferred] or a [manual] candidate. *)
Definition candidates (block : option MrzResult.t) (docs : list RawDocument)
    (label k : string) (s : Source.t) : option Reconciler.Candidate :=
  match s with
  | Source.mrz => mrzCandidate block k
  | Source.barcode => barcodeCandidate docs label k
  | Source.ocr => ocrCandidate docs label k
  | Source.inferred | Source.manual | Source.unknown => None
  end.

Definition reconcileAll (block : option MrzResult.t) (docs : list RawDocument)
    : gmap string ExtractedField.t :=
  foldl (λ m kl, <[kl.1 := Reconciler.reconcile kl.2 (candidates block docs kl.2 kl.1)]> m)
        ∅ targetFields.

Definition newline : string := String "010"%char EmptyString.

Definition joinLines (lines : list string) : string :=
  foldr (λ l acc, l +:+ newline +:+ acc) "" lines.

Definition barcodeReport (docs : list RawDocument) : option BarcodeData.t :=
  raw ← head (omap decodedBarcodeText docs);
  Some (BarcodeData.mk (Some raw)
          (Some (foldl (λ m e, <[e.1.1 := barcodeField e.1.1 e]> m) ∅
                   (barcodeFields raw)))).

(** Modelled from the spec: the missing report assembler; everything of
    the report but its timing. *)
Definition assemble (docs : list RawDocument) (applicant : ApplicantProfile.t)
    (policy : EligibilityPolicy.t) (elapsed : Z) : VerificationResponse.t :=
  let block := best (omap (λ d, locate (ocrText d)) docs) in
  let fields := reconcileAll block docs in
  let checks := Rules.validate rules fields block applicant policy in
  let decision := Decision.decide checks in
  {| VerificationResponse.summary := summaryOf decision;
     VerificationResponse.overallConfidence := overallOf fields decision;
     VerificationResponse.extractedFields := fields;
     VerificationResponse.mrz := block;
     VerificationResponse.barcodeData := barcodeReport docs;
     VerificationResponse.validationChecks := checks;
     VerificationResponse.eligibility := decision;
     VerificationResponse.recommendedActions :=
       Decision.recommendedActions remediation checks;
     VerificationResponse.rawOcrText := joinLines (docs ≫= ocrText);
     VerificationResponse.timingMs := elapsed |}.

(** Modelled from the spec: the one operation of the missing engine,
    [evaluate(documents, applicant, policy)].  The clock is read before
    and after; nothing else of the environment is used. *)
Definition evaluate (docs : list RawDocument) (applicant : ApplicantProfile.t)
    (policy : EligibilityPolicy.t) (clock : Clock)
    : VerificationResponse.t * Clock :=
  let '(started, clock1) := readClock clock in
  let '(finished, clock2) := readClock clock1 in
  (assemble docs applicant policy (finished - started), clock2).

End WithData.

Definition withoutTiming (r : VerificationResponse.t) : VerificationResponse.t :=
  {| VerificationResponse.summary := VerificationResponse.summary r;
     VerificationResponse.overallConfidence := VerificationResponse.overallConfidence r;
     VerificationResponse.extractedFields := VerificationResponse.extractedFields r;
     VerificationResponse.mrz := VerificationResponse.mrz r;
     VerificationResponse.barcodeData := VerificationResponse.barcodeData r;
     VerificationResponse.validationChecks := VerificationResponse.validationChecks r;
     VerificationResponse.eligibility := VerificationResponse.eligibility r;
     VerificationResponse.recommendedActions := VerificationResponse.recommendedActions r;
     VerificationResponse.rawOcrText := VerificationResponse.rawOcrText r;
     VerificationResponse.timingMs := 0 |}.

(** *** A sample configuration *)

Definition passport_fields : list (string * string) :=
  [ ("documentNumber", "Document number"); ("name", "Name");
    ("dateOfBirth", "Date of birth"); ("expiryDate", "Expiry date");
    ("nationality", "Nationality"); ("sex", "Sex") ].

(** A matcher for lines of the form [<field id>: <value>]. *)
Definition labelled (k : string) (d : RawDocument) : option FreeText.Match :=
  let tag := list_ascii_of_string (k +:+ ": ") in
  head (omap (λ line,
                match JsonText.strip_prefix tag (list_ascii_of_string line) with
                | Some rest =>
                    Some (FreeText.mkMatch (string_of_list_ascii rest) 80
                            (ocrTokenConfidences d ≫= (λ m, m !! k)))
                | None => None
                end) (ocrText d)).

Definition sample_remediation (id : string) : string :=
  if decide (id = "mrz_checksum")
  then "Re-scan document with a sharper, glare-free MRZ image"
  else "Review check " +:+ id.

Definition sample_data : EngineData :=
  {| invalidConfidence := 40;
     layouts := [Mrz.TD3];
     targetFields := passport_fields;
     freeTextMatch := labelled;
     barcodeFields := λ _, [];
     rules := [Rules.mrz_checksum; Rules.visa_type_supported;
               Rules.nationality_blacklist; Rules.passport_number_match];
     remediation := sample_remediation;
     summaryOf := λ d, "Decision: " +:+
       match EligibilityDecision.status d with
       | DecisionStatus.approved => "approved"
       | DecisionStatus.manual_review => "manual review"
       | DecisionStatus.rejected => "rejected"
       | DecisionStatus.unknown => "unknown"
       end;
     overallOf := λ _ d, EligibilityDecision.confidence d |}.

Definition specimen_scan : RawDocument :=
  mkDocument ("UTOPIA PASSPORT" :: "documentNumber: L898902C3" :: Mrz.specimen)
    None None.

Definition misread_scan : RawDocument :=
  mkDocument ("documentNumber: l898902c3" :: Mrz.specimen_misread)
    (Some {["documentNumber" := 30]}) None.

Definition anna : ApplicantProfile.t :=
  ApplicantProfile.mk "Anna Maria Eriksson" "1974-08-12" "L898902C3" "UTO"
    "tourist" "2025-06-01".

Definition default_policy : EligibilityPolicy.t :=
  EligibilityPolicy.mk 180 18 ["tourist"; "business"; "student"] ["IRN"; "PRK"]
    true true.

End Engine.

Definition sample_checks : list ValidationCheck.t :=
  [ ValidationCheck.mk "mrz_checksum" "MRZ checksum" CheckStatus.fail
      "An MRZ check digit does not match" 100;
    ValidationCheck.mk "visa_type_supported" "Visa type supported" CheckStatus.pass
      "Visa type tourist is supported" 100;
    ValidationCheck.mk "passport_number_match" "Passport number match"
      CheckStatus.warning "Passport number K1234567 differs from L898902C3" 50 ].

(** An MRZ candidate under valid check digits and an OCR candidate that
    misreads one character. *)
Definition conflicting_candidates (s : Source.t) : option Reconciler.Candidate :=
  match s with
  | Source.mrz =>
      Some (Reconciler.mkCandidate
              (ExtractedField.mk "Document number" (Some "L898902C3") 100 Source.mrz
                 (Some [])) false)
  | Source.ocr =>
      Some (Reconciler.mkCandidate
              (ExtractedField.mk "Document number" (Some "L8989O2C3") 95 Source.ocr
                 (Some [])) false)
  | _ => None
  end.

(** C4 as the design document words it: every extracted field whose source
    is [mrz] has confidence 100 or at most 40. *)
Definition mrz_confidence_is_binary : Prop :=
  ∀ (D : Engine.EngineData) docs applicant policy clock k f,
    0 ≤ Engine.invalidConfidence ≤ 40 →
    VerificationResponse.extractedFields
      (Engine.evaluate docs applicant policy clock).1 !! k = Some f →
    ExtractedField.source f = Source.mrz →
    ExtractedField.confidence f = 100 ∨ ExtractedField.confidence f ≤ 40.

(** * Proofs *)

(** ** The handler *)

Lemma effectivePolicy_cases `{Runtime} raw w :
  effectivePolicy raw w = (Normal (VRef FALLBACK_POLICY), w) ∨
  (∃ text parsed,
    truthyString raw = Some text ∧ JSON_parse text = Some parsed ∧
    let l := fresh (dom (heap w)) in
    effectivePolicy raw w =
      (Normal (VRef l),
       {| heap := <[l := SObject (spread2 (heap w) (VRef FALLBACK_POLICY) (VJson parsed))]> (heap w);
          trace := trace w |})).
Proof.
  unfold effectivePolicy.
  destruct (truthyString raw) as [text|] eqn:Ht; [|by left; destruct w].
  destruct (JSON_parse text) as [parsed|] eqn:Hp; [|by left; destruct w].
  right. exists text, parsed. split_and!; try done.
Qed.

Lemma POST_handled `{Runtime} req w :
  ∃ resp w', POST req w = (Normal resp, w') ∧ handled req w resp w'.
Proof.
  unfold POST, try_catch, mbind, M_bind, await, mret, M_ret, console_error.
  destruct (formData req) as [fd|e] eqn:Hfd; simpl.
  2:{ eexists _, _. split; [done|]. by apply handled_body_rejected. }
  destruct (decide (documentFiles fd = [])) as [Hnil|Hne].
  { eexists _, _. split; [done|]. by eapply handled_no_files. }
  destruct (truthyString (get "applicant" fd)) as [text|] eqn:Ht.
  2:{ eexists _, _. split; [done|]. by eapply handled_applicant_missing. }
  destruct (JSON_parse text) as [a|] eqn:Ha.
  2:{ eexists _, _. split; [done|]. by eapply handled_applicant_invalid. }
  assert (∃ p w1, effectivePolicy (get "policy" fd) w = (Normal p, w1)) as (p & w1 & Hp).
  { destruct (effectivePolicy_cases (get "policy" fd) w) as [->|(?&?&?&?&->)]; eauto. }
  rewrite Hp. unfold call_verifyDocuments.
  destruct (verifyDocuments (documentFiles fd) a p (heap w1)) as [[r|e] σ2] eqn:Hv; simpl.
  - eexists _, _. split; [done|]. by eapply handled_verified.
  - eexists _, _. split; [done|]. by eapply handled_engine_threw.
Qed.

(** *** The handler on concrete requests *)

Example json_parse_null : JsonText.json_parse "null" = Some JNull.
Proof. reflexivity. Qed.

Example json_parse_default_applicant :
  JsonText.json_parse default_applicant_text = Some default_applicant_json.
Proof. by vm_compute. Qed.

Example json_parse_number :
  JsonText.json_parse " [1, -2.50e3, true] "
    = Some (JArr [JNum 1 0; JNum (-250) 1; JBool true]).
Proof. by vm_compute. Qed.

Example json_parse_rejects_syntax_errors :
  JsonText.json_parse "{,}" = None ∧ JsonText.json_parse "01" = None
  ∧ JsonText.json_parse "nul" = None ∧ JsonText.json_parse "" = None
  ∧ JsonText.json_parse "1 2" = None.
Proof. by vm_compute. Qed.

Example default_applicant_is_a_profile :
  asApplicantProfile default_applicant_json
    = Some (ApplicantProfile.mk "Alex Johnson" "1992-04-14" "K1234567" "USA" "tourist"
              "2025-06-01").
Proof. reflexivity. Qed.

(** A well-formed request reaches the engine with the parsed applicant and
    the constant itself as policy. *)
Example POST_default_request :
  (@POST scratch_runtime default_request module_world).1
    = Normal {| status := 200; body := ResultBody blank_response |}
  ∧ trace (@POST scratch_runtime default_request module_world).2
    = [VerifyCall [passport_png] default_applicant_json (VRef FALLBACK_POLICY)].
Proof. by vm_compute. Qed.

(** An entry under ["documents"] that is a string, or an empty file, is not
    a document. *)
Example POST_empty_upload_request :
  @POST scratch_runtime empty_upload_request module_world
    = (Normal {| status := 400; body := ErrorBody "No document files were uploaded" |},
       module_world).
Proof. by vm_compute. Qed.

(** A policy payload of the wrong type is merged over the constant and
    passed on: the engine receives a fresh object whose
    [supportedVisaTypes] is the number 5. *)
Example ill_typed_policy_reaches_engine :
  let l := fresh (dom module_store) in
  let σ := heap (@POST failing_runtime ill_typed_policy_request module_world).2 in
  verifyCalls (trace (@POST failing_runtime ill_typed_policy_request module_world).2)
    = [([passport_png], default_applicant_json, VRef l)]
  ∧ (objectProps σ (VRef l) ≫= λ props, props !! "supportedVisaTypes")
    = Some (VJson (jint 5))
  ∧ (objectProps σ (VRef l) ≫= λ props, props !! "minApplicantAge")
    = Some (VJson (jint 18))
  ∧ asEligibilityPolicy σ (VRef l) = None.
Proof. by vm_compute. Qed.

(** *** Object spread *)

Lemma define_all_lookup (kvs : list (string * val)) (m : gmap string val) k :
  define_all kvs m !! k =
    match assoc_last k kvs with
    | Some v => Some v
    | None => m !! k
    end.
Proof.
  revert m. induction kvs as [|[k' v] kvs IH]; intros m; simpl; [done|].
  unfold define_all in *. simpl. rewrite IH.
  destruct (assoc_last k kvs) as [v'|]; [done|].
  destruct (String.eqb_spec k k') as [->|Hne].
  - by rewrite lookup_insert_eq.
  - by rewrite lookup_insert_ne.
Qed.

Lemma assoc_last_None {A} k (kvs : list (string * A)) :
  assoc_last k kvs = None ↔ k ∉ kvs.*1.
Proof.
  induction kvs as [|[k' v] kvs IH]; simpl.
  - split; [intros _; apply not_elem_of_nil|done].
  - rewrite not_elem_of_cons.
    destruct (assoc_last k kvs) as [v'|] eqn:Hl.
    + split; [done|]. intros [_ Hn]. by apply IH in Hn.
    + destruct (String.eqb_spec k k') as [->|Hne].
      * split; [done|]. by intros [? _].
      * split; [|done]. intros _. split; [done|]. by apply IH.
Qed.

Lemma assoc_last_NoDup {A} k (v : A) (kvs : list (string * A)) :
  NoDup kvs.*1 → (k, v) ∈ kvs → assoc_last k kvs = Some v.
Proof.
  induction kvs as [|[k' v'] kvs IH]; simpl; intros Hnd Hin.
  - by apply elem_of_nil in Hin.
  - apply NoDup_cons in Hnd as [Hk' Hnd].
    apply elem_of_cons in Hin as [[= <- <-]|Hin].
    + assert (assoc_last k kvs = None) as -> by by apply assoc_last_None.
      by rewrite String.eqb_refl.
    + by rewrite (IH Hnd Hin).
Qed.

Lemma define_all_map_to_list (props : gmap string val) :
  define_all (map_to_list props) ∅ = props.
Proof.
  apply map_eq. intros k. rewrite define_all_lookup, lookup_empty.
  destruct (props !! k) as [v|] eqn:Hk.
  - erewrite assoc_last_NoDup; [done|apply NoDup_fst_map_to_list|].
    by apply elem_of_map_to_list.
  - assert (assoc_last k (map_to_list props) = None) as ->; [|done].
    apply assoc_last_None. intros ((k'&v)&->&Hin)%list_elem_of_fmap.
    apply elem_of_map_to_list in Hin. simpl in *. congruence.
Qed.

(** A property of the spread policy is the payload's when the payload has
    that key, and the constant's otherwise. *)
Lemma spread2_fallback_lookup σ fb parsed k :
  σ !! FALLBACK_POLICY = Some (SObject fb) →
  spread2 σ (VRef FALLBACK_POLICY) (VJson parsed) !! k =
    match assoc_last k (ownProperties_json parsed) with
    | Some v => Some v
    | None => fb !! k
    end.
Proof.
  intros Hfb. unfold spread2. rewrite define_all_lookup. simpl. rewrite Hfb.
  by rewrite define_all_map_to_list.
Qed.

(** *** Frame of the handler *)

Lemma alloc_fresh o σ : (alloc o σ).1 ∉ dom σ.
Proof. apply is_fresh. Qed.

Lemma alloc_preserves o σ l : l ∈ dom σ → (alloc o σ).2 !! l = σ !! l.
Proof.
  intros Hl. unfold alloc. simpl. apply lookup_insert_ne.
  intros <-. by apply (is_fresh (dom σ)).
Qed.

Lemma effectivePolicy_frame `{Runtime} raw w :
  ∃ p w',
    effectivePolicy raw w = (Normal p, w') ∧
    trace w' = trace w ∧
    (∀ l, l ∈ dom (heap w) → heap w' !! l = heap w !! l) ∧
    ((p = VRef FALLBACK_POLICY ∧ w' = w) ∨
     (∃ l, p = VRef l ∧ (l ∉ dom (heap w)) ∧ is_Some (heap w' !! l))).
Proof.
  destruct (effectivePolicy_cases raw w) as [->|(text&parsed&_&_&->)].
  - eexists _, _. split_and!; eauto.
  - eexists _, _. split_and!; [done|done| |].
    + intros l Hl. simpl. apply lookup_insert_ne. intros <-.
      by apply (is_fresh (dom (heap w))).
    + right. eexists. split_and!; [done|apply is_fresh|].
      simpl. rewrite lookup_insert_eq. eauto.
Qed.

Lemma dom_lookup_mono (σ σ' : store) :
  (∀ l, l ∈ dom σ → σ' !! l = σ !! l) → dom σ ⊆ dom σ'.
Proof.
  intros Hp l Hl. apply elem_of_dom. rewrite (Hp l Hl). by apply elem_of_dom.
Qed.

Lemma handled_frame `{Runtime} req w resp w' :
  engine_readonly → handled req w resp w' →
  ∀ l, l ∈ dom (heap w) → heap w' !! l = heap w !! l.
Proof.
  intros Hro Hh l Hl.
  assert (∀ raw p w1, effectivePolicy raw w = (Normal p, w1) →
            l ∈ dom (heap w1) ∧ heap w1 !! l = heap w !! l) as Hpol.
  { intros raw p w1 Hp.
    destruct (effectivePolicy_frame raw w) as (p'&w1'&Hp'&_&Hfr&_).
    rewrite Hp in Hp'. injection Hp' as <- <-.
    split; [|by apply Hfr]. by apply (dom_lookup_mono _ _ Hfr). }
  destruct Hh as [e ?|fd ? ?|fd ? ? ?|fd text ? ? ? ?
                 |fd text a p w1 r σ2 ? ? ? ? Hp Hv|fd text a p w1 e σ2 ? ? ? ? Hp Hv];
    simpl; try done.
  - destruct (Hpol _ _ _ Hp) as [Hd1 <-]. by eapply Hro.
  - destruct (Hpol _ _ _ Hp) as [Hd1 <-]. by eapply Hro.
Qed.

Lemma POST_frame `{Runtime} req w :
  engine_readonly →
  ∀ l, l ∈ dom (heap w) → heap (POST req w).2 !! l = heap w !! l.
Proof.
  intros Hro l Hl. destruct (POST_handled req w) as (resp&w'&->&Hh).
  by eapply handled_frame.
Qed.

Lemma serve_frame `{Runtime} reqs w :
  engine_readonly →
  ∀ l, l ∈ dom (heap w) → heap (serve reqs w).2 !! l = heap w !! l.
Proof.
  intros Hro. revert w. induction reqs as [|req reqs IH]; intros w l Hl; [done|].
  simpl. pose proof (POST_frame req w Hro) as Hfr.
  destruct (POST req w) as [[resp|e] w1] eqn:HP; simpl in Hfr.
  - specialize (IH w1 l). destruct (serve reqs w1) as [rs w2]. simpl in *.
    rewrite IH; [by apply Hfr|]. by apply (dom_lookup_mono _ _ Hfr).
  - rewrite IH; [by apply Hfr|]. by apply (dom_lookup_mono _ _ Hfr).
Qed.

Lemma scratch_engine_readonly : @engine_readonly scratch_runtime.
Proof.
  intros files a p σ c σ' [= <- <-] l Hl. by apply alloc_preserves.
Qed.

(** *** The responses of the handler *)

(** C9.  When the form data has no entry under ["documents"], or every such
    entry is a file of size 0, [POST] answers 400 with the error
    ["No document files were uploaded"] and leaves the world as it was: no
    call to [verifyDocuments] is recorded.  The files that do reach the
    engine all have a positive size. *)
Theorem POST_rejects_empty_uploads `{Runtime} (req : NextRequest) (fd : FormData) (w : World) :
  formData req = Normal fd →
  Forall (λ item, ∃ f, item = EntryFile f ∧ File.size f = 0%N) (getAll "documents" fd) →
  POST req w =
    (Normal {| status := 400; body := ErrorBody "No document files were uploaded" |}, w)
  ∧ verifyCalls (trace (POST req w).2) = verifyCalls (trace w)
  ∧ (∀ fd' f, f ∈ documentFiles fd' → (0 < File.size f)%N).
Proof.
  intros Hfd Hall.
  assert (documentFiles fd = []) as Hnil.
  { unfold documentFiles. induction Hall as [|item items (f&->&Hsz) _ IH]; [done|].
    simpl. rewrite Hsz. simpl. exact IH. }
  assert (POST req w = (Normal (badRequest "No document files were uploaded"), w)) as HP.
  { unfold POST, try_catch, mbind, M_bind, await. rewrite Hfd. simpl.
    by rewrite decide_True. }
  split_and!; [exact HP|by rewrite HP|].
  intros fd' f (item&Hitem&Hf)%list_elem_of_omap.
  destruct item as [f'|s]; simpl in Hf; [|done].
  destruct (0 <? File.size f')%N eqn:Hpos; [|done].
  injection Hf as <-. by apply N.ltb_lt.
Qed.

Lemma POST_rejects_empty_uploads_witness :
  @POST scratch_runtime (request_of only_empty_files) module_world =
    (Normal {| status := 400; body := ErrorBody "No document files were uploaded" |},
     module_world).
Proof.
  refine (proj1 (@POST_rejects_empty_uploads scratch_runtime
                   (request_of only_empty_files) only_empty_files module_world _ _)).
  - reflexivity.
  - repeat constructor; eexists; split; reflexivity.
Defined.

(** C10.  [POST] always completes normally with a response.  When
    [req.formData()] throws, or [verifyDocuments] throws, the response has
    status 500 and the body [{ error }], where [error] is the message of the
    thrown [Error] (and ["Unexpected error"] for any other thrown value). *)
Theorem POST_never_throws `{Runtime} (req : NextRequest) (w : World) :
  ∃ resp w',
    POST req w = (Normal resp, w')
    ∧ (∀ e, formData req = Throw e →
         resp = {| status := 500; body := ErrorBody (errorMessage e) |})
    ∧ (∀ fd text applicant policy w1 e σ2,
         formData req = Normal fd →
         documentFiles fd ≠ [] →
         truthyString (get "applicant" fd) = Some text →
         JSON_parse text = Some applicant →
         effectivePolicy (get "policy" fd) w = (Normal policy, w1) →
         verifyDocuments (documentFiles fd) applicant policy (heap w1) = (Throw e, σ2) →
         resp = {| status := 500; body := ErrorBody (errorMessage e) |})
    ∧ (status resp = 200 ∨ status resp = 400 ∨ status resp = 500)
    ∧ (status resp ≠ 200 → ∃ msg, body resp = ErrorBody msg).
Proof.
  destruct (POST_handled req w) as (resp&w'&HP&Hh).
  exists resp, w'. split; [exact HP|].
  destruct Hh as [e He|fd Hfd Hnil|fd Hfd Hne Ht|fd text Hfd Hne Ht Ha
                 |fd text a p w1 r σ2 Hfd Hne Ht Ha Hp Hv
                 |fd text a p w1 e σ2 Hfd Hne Ht Ha Hp Hv];
    simpl; (split_and!; [ intros e' He' | intros fd' text' a' p' w1' e' σ2' Hfd' Hne' Ht' Ha' Hp' Hv' | auto | intros; try done; eauto ]);
    unfold serverError, badRequest, NextResponse_json; simpl;
    try congruence; try done; eauto.
Qed.

Lemma POST_never_throws_witness :
  ∃ resp w',
    @POST failing_runtime default_request module_world = (Normal resp, w')
    ∧ resp = {| status := 500; body := ErrorBody "OCR worker crashed" |}.
Proof.
  destruct (@POST_never_throws failing_runtime default_request module_world)
    as (resp & w' & HP & _ & Hthrow & _).
  exists resp, w'. split; [exact HP|].
  eapply (Hthrow _ default_applicant_text default_applicant_json
           (VRef FALLBACK_POLICY) module_world
           (ErrorInstance "OCR worker crashed") module_store);
    [reflexivity|vm_compute; discriminate|reflexivity|vm_compute; reflexivity
    |reflexivity|reflexivity].
Defined.

(** The policy the handler builds: the constant itself when the payload is
    absent, not a string, empty or not JSON; otherwise a fresh object in
    which a key of the payload has the payload's value and any other key has
    the constant's. *)
Lemma effectivePolicy_spec `{Runtime} raw w fb :
  heap w !! FALLBACK_POLICY = Some (SObject fb) →
  match truthyString raw ≫= JSON_parse with
  | None => effectivePolicy raw w = (Normal (VRef FALLBACK_POLICY), w)
  | Some parsed =>
      ∃ l props w1,
        effectivePolicy raw w = (Normal (VRef l), w1)
        ∧ (l ∉ dom (heap w))
        ∧ heap w1 !! l = Some (SObject props)
        ∧ ∀ k, props !! k =
               match assoc_last k (ownProperties_json parsed) with
               | Some v => Some v
               | None => fb !! k
               end
  end.
Proof.
  intros Hfb. unfold effectivePolicy.
  destruct (truthyString raw) as [text|]; simpl; [|by destruct w].
  destruct (JSON_parse text) as [parsed|]; simpl; [|by destruct w].
  eexists _, _, _. split_and!; [done|apply is_fresh|simpl; apply lookup_insert_eq|].
  intros k. by apply spread2_fallback_lookup.
Qed.


(** C7, as amended.  For a request whose form data was read:
    - if the applicant payload is absent, is a file, is empty or is not
      JSON, the response has status 400 and [verifyDocuments] is not called;
    - whenever [verifyDocuments] is called, it is called once, with the
      non-empty files, with exactly the value [JSON.parse] gave for the
      applicant payload (no check of its shape), and with the policy of
      [effectivePolicy];
    - that policy is [FALLBACK_POLICY] itself when the policy payload is
      absent, not a string, empty or not JSON, and otherwise a fresh object
      where each key of the payload overrides the constant and each key the
      payload leaves out keeps the constant's value. *)
Local Ltac exists_resp_nil :=
  match goal with
  | HP : POST _ ?w = (Normal ?resp, ?w), Hpol : _ |- _ =>
      exists resp, w, []; split; [exact HP|];
      split; [by rewrite app_nil_r|];
      split; [done|]; split; [|exact Hpol];
      by intros ??? ?%elem_of_nil
  end.



Lemma module_store_fallback (σ : store) l :
  module_store ⊆ σ → l ∈ fallback_locs →
  l ∈ dom σ ∧ σ !! l = module_store !! l.
Proof.
  intros Hsub Hl.
  assert (is_Some (module_store !! l)) as [o Ho].
  { unfold fallback_locs in Hl.
    repeat (apply elem_of_cons in Hl as [->|Hl]; [by vm_compute; eexists|]).
    by apply elem_of_nil in Hl. }
  pose proof (lookup_weaken _ _ _ _ Ho Hsub) as Hσ.
  split; [apply elem_of_dom; by eexists|congruence].
Qed.

Lemma asEligibilityPolicy_fallback (σ : store) :
  (∀ l, l ∈ fallback_locs → σ !! l = module_store !! l) →
  asEligibilityPolicy σ (VRef FALLBACK_POLICY) =
    Some (EligibilityPolicy.mk 180 18 ["tourist"; "business"; "student"] [] true true).
Proof.
  intros Hσ.
  assert (σ !! FALLBACK_POLICY = Some (SObject FALLBACK_POLICY_props)) as H1.
  { rewrite Hσ; [done|]. unfold fallback_locs. set_solver. }
  assert (σ !! FALLBACK_supportedVisaTypes =
            Some (SArray [VJson (JStr "tourist"); VJson (JStr "business");
                          VJson (JStr "student")])) as H2.
  { rewrite Hσ; [done|]. unfold fallback_locs. set_solver. }
  assert (σ !! FALLBACK_blacklistedNationalities = Some (SArray [])) as H3.
  { rewrite Hσ; [done|]. unfold fallback_locs. set_solver. }
  unfold asEligibilityPolicy, objectProps. rewrite H1. simpl.
  change (FALLBACK_POLICY_props !! "minPassportValidityDays")
    with (Some (VJson (jint 180))).
  change (FALLBACK_POLICY_props !! "minApplicantAge") with (Some (VJson (jint 18))).
  change (FALLBACK_POLICY_props !! "supportedVisaTypes")
    with (Some (VRef FALLBACK_supportedVisaTypes)).
  change (FALLBACK_POLICY_props !! "blacklistedNationalities")
    with (Some (VRef FALLBACK_blacklistedNationalities)).
  change (FALLBACK_POLICY_props !! "requireNameMatch") with (Some (VJson (JBool true))).
  change (FALLBACK_POLICY_props !! "requirePassportMatch")
    with (Some (VJson (JBool true))).
  simpl. rewrite H2. simpl. rewrite H3. reflexivity.
Qed.

Lemma runStep_frame `{Runtime} σ st :
  engine_readonly → ∀ l, l ∈ dom σ → runStep σ st !! l = σ !! l.
Proof.
  intros Hro l Hl. destruct st as [raw|files a p]; simpl.
  - destruct (effectivePolicy_frame raw {| heap := σ; trace := [] |})
      as (p&w'&->&_&Hfr&_). by apply Hfr.
  - destruct (verifyDocuments files a p σ) as [c σ'] eqn:Hv. by eapply Hro.
Qed.

Lemma runSchedule_frame `{Runtime} σ steps :
  engine_readonly → ∀ l, l ∈ dom σ → runSchedule σ steps !! l = σ !! l.
Proof.
  intros Hro. revert σ. induction steps as [|st steps IH]; intros σ l Hl; [done|].
  unfold runSchedule in *. simpl. rewrite IH.
  - by apply runStep_frame.
  - apply (dom_lookup_mono σ); [|done]. intros l' Hl'. by apply runStep_frame.
Qed.



(** The hypothesis on the engine is needed: the handler passes the constant
    by reference, so an engine that updates its policy argument in place
    changes what the next request finds. *)
Lemma aliased_fallback_is_writable :
  ¬ @engine_readonly normalising_runtime
  ∧ asEligibilityPolicy
      (heap (@serve normalising_runtime [default_request] module_world).2)
      (VRef FALLBACK_POLICY) =
    Some (EligibilityPolicy.mk 180 18 ["tourist"; "business"; "student"; "transit"] []
            true true).
Proof.
  split; [|by vm_compute].
  intros Hro.
  specialize (Hro [] JNull (VRef FALLBACK_POLICY) module_store _ _ eq_refl
                FALLBACK_supportedVisaTypes).
  assert (FALLBACK_supportedVisaTypes ∈ dom module_store) as Hd.
  { apply elem_of_dom. by vm_compute; eexists. }
  specialize (Hro Hd). vm_compute in Hro. discriminate Hro.
Qed.

(** ** The check digit routine and the decoder *)

Module MrzFacts.
Import Mrz.

Lemma charValue_digit (d : nat) :
  (d < 10)%nat → charValue (ascii_of_nat (48 + d)) = Z.of_nat d.
Proof.
  intros Hd. do 10 (destruct d as [|d]; [reflexivity|]). lia.
Qed.

Lemma charValue_letter (k : nat) :
  (k < 26)%nat → charValue (ascii_of_nat (65 + k)) = 10 + Z.of_nat k.
Proof.
  intros Hk. do 26 (destruct k as [|k]; [reflexivity|]). lia.
Qed.

Lemma weightAt_cycle (i : nat) :
  weightAt i = match (i mod 3)%nat with O => 7 | 1%nat => 3 | _ => 1 end.
Proof.
  unfold weightAt, weights.
  assert (i mod 3 < 3)%nat as Hlt by (apply Nat.mod_upper_bound; lia).
  destruct (i mod 3)%nat as [|[|[|n]]]; simpl; try reflexivity; lia.
Qed.

Lemma weightAt_period (i : nat) : weightAt (i + 3) = weightAt i.
Proof.
  unfold weightAt. f_equal. f_equal.
  replace (i + 3)%nat with (i + 1 * 3)%nat by lia. apply Nat.Div0.mod_add.
Qed.

Lemma weightedSum_from (cs : list ascii) (i : nat) (acc : Z) :
  foldl (λ st c, (S st.1, st.2 + charValue c * weightAt st.1)) (i, acc) cs =
    ((i + length cs)%nat,
     acc + foldr Z.add 0 (imap (λ j c, weightAt (i + j) * charValue c) cs)).
Proof.
  revert i acc. induction cs as [|c cs IH]; intros i acc; simpl.
  - f_equal; lia.
  - rewrite IH. f_equal; [lia|].
    rewrite Nat.add_0_r.
    rewrite (imap_ext (λ j c0, weightAt (S i + j) * charValue c0)
                      ((λ j c0, weightAt (i + j) * charValue c0) ∘ S)).
    + lia.
    + intros j x _. simpl. do 2 f_equal. lia.
Qed.

Lemma weightedSum_positional (cs : list ascii) : weightedSum cs = positionalSum cs.
Proof.
  unfold weightedSum, positionalSum. rewrite weightedSum_from. simpl. lia.
Qed.

Lemma segmentMatches_spec (lines : list string) (seg : CheckSegment) :
  segmentMatches lines seg = true ↔
  ∃ c, slice (segDigit seg) lines = [c] ∧ isDigit c = true
       ∧ charValue c = computeCheckDigit (segmentData seg lines).
Proof.
  unfold segmentMatches.
  destruct (slice (segDigit seg) lines) as [|c [|c' rest]].
  - split; [done|]. by intros (c&?&_).
  - rewrite andb_true_iff, Z.eqb_eq. split.
    + intros [? ?]. by exists c.
    + by intros (c0&[= <-]&?&?).
  - split; [done|]. by intros (c0&?&_).
Qed.

Section Decoder.
Context (invalidConfidence : Z) (L : Layout) (lines : list string).

Lemma verify_flag (segs : list CheckSegment) m b :
  (foldl (verifySegment lines) (m, b) segs).2 =
    b && forallb (segmentMatches lines) segs.
Proof.
  revert m b. induction segs as [|seg segs IH]; intros m b; simpl.
  - by rewrite andb_true_r.
  - unfold verifySegment at 2. destruct (segmentMatches lines seg); simpl.
    + apply IH.
    + rewrite IH. by rewrite andb_false_r.
Qed.

Lemma appendIssues_withIssues msgs f :
  is_Some (ExtractedField.issues f) → appendIssues msgs f = withIssues msgs f.
Proof.
  revert f. induction msgs as [|msg msgs IH]; intros f [l Hl].
  - destruct f as [lb v c s i]. simpl in *. subst i.
    unfold withIssues, ExtractedField.issueList. simpl. by rewrite app_nil_r.
  - change (appendIssues (msg :: msgs) f)
      with (appendIssues msgs (appendIssue msg f)).
    rewrite IH by (simpl; eauto).
    destruct f as [lb v c s i]. simpl in *. subst i.
    unfold withIssues, appendIssue, ExtractedField.issueList. simpl.
    by rewrite <-app_assoc.
Qed.

Lemma verify_fields (segs : list CheckSegment) m b k :
  (foldl (verifySegment lines) (m, b) segs).1 !! k =
    appendIssues (failedIssues lines segs k) <$> m !! k.
Proof.
  revert m b. induction segs as [|seg segs IH]; intros m b.
  - simpl. by destruct (m !! k).
  - simpl. unfold verifySegment at 2. unfold failedIssues.
    rewrite filter_cons.
    destruct (segmentMatches lines seg) eqn:Hm.
    + rewrite decide_False by (intros [? _]; done). apply IH.
    + destruct (decide (segField seg = k)) as [<-|Hne].
      * rewrite decide_True by done. simpl. rewrite IH, lookup_alter_eq.
        by destruct (m !! segField seg).
      * rewrite decide_False by (intros [_ ?]; done).
        simpl. by rewrite IH, lookup_alter_ne.
Qed.

Lemma decodedZones_from (zs : list Zone) (m : gmap string ExtractedField.t) k :
  foldl (λ m z, <[zoneField z := decodeZone invalidConfidence L lines z]> m) m zs !! k =
    match last (filter (λ z, zoneField z = k) zs) with
    | Some z => Some (decodeZone invalidConfidence L lines z)
    | None => m !! k
    end.
Proof.
  revert m. induction zs as [|z zs IH]; intros m; simpl; [done|].
  rewrite IH, filter_cons. destruct (decide (zoneField z = k)) as [<-|Hne].
  - destruct (filter _ zs) as [|z' zs'] eqn:Hf.
    + simpl. by rewrite lookup_insert_eq.
    + rewrite last_cons_cons.
      destruct (last (z' :: zs')) eqn:Hl; [done|]. by apply last_None in Hl.
  - destruct (last (filter _ zs)); [done|]. by rewrite lookup_insert_ne.
Qed.

Lemma decodedZones_lookup k :
  decodedZones invalidConfidence L lines !! k =
    decodeZone invalidConfidence L lines <$>
      last (filter (λ z, zoneField z = k) (zones L)).
Proof.
  unfold decodedZones. rewrite decodedZones_from, lookup_empty.
  by destruct (last _).
Qed.

Lemma zone_of_field k :
  k ∈ zoneField <$> zones L →
  ∃ z, last (filter (λ z, zoneField z = k) (zones L)) = Some z
       ∧ z ∈ zones L ∧ zoneField z = k.
Proof.
  intros (z0&Hk&Hin)%list_elem_of_fmap.
  assert (z0 ∈ filter (λ z, zoneField z = k) (zones L)) as Hf
    by (apply list_elem_of_filter; done).
  destruct (last (filter (λ z, zoneField z = k) (zones L))) as [z|] eqn:Hl.
  - exists z. split; [done|]. apply last_Some_elem_of in Hl.
    by apply list_elem_of_filter in Hl as [? ?].
  - apply last_None in Hl. rewrite Hl in Hf. by apply elem_of_nil in Hf.
Qed.

(** Every field of the block is one decoded zone, with the issues of
    the check digits that failed on it appended. *)
Lemma decode_field k :
  MrzResult.fields (decode invalidConfidence L lines) !! k =
    (λ z, withIssues (failedIssues lines (segments L) k)
            (decodeZone invalidConfidence L lines z)) <$>
      last (filter (λ z, zoneField z = k) (zones L)).
Proof.
  unfold decode. simpl. rewrite verify_fields, decodedZones_lookup.
  destruct (last _) as [z|]; simpl; [|done]. f_equal.
  apply appendIssues_withIssues. simpl. eauto.
Qed.

Lemma decode_checksumValid :
  MrzResult.checksumValid (decode invalidConfidence L lines) =
    forallb (segmentMatches lines) (segments L).
Proof. unfold decode. simpl. by rewrite verify_flag. Qed.

End Decoder.
End MrzFacts.

(** The check digits of the specimen passport of Doc 9303. *)
Example specimen_check_digits :
  Mrz.computeCheckDigit (list_ascii_of_string "L898902C3") = 6
  ∧ Mrz.computeCheckDigit (list_ascii_of_string "740812") = 2
  ∧ Mrz.computeCheckDigit (list_ascii_of_string "120415") = 9
  ∧ Mrz.computeCheckDigit (list_ascii_of_string "ZE184226B<<<<<") = 1
  ∧ Mrz.computeCheckDigit
      (list_ascii_of_string "L898902C3674081221204159ZE184226B<<<<<1") = 0.
Proof. by vm_compute. Qed.

Example specimen_is_valid :
  MrzResult.checksumValid (Mrz.decode 40 Mrz.TD3 Mrz.specimen) = true
  ∧ (ExtractedField.confidence <$>
       MrzResult.fields (Mrz.decode 40 Mrz.TD3 Mrz.specimen) !! "documentNumber")
    = Some 100.
Proof. by vm_compute. Qed.

Example misread_specimen_is_invalid :
  MrzResult.checksumValid (Mrz.decode 40 Mrz.TD3 Mrz.specimen_misread) = false
  ∧ MrzResult.fields (Mrz.decode 40 Mrz.TD3 Mrz.specimen_misread) !! "documentNumber"
    = Some (ExtractedField.mk "Document number" (Some "L898902C3") 40 Source.mrz
              (Some ["Check digit mismatch: document number"])).
Proof. by vm_compute. Qed.


Lemma TD3_wellFormed : Mrz.wellFormed Mrz.TD3.
Proof.
  intros seg Hin. simpl in Hin.
  repeat (apply elem_of_cons in Hin as [->|Hin]; [simpl; set_solver|]).
  by apply elem_of_nil in Hin.
Qed.


(** ** The decision *)

Module DecisionFacts.
Import Decision.

Lemma tally_failing checks t :
  failing (foldl step t checks) =
    failing t ++ (ValidationCheck.label <$> filter (λ c, isFail c = true) checks).
Proof.
  revert t. induction checks as [|c checks IH]; intros t; simpl.
  - by rewrite app_nil_r.
  - rewrite IH. simpl. rewrite filter_cons.
    case_decide as Hd; destruct (isFail c); simpl; try done.
    by rewrite <-app_assoc.
Qed.

Lemma tally_flagged checks t :
  flagged (foldl step t checks) =
    flagged t ++ (ValidationCheck.label <$> filter (λ c, isFlagged c = true) checks).
Proof.
  revert t. induction checks as [|c checks IH]; intros t; simpl.
  - by rewrite app_nil_r.
  - rewrite IH. simpl. rewrite filter_cons.
    case_decide as Hd; destruct (isFlagged c); simpl; try done.
    by rewrite <-app_assoc.
Qed.

Lemma tally_total checks t :
  total (foldl step t checks) = total t + sumZ (confidences checks).
Proof.
  revert t. induction checks as [|c checks IH]; intros t; simpl; [lia|].
  rewrite IH. simpl. lia.
Qed.

Lemma tally_count checks t :
  count (foldl step t checks) = count t + Z.of_nat (length checks).
Proof.
  revert t. induction checks as [|c checks IH]; intros t; simpl; [lia|].
  rewrite IH. simpl. lia.
Qed.

Lemma tally_lowest checks t bound :
  lowest (foldl step t checks) < bound ↔
  lowest t < bound ∨ ∃ c, c ∈ checks ∧ ValidationCheck.confidence c < bound.
Proof.
  revert t. induction checks as [|c checks IH]; intros t; simpl.
  - split; [by left|]. intros [?|(c&Hc&_)]; [done|]. by apply elem_of_nil in Hc.
  - rewrite IH. simpl. split.
    + intros [Hmin|(c'&Hin&Hlow)].
      * destruct (Z.min_spec (lowest t) (ValidationCheck.confidence c))
          as [[_ Heq]|[_ Heq]]; rewrite Heq in Hmin.
        -- by left.
        -- right. exists c. split; [apply elem_of_cons; by left|done].
      * right. exists c'. split; [apply elem_of_cons; by right|done].
    + intros [Hlow|(c'&Hin&Hlow)]; [left; lia|].
      apply elem_of_cons in Hin as [->|Hin]; [left; lia|].
      right. by exists c'.
Qed.

Lemma isFail_spec c :
  isFail c = true ↔ ValidationCheck.status c = CheckStatus.fail.
Proof. unfold isFail. by rewrite bool_decide_eq_true. Qed.

Lemma isFlagged_spec c :
  isFlagged c = true ↔
  ValidationCheck.status c = CheckStatus.warning
  ∨ ValidationCheck.status c = CheckStatus.unknown.
Proof. unfold isFlagged. by rewrite orb_true_iff, !bool_decide_eq_true. Qed.

Lemma isNil_true {A} (l : list A) : isNil l = true ↔ l = [].
Proof. by destruct l. Qed.

Lemma filter_none {A} (P : A → Prop) `{∀ x, Decision (P x)} (l : list A) :
  (∀ x, x ∈ l → ¬ P x) → filter P l = [].
Proof.
  intros Hno. induction l as [|x l IH]; [done|].
  rewrite filter_cons, decide_False.
  - apply IH. intros y Hy. apply Hno. by apply elem_of_cons; right.
  - apply Hno. by apply elem_of_cons; left.
Qed.

(** Rounding to the nearest integer: twice the distance to the average
    is at most one (the bounds are cleared of the division by [n]). *)
Lemma roundedAverage_nearest sum n :
  0 < n →
  2 * sum - n < 2 * n * roundedAverage sum n ≤ 2 * sum + n.
Proof.
  intros Hn. unfold roundedAverage.
  pose proof (Z.div_mod (2 * sum + n) (2 * n) ltac:(lia)) as Hdm.
  pose proof (Z.mod_pos_bound (2 * sum + n) (2 * n) ltac:(lia)) as Hb.
  lia.
Qed.

End DecisionFacts.

Example sample_checks_decision :
  Decision.decide sample_checks
    = EligibilityDecision.mk DecisionStatus.rejected ["MRZ checksum"] 83.
Proof. by vm_compute. Qed.

Example warning_needs_manual_review :
  Decision.decide
    [ValidationCheck.mk "name_match" "Name match" CheckStatus.warning "" 70;
     ValidationCheck.mk "visa_type_supported" "Visa type supported" CheckStatus.pass "" 55]
    = EligibilityDecision.mk DecisionStatus.manual_review
        ["Name match"; "Low confidence in one or more checks"] 63.
Proof. by vm_compute. Qed.

(** C2.  The decision is computed from the completed checks alone:
    - some check failed: [rejected], and the reasons are the labels of the
      failing checks, in order;
    - otherwise, some check is [warning] or [unknown], or some confidence is
      below 60: [manual_review];
    - otherwise, for a non-empty sequence (every check passes with a
      confidence of at least 60): [approved], with no reasons;
    - the empty sequence: [unknown];
    - for a non-empty sequence the confidence is the integer nearest to the
      average confidence of the checks. *)
Theorem eligibility_decision (checks : list ValidationCheck.t) :
  let d := Decision.decide checks in
  let failing := filter (λ c, ValidationCheck.status c = CheckStatus.fail) checks in
  let flagged :=
    filter (λ c, ValidationCheck.status c = CheckStatus.warning
                 ∨ ValidationCheck.status c = CheckStatus.unknown) checks in
  let n := Z.of_nat (length checks) in
  let sum := foldr Z.add 0 (ValidationCheck.confidence <$> checks) in
  (failing ≠ [] →
     EligibilityDecision.status d = DecisionStatus.rejected
     ∧ EligibilityDecision.reasons d = ValidationCheck.label <$> failing)
  ∧ (failing = [] →
     flagged ≠ [] ∨ (∃ c, c ∈ checks ∧ ValidationCheck.confidence c < 60) →
     EligibilityDecision.status d = DecisionStatus.manual_review
     ∧ ∃ note, EligibilityDecision.reasons d = (ValidationCheck.label <$> flagged) ++ note
               ∧ (note = [] ↔ ∀ c, c ∈ checks → 60 ≤ ValidationCheck.confidence c))
  ∧ (checks ≠ [] →
     (∀ c, c ∈ checks → ValidationCheck.status c = CheckStatus.pass
                        ∧ 60 ≤ ValidationCheck.confidence c) →
     EligibilityDecision.status d = DecisionStatus.approved
     ∧ EligibilityDecision.reasons d = [])
  ∧ (checks = [] → EligibilityDecision.status d = DecisionStatus.unknown)
  ∧ (checks ≠ [] →
     2 * sum - n < 2 * n * EligibilityDecision.confidence d ≤ 2 * sum + n).
Proof.
  intros d failing flagged n sum.
  assert (Decision.failing (foldl Decision.step Decision.start checks)
          = ValidationCheck.label <$> failing) as Hfail.
  { rewrite DecisionFacts.tally_failing. simpl. f_equal.
    apply list_filter_iff. intros c. apply DecisionFacts.isFail_spec. }
  assert (Decision.flagged (foldl Decision.step Decision.start checks)
          = ValidationCheck.label <$> flagged) as Hflag.
  { rewrite DecisionFacts.tally_flagged. simpl. f_equal.
    apply list_filter_iff. intros c. apply DecisionFacts.isFlagged_spec. }
  assert (Decision.count (foldl Decision.step Decision.start checks) = n) as Hcount.
  { rewrite DecisionFacts.tally_count. simpl. lia. }
  assert (Decision.total (foldl Decision.step Decision.start checks) = sum) as Htotal.
  { rewrite DecisionFacts.tally_total. simpl. unfold sum. reflexivity. }
  assert (Decision.lowest (foldl Decision.step Decision.start checks) < 60
          ↔ ∃ c, c ∈ checks ∧ ValidationCheck.confidence c < 60) as Hlow.
  { rewrite DecisionFacts.tally_lowest. simpl. split; [|by right].
    intros [?|?]; [lia|done]. }
  assert (checks ≠ [] → 0 < n) as Hpos.
  { intros Hne. unfold n. destruct checks; [done|]. simpl. lia. }
  assert (∀ A B (f : A → B) (l : list A), f <$> l = [] ↔ l = []) as Hmapnil.
  { intros A B f l. destruct l; simpl; split; done. }
  subst d. unfold Decision.decide.
  rewrite Hfail, Hflag, Hcount, Htotal.
  destruct (n =? 0) eqn:Hn0.
  { apply Z.eqb_eq in Hn0.
    assert (checks = []) as -> by (destruct checks; [done|simpl in *; lia]).
    simpl. split_and!; try done. intros _ [?|(c&Hc&_)]; [done|].
    by apply elem_of_nil in Hc. }
  apply Z.eqb_neq in Hn0.
  assert (checks ≠ []) as Hne by (intros ->; simpl in *; lia).
  destruct (Decision.isNil (ValidationCheck.label <$> failing)) eqn:Hf; simpl.
  - apply DecisionFacts.isNil_true, Hmapnil in Hf.
    destruct (Decision.isNil (ValidationCheck.label <$> flagged)) eqn:Hg; simpl.
    + apply DecisionFacts.isNil_true, Hmapnil in Hg.
      destruct (Decision.lowest _ <? 60) eqn:Hl; simpl.
      * apply Z.ltb_lt in Hl. pose proof (proj1 Hlow Hl) as (c0&Hc0&Hc0low).
        split_and!; try done.
        -- intros _ _. split; [done|]. eexists. split; [done|].
           split; [done|]. intros Hall. specialize (Hall c0 Hc0). lia.
        -- intros _ Hall. destruct (Hall c0 Hc0). lia.
        -- intros _. by apply DecisionFacts.roundedAverage_nearest, Hpos.
      * apply Z.ltb_ge in Hl.
        split_and!; try done.
        -- intros _ [?|Hex]; [done|]. apply Hlow in Hex. lia.
        -- intros _. by apply DecisionFacts.roundedAverage_nearest, Hpos.
    + assert (flagged ≠ []) as Hgne.
      { intros Hg'. rewrite Hg' in Hg. done. }
      split_and!; try done.
      * intros _ _. split; [done|]. eexists. split; [done|].
        destruct (Decision.lowest _ <? 60) eqn:Hl.
        -- apply Z.ltb_lt in Hl. pose proof (proj1 Hlow Hl) as (c0&Hc0&Hc0low).
           split; [done|]. intros Hall. specialize (Hall c0 Hc0). lia.
        -- apply Z.ltb_ge in Hl. split; [|done]. intros _ c Hc.
           destruct (Z.lt_ge_cases (ValidationCheck.confidence c) 60) as [Hc60|?];
             [|lia].
           assert (Decision.lowest (foldl Decision.step Decision.start checks) < 60)
             by (apply Hlow; eauto).
           lia.
      * intros _ Hall. exfalso. apply Hgne.
        apply DecisionFacts.filter_none.
        intros c Hc [Hs|Hs]; destruct (Hall c Hc); congruence.
      * intros _. by apply DecisionFacts.roundedAverage_nearest, Hpos.
  - assert (failing ≠ []) as Hfne.
    { intros Hf'. rewrite Hf' in Hf. done. }
    split_and!; try done.
    + intros _ Hall. exfalso. apply Hfne.
      apply DecisionFacts.filter_none.
      intros c Hc Hs. destruct (Hall c Hc). congruence.
    + intros _. by apply DecisionFacts.roundedAverage_nearest, Hpos.
Qed.

(** ** The reconciler *)

Module ReconcilerFacts.
Import Reconciler.

(** The selected candidate is the candidate of its source, and every
    source tried before it had no candidate or a checksum-invalid one that
    is not more confident. *)
Lemma selectFrom_spec cands order s c :
  selectFrom cands order = Some (s, c) →
  ∃ pre post,
    order = pre ++ s :: post
    ∧ cands s = Some c
    ∧ ∀ h c_h, h ∈ pre → cands h = Some c_h →
        checksumInvalid c_h = true ∧ confidenceOf c_h ≤ confidenceOf c.
Proof.
  revert s c. induction order as [|s0 lower IH]; intros s c Hsel; [done|].
  simpl in Hsel. destruct (cands s0) as [c0|] eqn:Hc0.
  - destruct (checksumInvalid c0) eqn:Hinv.
    + destruct (selectFrom cands lower) as [[s' c']|] eqn:Hlow.
      * destruct (confidenceOf c0 <=? confidenceOf c') eqn:Hle.
        -- injection Hsel as -> ->.
           destruct (IH _ _ eq_refl) as (pre&post&->&Hc&Hpre).
           exists (s0 :: pre), post. split_and!; [done|done|].
           intros h c_h [->|Hin]%elem_of_cons Hh.
           ++ rewrite Hc0 in Hh. injection Hh as <-.
              split; [done|]. by apply Z.leb_le.
           ++ by eapply Hpre.
        -- injection Hsel as -> ->. exists [], lower. split_and!; [done|done|].
           intros h c_h Hin. by apply elem_of_nil in Hin.
      * injection Hsel as -> ->. exists [], lower. split_and!; [done|done|].
        intros h c_h Hin. by apply elem_of_nil in Hin.
    + injection Hsel as -> ->. exists [], lower. split_and!; [done|done|].
      intros h c_h Hin. by apply elem_of_nil in Hin.
  - destruct (IH _ _ Hsel) as (pre&post&->&Hc&Hpre).
    exists (s0 :: pre), post. split_and!; [done|done|].
    intros h c_h [->|Hin]%elem_of_cons Hh; [congruence|by eapply Hpre].
Qed.

Lemma selectFrom_None cands order :
  selectFrom cands order = None ↔ ∀ s, s ∈ order → cands s = None.
Proof.
  induction order as [|s0 lower IH]; simpl.
  - split; [|done]. intros _ s Hs. by apply elem_of_nil in Hs.
  - destruct (cands s0) as [c0|] eqn:Hc0.
    + split.
      * intros Hsel. exfalso.
        destruct (checksumInvalid c0); [|done].
        destruct (selectFrom cands lower) as [[s' c']|]; [|done].
        by destruct (confidenceOf c0 <=? confidenceOf c').
      * intros Hall. specialize (Hall s0 ltac:(apply elem_of_cons; by left)).
        congruence.
    + rewrite IH. split.
      * intros Hall s [->|Hs]%elem_of_cons; [done|by apply Hall].
      * intros Hall s Hs. apply Hall. apply elem_of_cons. by right.
Qed.

(** In the priority table, the sources before [s] are those of smaller
    rank. *)
Lemma priority_before pre s post h :
  priority = pre ++ s :: post → (rank h < rank s)%nat → h ∈ pre.
Proof.
  unfold priority. intros Heq Hlt.
  destruct pre as [|a [|b [|c [|d pre]]]]; simpl in Heq;
    inversion Heq; subst; simpl in Hlt; destruct h; simpl in Hlt; try lia;
    try set_solver.
  all: try (destruct pre; discriminate).
Qed.

Lemma reconcile_selected label cands s c :
  selectFrom cands priority = Some (s, c) →
  ExtractedField.source (reconcile label cands) = s
  ∧ ExtractedField.value (reconcile label cands) = ExtractedField.value (field c).
Proof. intros Hsel. unfold reconcile. by rewrite Hsel. Qed.

Lemma reconcile_none label cands :
  (∀ s, s ∈ priority → cands s = None) →
  ExtractedField.source (reconcile label cands) = Source.unknown
  ∧ ExtractedField.value (reconcile label cands) = None
  ∧ ExtractedField.confidence (reconcile label cands) = 0.
Proof.
  intros Hnone%selectFrom_None. unfold reconcile. by rewrite Hnone.
Qed.

End ReconcilerFacts.

(** C3.  Reconciliation follows the source priority.
    - A field with an MRZ candidate whose checksum is valid is reconciled to
      the MRZ value, with source [mrz], whatever the other candidates and
      their confidences are.
    - The reconciled field has the value of the candidate of its source,
      and every source of higher priority either had no candidate, or had a
      checksum-invalid candidate whose confidence does not exceed that of
      the selected one.
    - The field is [unknown] exactly when no source has a candidate. *)
Theorem reconciliation_priority
    (label : string) (cands : Source.t → option Reconciler.Candidate) :
  (∀ m, cands Source.mrz = Some m → Reconciler.checksumInvalid m = false →
     ExtractedField.value (Reconciler.reconcile label cands)
       = ExtractedField.value (Reconciler.field m)
     ∧ ExtractedField.source (Reconciler.reconcile label cands) = Source.mrz)
  ∧ (∀ s c, Reconciler.selectFrom cands Reconciler.priority = Some (s, c) →
       ExtractedField.source (Reconciler.reconcile label cands) = s
       ∧ ExtractedField.value (Reconciler.reconcile label cands)
           = ExtractedField.value (Reconciler.field c)
       ∧ cands s = Some c
       ∧ ∀ h, (Reconciler.rank h < Reconciler.rank s)%nat →
           cands h = None
           ∨ ∃ c_h, cands h = Some c_h
                    ∧ Reconciler.checksumInvalid c_h = true
                    ∧ Reconciler.confidenceOf c_h ≤ Reconciler.confidenceOf c)
  ∧ ((∀ s, s ∈ Reconciler.priority → cands s = None) →
       ExtractedField.source (Reconciler.reconcile label cands) = Source.unknown
       ∧ ExtractedField.value (Reconciler.reconcile label cands) = None
       ∧ ExtractedField.confidence (Reconciler.reconcile label cands) = 0).
Proof.
  split_and!.
  - intros m Hm Hvalid.
    assert (Reconciler.selectFrom cands Reconciler.priority = Some (Source.mrz, m)) as Hsel.
    { simpl. by rewrite Hm, Hvalid. }
    destruct (ReconcilerFacts.reconcile_selected label cands _ _ Hsel). done.
  - intros s c Hsel.
    destruct (ReconcilerFacts.reconcile_selected label cands _ _ Hsel) as [Hs Hv].
    destruct (ReconcilerFacts.selectFrom_spec _ _ _ _ Hsel) as (pre&post&Heq&Hc&Hpre).
    split_and!; [done|done|done|].
    intros h Hrank. destruct (cands h) as [c_h|] eqn:Hh; [right|by left].
    exists c_h. split; [done|]. eapply Hpre; [|done].
    by eapply ReconcilerFacts.priority_before.
  - apply ReconcilerFacts.reconcile_none.
Qed.

(** ** The engine *)

Module EngineFacts.
Import Engine.

Lemma clamp_range x : 0 ≤ FreeText.clamp x ≤ 100.
Proof. unfold FreeText.clamp. lia. Qed.

Lemma matchConfidence_range m : 0 ≤ FreeText.matchConfidence m ≤ 100.
Proof.
  unfold FreeText.matchConfidence.
  destruct (FreeText.tokenConfidence m) as [t|].
  - pose proof (clamp_range (FreeText.labelStrength m)).
    pose proof (clamp_range t). lia.
  - apply clamp_range.
Qed.

(** A decoded field is its zone: source [mrz], the trimmed text of the
    zone as value, and a confidence that depends only on the check digits
    covering the field. *)
Lemma decode_field_props (ic : Z) (L : Mrz.Layout) (run : list string) k f :
  MrzResult.fields (Mrz.decode ic L run) !! k = Some f →
  ExtractedField.source f = Source.mrz
  ∧ ExtractedField.confidence f =
      (if forallb (Mrz.segmentMatches run) (Mrz.coveringSegments L k)
       then 100 else ic)
  ∧ ∃ z, z ∈ Mrz.zones L ∧ Mrz.zoneField z = k
         ∧ ExtractedField.value f
             = Some (Mrz.trimFiller (Mrz.slice (Mrz.zoneSpan z) run)).
Proof.
  rewrite MrzFacts.decode_field.
  destruct (last (filter (λ z, Mrz.zoneField z = k) (Mrz.zones L))) as [z|] eqn:Hl;
    [|done].
  intros [= <-]. apply last_Some_elem_of, list_elem_of_filter in Hl as [Hk Hz].
  simpl. rewrite Hk. split_and!; [done|done|]. by exists z.
Qed.

Lemma insert_all_lookup {A B} (key : A → string) (g : A → B) (l : list A)
    (m0 : gmap string B) k f :
  foldl (λ m x, <[key x := g x]> m) m0 l !! k = Some f →
  m0 !! k = Some f ∨ ∃ x, x ∈ l ∧ key x = k ∧ f = g x.
Proof.
  revert m0. induction l as [|x l IH]; intros m0 Hk; simpl in Hk; [by left|].
  destruct (IH _ Hk) as [Hm|(y&Hy&Hky&->)].
  - destruct (decide (key x = k)) as [<-|Hne].
    + rewrite lookup_insert_eq in Hm. injection Hm as <-.
      right. exists x. split_and!; [apply elem_of_cons; by left|done|done].
    + rewrite lookup_insert_ne in Hm by done. by left.
  - right. exists y. split_and!; [apply elem_of_cons; by right|done|done].
Qed.

Section WithData.
Context `{EngineData}.

Lemma best_from_elem (blocks : list MrzResult.t) acc b :
  foldl (λ acc b,
           match acc with
           | None => Some b
           | Some a => if better b a then Some b else Some a
           end) acc blocks = Some b →
  acc = Some b ∨ b ∈ blocks.
Proof.
  revert acc. induction blocks as [|x blocks IH]; intros acc Hb; simpl in Hb;
    [by left|].
  destruct (IH _ Hb) as [Hacc|Hin]; [|right; apply elem_of_cons; by right].
  destruct acc as [a|].
  - destruct (better x a); injection Hacc as <-;
      [right; apply elem_of_cons; by left|by left].
  - injection Hacc as <-. right. apply elem_of_cons. by left.
Qed.

Lemma best_elem (blocks : list MrzResult.t) b : best blocks = Some b → b ∈ blocks.
Proof. intros Hb. by destruct (best_from_elem _ _ _ Hb). Qed.

Lemma locate_decoded lines b :
  locate lines = Some b →
  ∃ L run, L ∈ layouts ∧ b = Mrz.decode invalidConfidence L run.
Proof.
  intros Hb%best_elem. unfold decodedRuns in Hb.
  apply list_elem_of_bind in Hb as (L&Hb&HL).
  apply list_elem_of_bind in Hb as (run&Hb&_).
  destruct (qualifies L run); [|by apply elem_of_nil in Hb].
  apply list_elem_of_singleton in Hb. by exists L, (normalizeRun L run).
Qed.

Lemma block_decoded (docs : list RawDocument) b :
  best (omap (λ d, locate (ocrText d)) docs) = Some b →
  ∃ L run, L ∈ layouts ∧ b = Mrz.decode invalidConfidence L run.
Proof.
  intros Hb%best_elem. apply list_elem_of_omap in Hb as (d&_&Hd).
  by eapply locate_decoded.
Qed.

Lemma candidates_range block docs label k s c :
  0 ≤ invalidConfidence ≤ 40 →
  (∀ b, block = Some b → ∃ L run, b = Mrz.decode invalidConfidence L run) →
  candidates block docs label k s = Some c →
  0 ≤ Reconciler.confidenceOf c ≤ 100.
Proof.
  intros Hic Hblock Hc. destruct s; simpl in Hc; try done.
  - unfold ocrCandidate in Hc.
    destruct (head (omap (freeTextMatch k) docs)) as [m|]; [|done].
    injection Hc as <-. apply matchConfidence_range.
  - unfold mrzCandidate in Hc. destruct block as [b|]; [|done]. simpl in Hc.
    destruct (MrzResult.fields b !! k) as [f|] eqn:Hf; [|done].
    injection Hc as <-. unfold Reconciler.confidenceOf. simpl.
    destruct (Hblock b eq_refl) as (L&run&->).
    apply decode_field_props in Hf as (_&->&_).
    destruct (forallb _ _); lia.
  - unfold barcodeCandidate in Hc.
    destruct (head _) as [entry|]; [|done].
    injection Hc as <-. apply clamp_range.
Qed.

Lemma max_over_ge (base : Z) (xs : list Z) : base ≤ foldr Z.max base xs.
Proof. induction xs as [|x xs IH]; simpl; lia. Qed.

Lemma reconcile_range label (cands : Source.t → option Reconciler.Candidate) :
  (∀ s c, cands s = Some c → 0 ≤ Reconciler.confidenceOf c ≤ 100) →
  0 ≤ ExtractedField.confidence (Reconciler.reconcile label cands) ≤ 100.
Proof.
  intros Hrange. unfold Reconciler.reconcile.
  destruct (Reconciler.selectFrom cands Reconciler.priority) as [[s c]|] eqn:Hsel;
    [|simpl; lia].
  destruct (ReconcilerFacts.selectFrom_spec _ _ _ _ Hsel) as (_&_&_&Hc&_).
  specialize (Hrange s c Hc). simpl.
  destruct (filter _ _) as [|o os]; [done|].
  pose proof (max_over_ge (Reconciler.confidenceOf c)
                ((λ o, Reconciler.confidenceOf o.2) <$> o :: os)).
  lia.
Qed.

Lemma reconcileAll_lookup block docs k f :
  reconcileAll block docs !! k = Some f →
  ∃ label, (k, label) ∈ targetFields
           ∧ f = Reconciler.reconcile label (candidates block docs label k).
Proof.
  intros Hf. unfold reconcileAll in Hf.
  apply (insert_all_lookup (λ kl, kl.1)
           (λ kl, Reconciler.reconcile kl.2 (candidates block docs kl.2 kl.1)))
    in Hf as [Hf|([k' label]&Hin&Hk&->)]; [by rewrite lookup_empty in Hf|].
  simpl in Hk. subst k'. by exists label.
Qed.

Lemma candidates_no_documents label k s : candidates None [] label k s = None.
Proof. by destruct s. Qed.

Lemma nothingExtracted_true (fields : gmap string ExtractedField.t) :
  (∀ k f, fields !! k = Some f → ExtractedField.value f = None) →
  Rules.nothingExtracted fields = true.
Proof.
  intros Hnone. unfold Rules.nothingExtracted. apply forallb_forall.
  intros [k f] Hin%list_elem_of_In%elem_of_map_to_list.
  apply bool_decide_eq_true. by eapply Hnone.
Qed.

End WithData.
End EngineFacts.

(** *** The engine on the specimen *)

(** A check digit read as a letter is put right before decoding: the
    composite digit 0 of the specimen read as [O]. *)
Example confused_check_digit_is_normalised :
  Engine.normalizeRun Mrz.TD3
    [ "P<UTOERIKSSON<<ANNA<MARIA<<<<<<<<<<<<<<<<<<<";
      "L898902C36UTO7408122F1204159ZE184226B<<<<<1O" ] = Mrz.specimen.
Proof. by vm_compute. Qed.


Example specimen_is_approved :
  let r := (@Engine.evaluate Engine.sample_data [Engine.specimen_scan] Engine.anna
              Engine.default_policy [1000; 1250]).1 in
  VerificationResponse.eligibility r
    = EligibilityDecision.mk DecisionStatus.approved [] 100
  ∧ ValidationCheck.status <$> VerificationResponse.validationChecks r
    = [CheckStatus.pass; CheckStatus.pass; CheckStatus.pass; CheckStatus.pass]
  ∧ VerificationResponse.recommendedActions r = []
  ∧ VerificationResponse.timingMs r = 250.
Proof. by vm_compute. Qed.

(** A blacklisted nationality is rejected whatever the other checks say. *)
Example blacklisted_nationality_is_rejected :
  let applicant :=
    ApplicantProfile.mk "Anna Maria Eriksson" "1974-08-12" "L898902C3" "IRN"
      "tourist" "2025-06-01" in
  VerificationResponse.eligibility
    (@Engine.evaluate Engine.sample_data [Engine.specimen_scan] applicant
       Engine.default_policy [1000; 1250]).1
    = EligibilityDecision.mk DecisionStatus.rejected ["Nationality not blacklisted"] 100.
Proof. by vm_compute. Qed.

(** The misread specimen: the MRZ check fails, the report says so and
    recommends a new scan. *)
Example misread_specimen_is_rejected :
  let r := (@Engine.evaluate Engine.sample_data [Engine.misread_scan] Engine.anna
              Engine.default_policy [1000; 1250]).1 in
  EligibilityDecision.status (VerificationResponse.eligibility r)
    = DecisionStatus.rejected
  ∧ EligibilityDecision.reasons (VerificationResponse.eligibility r) = ["MRZ checksum"]
  ∧ VerificationResponse.recommendedActions r
    = ["Re-scan document with a sharper, glare-free MRZ image"].
Proof. by vm_compute. Qed.







(** The timing is the one component that does differ between runs. *)
Lemma timing_depends_on_clock :
  VerificationResponse.timingMs
    (@Engine.evaluate Engine.sample_data [Engine.specimen_scan] Engine.anna
       Engine.default_policy [1000; 1250]).1 = 250
  ∧ VerificationResponse.timingMs
      (@Engine.evaluate Engine.sample_data [Engine.specimen_scan] Engine.anna
         Engine.default_policy [2000; 2900]).1 = 900.
Proof. by vm_compute. Qed.

Lemma eligibility_decision_witness :
  EligibilityDecision.status (Decision.decide sample_checks) = DecisionStatus.rejected
  ∧ EligibilityDecision.reasons (Decision.decide sample_checks) = ["MRZ checksum"].
Proof.
  pose proof (eligibility_decision sample_checks) as Hd. cbv zeta in Hd.
  destruct Hd as (Hrejected & _). apply Hrejected. vm_compute. discriminate.
Defined.

Lemma reconciliation_priority_witness :
  ExtractedField.value (Reconciler.reconcile "Document number" conflicting_candidates)
    = Some "L898902C3"
  ∧ ExtractedField.source (Reconciler.reconcile "Document number" conflicting_candidates)
    = Source.mrz.
Proof.
  exact (proj1 (reconciliation_priority "Document number" conflicting_candidates)
           _ eq_refl eq_refl).
Defined.


(** * Further properties of the handler and of the page *)

(** ** More on the handler *)

Lemma effectivePolicy_truthy `{Runtime} raw1 raw2 :
  truthyString raw1 = truthyString raw2 → effectivePolicy raw1 = effectivePolicy raw2.
Proof. intros Heq. unfold effectivePolicy. by rewrite Heq. Qed.

Lemma get_app_l (name : string) (fd more : FormData) :
  is_Some (get name fd) → get name (fd ++ more) = get name fd.
Proof.
  unfold get, getAll, FormData in *. rewrite filter_app, fmap_app.
  destruct ((filter (λ e, e.1 = name) fd).*2); [by intros [? ?]|done].
Qed.

Lemma getAll_app_other (name : string) (fd more : FormData) :
  (∀ e, e ∈ more → e.1 ≠ name) → getAll name (fd ++ more) = getAll name fd.
Proof.
  intros Hother. unfold getAll, FormData in *. rewrite filter_app, fmap_app.
  assert (filter (λ e : string * FormDataEntryValue, e.1 = name) more = []) as ->.
  { induction more as [|e more IH]; [done|].
    rewrite filter_cons, decide_False.
    - apply IH. intros e' He'. apply Hother. by apply elem_of_cons; right.
    - apply Hother. by apply elem_of_cons; left. }
  by rewrite app_nil_r.
Qed.

(** X1.  [POST] looks at the form data through three views only: the
    non-empty files under ["documents"], the first ["applicant"] entry and
    the first ["policy"] entry (each as a non-empty string or nothing).
    Two forms with the same views get the same response and leave the same
    world.  In particular, entries appended to a form that already has an
    applicant and a policy entry change nothing, unless they are documents. *)
Theorem POST_reads_three_views `{Runtime} (fd1 fd2 : FormData) (w : World) :
  documentFiles fd1 = documentFiles fd2 →
  truthyString (get "applicant" fd1) = truthyString (get "applicant" fd2) →
  truthyString (get "policy" fd1) = truthyString (get "policy" fd2) →
  POST (request_of fd1) w = POST (request_of fd2) w.
Proof.
  intros Hdocs Happ Hpol. unfold POST, try_catch, mbind, M_bind, await. simpl.
  rewrite Hdocs, Happ. by rewrite (effectivePolicy_truthy _ _ Hpol).
Qed.

Lemma POST_reads_three_views_witness :
  @POST scratch_runtime
     (request_of [("documents", EntryFile passport_png);
                  ("applicant", EntryString default_applicant_text);
                  ("applicant", EntryString "null");
                  ("note", EntryString "urgent");
                  ("documents", EntryFile empty_png)]) module_world
  = @POST scratch_runtime default_request module_world.
Proof.
  apply (@POST_reads_three_views scratch_runtime); reflexivity.
Defined.

(** Appended entries that are not documents are never read once the form
    has its applicant and policy entries. *)
Lemma POST_ignores_appended_entries `{Runtime} (fd more : FormData) (w : World) :
  (∀ e, e ∈ more → e.1 ≠ "documents") →
  is_Some (get "applicant" fd) → is_Some (get "policy" fd) →
  POST (request_of (fd ++ more)) w = POST (request_of fd) w.
Proof.
  intros Hother Happ Hpol. unfold POST, try_catch, mbind, M_bind, await. simpl.
  unfold documentFiles. rewrite (getAll_app_other _ _ _ Hother).
  by rewrite !get_app_l.
Qed.

(** X2.  What a request leaves behind, by status.  A 400 leaves the world
    (store and log) exactly as it was.  A 200 is answered exactly when the
    one event of the request is the call to [verifyDocuments] and the body
    is the report.  A 500 is answered exactly when the last event is the
    [console.error] of the thrown value, whose message is the body.  No
    request calls [verifyDocuments] twice, and [console.error] is written
    only by a request that answers 500. *)
Theorem POST_effects `{Runtime} (req : NextRequest) (w : World) :
  ∃ resp w' evs,
    POST req w = (Normal resp, w')
    ∧ trace w' = trace w ++ evs
    ∧ (status resp = 400 → w' = w ∧ evs = [])
    ∧ (status resp = 200 ↔
         ∃ files a p r, evs = [VerifyCall files a p] ∧ body resp = ResultBody r)
    ∧ (status resp = 500 ↔
         ∃ e, last evs = Some (ConsoleError "Verification error" e)
              ∧ body resp = ErrorBody (errorMessage e))
    ∧ (length (verifyCalls evs) ≤ 1)%nat
    ∧ (∀ msg e, ConsoleError msg e ∈ evs → status resp = 500).
Proof.
  destruct (POST_handled req w) as (resp&w'&HP&Hh).
  assert (∀ raw p w1, effectivePolicy raw w = (Normal p, w1) → trace w1 = trace w) as Htr.
  { intros raw p w1 Hp. destruct (effectivePolicy_frame raw w) as (p'&w1'&Hp'&Ht&_).
    congruence. }
  destruct Hh as [e He|fd Hfd Hnil|fd Hfd Hne Ht|fd text Hfd Hne Ht Ha
                 |fd text a p w1 r σ2 Hfd Hne Ht Ha Hp Hv
                 |fd text a p w1 e σ2 Hfd Hne Ht Ha Hp Hv].
  - exists (serverError e), (logged e (heap w) (trace w)),
      [ConsoleError "Verification error" e].
    split_and!; try done.
    + split; [done|]. by intros (?&?&?&?&?&?).
    + split; [|done]. intros _. by exists e.
    + simpl. lia.
  - exists (badRequest "No document files were uploaded"), w, [].
    split_and!; try done; try (by rewrite app_nil_r).
    + split; [done|]. by intros (?&?&?&?&?&?).
    + split; [done|]. by intros (?&?&?).
    + simpl. lia.
    + intros ?? ?%elem_of_nil. done.
  - exists (badRequest "Applicant payload missing"), w, [].
    split_and!; try done; try (by rewrite app_nil_r).
    + split; [done|]. by intros (?&?&?&?&?&?).
    + split; [done|]. by intros (?&?&?).
    + simpl. lia.
    + intros ?? ?%elem_of_nil. done.
  - exists (badRequest "Invalid applicant payload"), w, [].
    split_and!; try done; try (by rewrite app_nil_r).
    + split; [done|]. by intros (?&?&?&?&?&?).
    + split; [done|]. by intros (?&?&?).
    + simpl. lia.
    + intros ?? ?%elem_of_nil. done.
  - eexists _, _, [VerifyCall (documentFiles fd) a p].
    split; [exact HP|]. split; [simpl; by rewrite (Htr _ _ _ Hp)|].
    split_and!; try done.
    + split; [|done]. intros _. by eexists _, _, _, _.
    + split; [done|]. by intros (?&?&?).
    + intros ?? [=]%list_elem_of_singleton.
  - eexists _, _, [VerifyCall (documentFiles fd) a p; ConsoleError "Verification error" e].
    split; [exact HP|].
    split; [simpl; rewrite (Htr _ _ _ Hp); by rewrite <-app_assoc|].
    split_and!; try done.
    + split; [done|]. by intros (?&?&?&?&?&?).
    + split; [|done]. intros _. by exists e.
Qed.

Lemma getAll_without (name other : string) (fd : FormData) :
  name ≠ other →
  getAll name (filter (λ e, e.1 ≠ other) fd) = getAll name fd.
Proof.
  intros Hne. unfold getAll, FormData in *. f_equal.
  induction fd as [|e fd IH]; [done|].
  rewrite !filter_cons. destruct (decide (e.1 ≠ other)) as [Hk|Hk].
  - rewrite filter_cons. destruct (decide (e.1 = name)); by rewrite IH.
  - apply dec_stable in Hk. rewrite decide_False by congruence. exact IH.
Qed.

Lemma get_without_same (name : string) (fd : FormData) :
  get name (filter (λ e, e.1 ≠ name) fd) = None.
Proof.
  unfold get, getAll, FormData in *.
  assert (filter (λ e : string * FormDataEntryValue, e.1 = name)
            (filter (λ e, e.1 ≠ name) fd) = []) as ->; [|done].
  induction fd as [|e fd IH]; [done|].
  rewrite filter_cons. destruct (decide (e.1 ≠ name)) as [Hk|Hk]; [|exact IH].
  by rewrite filter_cons, decide_False.
Qed.

(** X3.  A policy entry that cannot be used (a file, the empty string, or
    text that [JSON.parse] rejects) is dropped without a trace: the request
    is handled exactly as the same form without any policy entry, so it is
    never the reason for an error response. *)
Theorem POST_unusable_policy_is_no_policy `{Runtime} (fd : FormData) (w : World) :
  truthyString (get "policy" fd) ≫= JSON_parse = None →
  POST (request_of fd) w = POST (request_of (filter (λ e, e.1 ≠ "policy") fd)) w.
Proof.
  intros Hbad. unfold POST, try_catch, mbind, M_bind, await. simpl.
  unfold documentFiles, get.
  rewrite !(getAll_without _ "policy") by done.
  fold (get "policy" (filter (λ e, e.1 ≠ "policy") fd)) (get "policy" fd).
  rewrite get_without_same.
  assert (effectivePolicy (get "policy" fd) = effectivePolicy None) as ->; [|done].
  unfold effectivePolicy. simpl.
  destruct (truthyString (get "policy" fd)) as [text|]; [|done].
  simpl in Hbad. by rewrite Hbad.
Qed.

Lemma POST_unusable_policy_is_no_policy_witness :
  @POST scratch_runtime (request_of garbled_policy_form) module_world
  = @POST scratch_runtime default_request module_world.
Proof.
  refine (@POST_unusable_policy_is_no_policy scratch_runtime garbled_policy_form
            module_world _).
  by vm_compute.
Defined.

Lemma pretty_N_go_head (x : N) (s : string) :
  (0 < x)%N →
  ∃ c rest, pretty_N_go x s = String c rest ∧ JsonText.is_digit c = true.
Proof.
  revert s. induction (N.lt_wf_0 x) as [x _ IH]; intros s Hpos.
  rewrite pretty_N_go_step by done.
  destruct (decide (x `div` 10 = 0)%N) as [->|Hdiv].
  - rewrite pretty_N_go_0. eexists _, _. split; [done|].
    unfold pretty_N_char. by repeat case_match.
  - apply IH; [apply N.div_lt; lia|by apply N.neq_0_lt_0].
Qed.

Lemma index_key_head (i : nat) :
  ∃ c rest, index_key i = String c rest ∧ JsonText.is_digit c = true.
Proof.
  unfold index_key, pretty, pretty_nat, pretty, pretty_N.
  case_decide as Hi; [eexists _, _; split; reflexivity|].
  apply pretty_N_go_head. lia.
Qed.

Lemma index_key_not_policy_key (i : nat) k : k ∈ policyKeys → index_key i ≠ k.
Proof.
  intros Hk Heq. destruct (index_key_head i) as (c&rest&Hi&Hc).
  rewrite Heq in Hi. unfold policyKeys in Hk.
  repeat (apply elem_of_cons in Hk as [->|Hk]; [by injection Hi as <- _|]).
  by apply elem_of_nil in Hk.
Qed.

Lemma assoc_last_indexed {A B} (f : nat → A → B) (xs : list A) (n : nat) k :
  (∀ i, index_key i ≠ k) →
  assoc_last k (imap (λ i x, (index_key (n + i), f i x)) xs) = None.
Proof.
  intros Hk. apply assoc_last_None. intros ((k'&v)&->&Hin)%list_elem_of_fmap.
  apply list_elem_of_lookup in Hin as [i Hi].
  rewrite list_lookup_imap in Hi. destruct (xs !! i); simplify_eq/=.
  by eapply Hk.
Qed.

Lemma non_object_keyless (parsed : json) :
  (∀ members, parsed ≠ JObj members) → keyless parsed.
Proof.
  intros Hno k Hk.
  assert (∀ i, index_key i ≠ k) as Hidx
    by (intros i; by apply index_key_not_policy_key).
  destruct parsed as [|b|m e|s|items|members]; simpl; try done.
  - by apply (assoc_last_indexed (λ _ c, VJson (JStr (String c EmptyString))) _ 0).
  - by apply (assoc_last_indexed (λ _ x, VJson x) _ 0).
  - by destruct (Hno members).
Qed.

Lemma val_strings_alloc (σ : store) l o v xs :
  σ !! l = None → val_strings σ v = Some xs → val_strings (<[l := o]> σ) v = Some xs.
Proof.
  intros Hfresh Hv. destruct v as [[j|l']|]; simpl in *; try done.
  destruct (decide (l' = l)) as [->|Hne]; [by rewrite Hfresh in Hv|].
  by rewrite lookup_insert_ne.
Qed.

Lemma asEligibilityPolicy_copy (σ : store) l props fb pol :
  σ !! l = None →
  σ !! FALLBACK_POLICY = Some (SObject fb) →
  (∀ k, k ∈ policyKeys → props !! k = fb !! k) →
  asEligibilityPolicy σ (VRef FALLBACK_POLICY) = Some pol →
  asEligibilityPolicy (<[l := SObject props]> σ) (VRef l) = Some pol.
Proof.
  intros Hfresh Hfb Hsame Hpol. unfold asEligibilityPolicy, objectProps in *.
  rewrite Hfb in Hpol. rewrite lookup_insert_eq. simpl in *.
  rewrite !Hsame by (unfold policyKeys; set_solver).
  destruct (val_int (fb !! "minPassportValidityDays")) as [days|]; [|done].
  destruct (val_int (fb !! "minApplicantAge")) as [age|]; [|done]. simpl in *.
  destruct (val_strings σ (fb !! "supportedVisaTypes")) as [visas|] eqn:Hv; [|done].
  rewrite (val_strings_alloc _ _ _ _ _ Hfresh Hv). simpl in *.
  destruct (val_strings σ (fb !! "blacklistedNationalities")) as [bl|] eqn:Hb; [|done].
  rewrite (val_strings_alloc _ _ _ _ _ Hfresh Hb). simpl in *.
  done.
Qed.

(** X4.  A policy payload that is JSON but has none of the six policy keys
    reaches the engine as a fresh object (not the constant) that reads, field
    by field, as the fallback policy.  This covers every payload that is
    not an object: [null], a number, a boolean, a string and an array only
    add properties named by an index. *)
Theorem keyless_policy_reads_as_fallback `{Runtime}
    (raw : option FormDataEntryValue) (text : string) (parsed : json) (w : World)
    (pol : EligibilityPolicy.t) :
  truthyString raw = Some text →
  JSON_parse text = Some parsed →
  keyless parsed ∨ (∀ members, parsed ≠ JObj members) →
  asEligibilityPolicy (heap w) (VRef FALLBACK_POLICY) = Some pol →
  ∃ l w1,
    effectivePolicy raw w = (Normal (VRef l), w1)
    ∧ l ≠ FALLBACK_POLICY
    ∧ asEligibilityPolicy (heap w1) (VRef l) = Some pol.
Proof.
  intros Ht Hp Hkeyless Hpol.
  assert (keyless parsed) as Hk
    by (destruct Hkeyless; [done|by apply non_object_keyless]).
  assert (∃ fb, heap w !! FALLBACK_POLICY = Some (SObject fb)) as [fb Hfb].
  { unfold asEligibilityPolicy, objectProps in Hpol.
    destruct (heap w !! FALLBACK_POLICY) as [[fb|?]|]; try done. by exists fb. }
  pose proof (effectivePolicy_spec raw w fb Hfb) as Hspec.
  rewrite Ht in Hspec. simpl in Hspec. rewrite Hp in Hspec.
  destruct Hspec as (l&props&w1&Heff&Hfresh&Hl&Hprops).
  exists l, w1. split; [done|]. split.
  { intros ->. apply Hfresh. apply elem_of_dom. by eexists. }
  destruct (effectivePolicy_cases raw w) as [Hc|(text'&parsed'&_&_&Hc)];
    rewrite Heff in Hc; [injection Hc as -> ->; exfalso; apply Hfresh, elem_of_dom; by eexists|].
  injection Hc as -> ->. simpl in *.
  rewrite lookup_insert_eq in Hl. injection Hl as <-.
  eapply asEligibilityPolicy_copy; [|done| |done].
  - apply not_elem_of_dom, is_fresh.
  - intros k Hkey. rewrite Hprops. by rewrite (Hk k Hkey).
Qed.

Lemma keyless_policy_reads_as_fallback_witness :
  ∃ l w1,
    @effectivePolicy scratch_runtime (Some (EntryString "[1, 2]")) module_world
      = (Normal (VRef l), w1)
    ∧ l ≠ FALLBACK_POLICY
    ∧ asEligibilityPolicy (heap w1) (VRef l)
      = Some (EligibilityPolicy.mk 180 18 ["tourist"; "business"; "student"] []
                true true).
Proof.
  refine (@keyless_policy_reads_as_fallback scratch_runtime
            (Some (EntryString "[1, 2]")) "[1, 2]" (JArr [jint 1; jint 2]) module_world
            _ _ _ _ _).
  - reflexivity.
  - by vm_compute.
  - right. intros members. discriminate.
  - by vm_compute.
Defined.

(** *** One policy object per request *)

Lemma requestPolicies_app t1 t2 :
  requestPolicies (t1 ++ t2) = requestPolicies t1 ++ requestPolicies t2.
Proof. apply omap_app. Qed.

Lemma handled_policies `{Runtime} req w resp w' :
  engine_readonly → handled req w resp w' →
  dom (heap w) ⊆ dom (heap w') ∧
  ∃ ls, requestPolicies (trace w') = requestPolicies (trace w) ++ ls
        ∧ (length ls ≤ 1)%nat
        ∧ ∀ l, l ∈ ls → (l ∉ dom (heap w)) ∧ l ∈ dom (heap w').
Proof.
  intros Hro Hh. split.
  { apply dom_lookup_mono. by eapply handled_frame. }
  assert (∀ raw p w1 files a c σ2,
            effectivePolicy raw w = (Normal p, w1) →
            verifyDocuments files a p (heap w1) = (c, σ2) →
            trace w1 = trace w ∧
            ∃ ls, requestPolicies [VerifyCall files a p] = ls ∧ (length ls ≤ 1)%nat
                  ∧ ∀ l, l ∈ ls → (l ∉ dom (heap w)) ∧ l ∈ dom σ2) as Hpol.
  { intros raw p w1 files a c σ2 Hp Hv.
    destruct (effectivePolicy_frame raw w) as (p'&w1'&Hp'&Ht&_&Hcase).
    rewrite Hp in Hp'. injection Hp' as <- <-. split; [done|].
    destruct Hcase as [[-> _]|(l&->&Hfresh&Hin)].
    - exists []. split_and!; [reflexivity|simpl; lia|].
      intros l Hl. by apply elem_of_nil in Hl.
    - simpl. case_decide.
      + exists []. split_and!; [done|simpl; lia|]. intros l' Hl'. by apply elem_of_nil in Hl'.
      + exists [l]. split_and!; [done|simpl; lia|].
        intros l' ->%list_elem_of_singleton. split; [done|].
        apply (dom_lookup_mono (heap w1) σ2); [by eapply Hro|].
        by apply elem_of_dom. }
  destruct Hh as [e ?|fd ? ?|fd ? ? ?|fd text ? ? ? ?
                 |fd text a p w1 r σ2 ? ? ? ? Hp Hv|fd text a p w1 e σ2 ? ? ? ? Hp Hv];
    simpl.
  - exists []. rewrite requestPolicies_app.
    split_and!; [done|simpl; lia|]. intros l Hl. by apply elem_of_nil in Hl.
  - exists []. rewrite app_nil_r. split_and!; [done|simpl; lia|].
    intros l Hl. by apply elem_of_nil in Hl.
  - exists []. rewrite app_nil_r. split_and!; [done|simpl; lia|].
    intros l Hl. by apply elem_of_nil in Hl.
  - exists []. rewrite app_nil_r. split_and!; [done|simpl; lia|].
    intros l Hl. by apply elem_of_nil in Hl.
  - destruct (Hpol _ _ _ _ _ _ _ Hp Hv) as (Ht&ls&Hls&Hlen&Hfr).
    exists ls. rewrite requestPolicies_app, Ht, Hls. done.
  - destruct (Hpol _ _ _ _ _ _ _ Hp Hv) as (Ht&ls&Hls&Hlen&Hfr).
    exists ls. unfold logged. simpl.
    rewrite !requestPolicies_app, Ht, Hls. simpl. by rewrite app_nil_r.
Qed.

Lemma serve_policies `{Runtime} reqs w :
  engine_readonly →
  NoDup (requestPolicies (trace w)) →
  (∀ l, l ∈ requestPolicies (trace w) → l ∈ dom (heap w)) →
  let w' := (serve reqs w).2 in
  NoDup (requestPolicies (trace w'))
  ∧ (∀ l, l ∈ requestPolicies (trace w') → l ∈ dom (heap w'))
  ∧ dom (heap w) ⊆ dom (heap w')
  ∧ ∃ ls, requestPolicies (trace w') = requestPolicies (trace w) ++ ls
          ∧ ∀ l, l ∈ ls → l ∉ dom (heap w).
Proof.
  intros Hro. revert w.
  induction reqs as [|req reqs IH]; intros w Hnd Hin; simpl.
  { split_and!; [done|done|done|]. exists []. rewrite app_nil_r. split; [done|].
    intros l Hl. by apply elem_of_nil in Hl. }
  destruct (POST_handled req w) as (resp&w1&HP&Hh). rewrite HP.
  destruct (handled_policies _ _ _ _ Hro Hh) as (Hdom&ls&Hls&Hlen&Hfr).
  assert (NoDup (requestPolicies (trace w1))) as Hnd1.
  { rewrite Hls. apply NoDup_app. split_and!; [done| |].
    - intros l Hl Hl'. apply (Hfr l) in Hl'. destruct Hl' as [Hn _]. apply Hn. by apply Hin.
    - destruct ls as [|l [|l' ls]]; [constructor| |simpl in Hlen; lia].
      apply NoDup_singleton. }
  assert (∀ l, l ∈ requestPolicies (trace w1) → l ∈ dom (heap w1)) as Hin1.
  { intros l. rewrite Hls. intros [Hl|Hl]%elem_of_app.
    - apply Hdom. by apply Hin.
    - by apply Hfr. }
  specialize (IH w1 Hnd1 Hin1). simpl in IH.
  destruct (serve reqs w1) as [rs w2]. simpl in *.
  destruct IH as (Hnd2&Hin2&Hdom2&ls2&Hls2&Hfr2).
  split_and!; [done|done|by etrans|].
  exists (ls ++ ls2). rewrite Hls2, Hls, app_assoc. split; [done|].
  intros l [Hl|Hl]%elem_of_app.
  - by apply Hfr.
  - intros Hd. apply (Hfr2 l Hl). by apply Hdom.
Qed.

(** X5.  Over any sequence of requests served by one module instance whose
    engine treats its inputs as read-only, the policy objects built for
    requests are pairwise distinct, and none of them is an object that
    existed before the sequence started: apart from the module constant, no
    policy object is ever handed to the engine twice. *)
Theorem request_policies_never_shared `{Runtime} (reqs : list NextRequest) (w : World) :
  engine_readonly →
  NoDup (requestPolicies (trace w)) →
  (∀ l, l ∈ requestPolicies (trace w) → l ∈ dom (heap w)) →
  ∃ ls,
    requestPolicies (trace (serve reqs w).2) = requestPolicies (trace w) ++ ls
    ∧ NoDup (requestPolicies (trace w) ++ ls)
    ∧ (∀ l, l ∈ ls → (l ∉ dom (heap w)) ∧ l ≠ FALLBACK_POLICY
                     ∧ l ∈ dom (heap (serve reqs w).2)).
Proof.
  intros Hro Hnd Hin.
  destruct (serve_policies reqs w Hro Hnd Hin) as (Hnd'&Hin'&_&ls&Hls&Hfr).
  exists ls. split_and!; [done|by rewrite <- Hls|].
  intros l Hl. split_and!; [by apply Hfr| |].
  - assert (l ∈ requestPolicies (trace (serve reqs w).2)) as Hl'.
    { rewrite Hls. apply elem_of_app. by right. }
    unfold requestPolicies in Hl'. apply list_elem_of_omap in Hl'.
    destruct Hl' as (ev&_&Hev). destruct ev as [msg e|fs a [j|l']]; try done.
    simpl in Hev.
    case_decide; [done|]. congruence.
  - apply Hin'. rewrite Hls. apply elem_of_app. by right.
Qed.

Lemma request_policies_never_shared_witness :
  ∃ l1 l2,
    requestPolicies
      (trace (@serve scratch_runtime
                [ill_typed_policy_request; default_request; ill_typed_policy_request]
                module_world).2) = [] ++ [l1; l2]
    ∧ l1 ≠ l2.
Proof.
  destruct (@request_policies_never_shared scratch_runtime
              [ill_typed_policy_request; default_request; ill_typed_policy_request]
              module_world scratch_engine_readonly)
    as (ls&Hls&Hnd&_).
  - constructor.
  - intros l Hl. by apply elem_of_nil in Hl.
  - exists 4%positive, 7%positive. split; [by vm_compute|done].
Defined.

(** ** The page *)

Import Page.

(** *** Removing a listed file *)

Lemma filter_all {A} (P : A → Prop) `{∀ x, Decision (P x)} (l : list A) :
  Forall P l → filter P l = l.
Proof.
  induction 1 as [|x l Hx Hl IH]; [done|].
  rewrite filter_cons, decide_True by done. by rewrite IH.
Qed.

Lemma remove_unique_name (file : File.t) (docs : list File.t) :
  NoDup (File.name <$> docs) → file ∈ docs →
  length docs = S (length (filter (λ c, File.name c ≠ File.name file) docs)).
Proof.
  induction docs as [|c docs IH]; intros Hnd Hin.
  { by apply elem_of_nil in Hin. }
  rewrite fmap_cons in Hnd. apply NoDup_cons in Hnd as [Hc Hnd].
  rewrite filter_cons.
  apply elem_of_cons in Hin as [->|Hin].
  - rewrite decide_False by (intros Hn; by apply Hn).
    rewrite filter_all; [done|].
    apply Forall_forall. intros g Hg Heq. apply Hc. rewrite <- Heq.
    apply list_elem_of_fmap. by exists g.
  - rewrite decide_True.
    + simpl. by rewrite <- IH.
    + intros Heq. apply Hc. rewrite Heq. apply list_elem_of_fmap. by exists file.
Qed.

(** X6.  The Remove button of a listed file removes by name: afterwards the
    list holds exactly the files with another name, in their order, so every
    file that shares the name goes with it; the list gets shorter, by exactly
    one when no two listed files share a name; nothing else of the state
    changes. *)
Theorem removeDocument_by_name (file : File.t) (st : State) :
  file ∈ documents st →
  let st' := removeDocument (File.name file) st in
  (∀ g, g ∈ documents st' ↔ g ∈ documents st ∧ File.name g ≠ File.name file)
  ∧ documents st' `sublist_of` documents st
  ∧ (length (documents st') < length (documents st))%nat
  ∧ (NoDup (File.name <$> documents st) →
     length (documents st) = S (length (documents st')))
  ∧ applicant st' = applicant st ∧ policy st' = policy st
  ∧ submitting st' = submitting st ∧ error st' = error st ∧ result st' = result st.
Proof.
  intros Hin. simpl. split_and!; try done.
  - intros g. rewrite list_elem_of_filter. tauto.
  - apply sublist_filter.
  - induction (documents st) as [|c docs IH]; [by apply elem_of_nil in Hin|].
    rewrite filter_cons. apply elem_of_cons in Hin as [->|Hin].
    + rewrite decide_False by (intros Hn; by apply Hn).
      apply Nat.lt_succ_r, length_filter.
    + specialize (IH Hin). case_decide; simpl; lia.
  - intros Hnd. by apply remove_unique_name.
Qed.

Lemma removeDocument_by_name_witness :
  File.mk "scan.png" 10 ∈ documents duplicate_names
  ∧ File.mk "scan.png" 30 ∉ documents (removeDocument "scan.png" duplicate_names).
Proof.
  assert (File.mk "scan.png" 10 ∈ documents duplicate_names) as Hin by constructor.
  split; [done|].
  destruct (removeDocument_by_name (File.mk "scan.png" 10) duplicate_names Hin)
    as (Hiff&_).
  intros Hg. apply Hiff in Hg as [_ Hne]. by apply Hne.
Defined.

(** *** The two list inputs *)

Module ListInput.
Import JsString.

Lemma trimStart_clean cs : startsClean (trimStart cs).
Proof.
  induction cs as [|c cs IH]; simpl; [done|].
  destruct (isSpace c) eqn:Hc; [done|]. simpl. done.
Qed.

Lemma trimStart_id cs : startsClean cs → trimStart cs = cs.
Proof. destruct cs as [|c cs]; simpl; [done|]. by intros ->. Qed.

Lemma trimStart_suffix cs : ∃ k, cs = k ++ trimStart cs.
Proof.
  induction cs as [|c cs [k IH]]; simpl; [by exists []|].
  destruct (isSpace c); [|by exists []].
  exists (c :: k). simpl. by rewrite <- IH.
Qed.

Lemma startsClean_prefix (x y : list ascii) :
  startsClean (x ++ y) → startsClean x.
Proof. by destruct x. Qed.

Lemma trimChars_trimmed cs :
  startsClean (trimChars cs) ∧ startsClean (reverse (trimChars cs)).
Proof.
  unfold trimChars. rewrite reverse_involutive. split; [|apply trimStart_clean].
  destruct (trimStart_suffix (reverse (trimStart cs))) as [k Hk].
  apply (f_equal reverse) in Hk. rewrite reverse_involutive, reverse_app in Hk.
  apply (startsClean_prefix _ (reverse k)). rewrite <- Hk. apply trimStart_clean.
Qed.

Lemma trimChars_id cs :
  startsClean cs → startsClean (reverse cs) → trimChars cs = cs.
Proof.
  intros H1 H2. unfold trimChars.
  by rewrite (trimStart_id cs), (trimStart_id (reverse cs)), reverse_involutive.
Qed.

Lemma trimChars_idemp cs : trimChars (trimChars cs) = trimChars cs.
Proof. destruct (trimChars_trimmed cs). by apply trimChars_id. Qed.

Lemma trimChars_elem c cs : c ∈ trimChars cs → c ∈ cs.
Proof.
  unfold trimChars. rewrite elem_of_reverse. intros Hc.
  destruct (trimStart_suffix (reverse (trimStart cs))) as [k Hk].
  assert (c ∈ reverse (trimStart cs)) as Hc'.
  { rewrite Hk. apply elem_of_app. by right. }
  rewrite elem_of_reverse in Hc'.
  destruct (trimStart_suffix cs) as [k' Hk']. rewrite Hk'.
  apply elem_of_app. by right.
Qed.

Lemma trimChars_space c cs : isSpace c = true → trimChars (c :: cs) = trimChars cs.
Proof. intros Hc. unfold trimChars. simpl. by rewrite Hc. Qed.

Lemma trimStart_snoc_space c cs :
  isSpace c = true →
  trimStart (cs ++ [c]) =
    match trimStart cs with [] => [] | _ :: _ => trimStart cs ++ [c] end.
Proof.
  intros Hc. induction cs as [|d cs IH]; simpl.
  - by rewrite Hc.
  - destruct (isSpace d); [done|]. done.
Qed.

Lemma trimChars_snoc_space c cs :
  isSpace c = true → trimChars (cs ++ [c]) = trimChars cs.
Proof.
  intros Hc. unfold trimChars. rewrite (trimStart_snoc_space c cs Hc).
  destruct (trimStart cs) as [|d ds]; [done|].
  rewrite reverse_app, reverse_singleton. simpl. by rewrite Hc.
Qed.

(** **** Splitting *)

Lemma splitChars_cons sep cs : ∃ piece pieces, splitChars sep cs = piece :: pieces.
Proof.
  induction cs as [|c cs (p&ps&IH)]; simpl; [by eexists _, _|].
  destruct (Ascii.eqb c sep); [by eexists _, _|]. rewrite IH. by eexists _, _.
Qed.

Lemma splitChars_no_sep sep cs piece :
  piece ∈ splitChars sep cs → sep ∉ piece.
Proof.
  revert piece. induction cs as [|c cs IH]; simpl; intros piece.
  - intros ->%list_elem_of_singleton. apply not_elem_of_nil.
  - destruct (Ascii.eqb_spec c sep) as [->|Hne].
    + intros [->|Hin]%elem_of_cons; [apply not_elem_of_nil|by apply IH].
    + destruct (splitChars_cons sep cs) as (p&ps&Hs). rewrite Hs in *.
      intros [->|Hin]%elem_of_cons.
      * apply not_elem_of_cons. split; [done|]. apply IH. by left.
      * apply IH. by right.
Qed.

Lemma splitChars_app sep a b :
  splitChars sep (a ++ sep :: b) = splitChars sep a ++ splitChars sep b.
Proof.
  induction a as [|c a IH]; simpl.
  - by rewrite Ascii.eqb_refl.
  - destruct (Ascii.eqb c sep); [by rewrite IH|].
    rewrite IH. destruct (splitChars_cons sep a) as (p&ps&->). done.
Qed.

Lemma splitChars_whole sep cs : sep ∉ cs → splitChars sep cs = [cs].
Proof.
  induction cs as [|c cs IH]; simpl; [done|].
  intros [Hc Hcs]%not_elem_of_cons.
  destruct (Ascii.eqb_spec c sep) as [->|_]; [done|]. by rewrite IH.
Qed.

Lemma splitChars_snoc sep cs c :
  c ≠ sep →
  ∃ pieces piece,
    splitChars sep cs = pieces ++ [piece]
    ∧ splitChars sep (cs ++ [c]) = pieces ++ [piece ++ [c]].
Proof.
  intros Hc. induction cs as [|d cs (ps&p&IH1&IH2)]; simpl.
  - destruct (Ascii.eqb_spec c sep) as [->|_]; [done|]. by exists [], [].
  - destruct (Ascii.eqb d sep).
    + exists ([] :: ps), p. by rewrite IH1, IH2.
    + rewrite IH1, IH2. destruct ps as [|q ps]; simpl.
      * by exists [], (d :: p).
      * by exists ((d :: q) :: ps), p.
Qed.

(** **** The parser on characters *)

Section parse.
Variable normChar : ascii → ascii.
Hypothesis norm_space : ∀ c, isSpace (normChar c) = isSpace c.
Hypothesis norm_idemp : ∀ c, normChar (normChar c) = normChar c.
Hypothesis norm_comma : ∀ c, normChar c = comma → c = comma.

Lemma trimStart_norm cs : trimStart (normChar <$> cs) = normChar <$> trimStart cs.
Proof.
  induction cs as [|c cs IH]; simpl; [done|].
  rewrite norm_space. by destruct (isSpace c).
Qed.

Lemma trimChars_norm cs : trimChars (normChar <$> cs) = normChar <$> trimChars cs.
Proof.
  unfold trimChars.
  by rewrite trimStart_norm, <- fmap_reverse, trimStart_norm, fmap_reverse.
Qed.

Lemma parseChars_stored cs :
  Forall (storedChars normChar) (parseChars normChar cs).
Proof.
  apply Forall_forall. intros item.
  unfold parseChars. rewrite list_elem_of_filter, list_elem_of_fmap.
  intros (Hne&piece&->&Hin). split_and!.
  - done.
  - intros (c&Hc&Hin')%list_elem_of_fmap. symmetry in Hc. apply norm_comma in Hc as ->.
    apply trimChars_elem in Hin'. by apply (splitChars_no_sep _ _ _ Hin).
  - by rewrite trimChars_norm, trimChars_idemp.
  - rewrite <- list_fmap_compose. apply list_fmap_ext. intros i c _. apply norm_idemp.
Qed.

Lemma parseChars_app a b :
  parseChars normChar (a ++ comma :: b)
  = parseChars normChar a ++ parseChars normChar b.
Proof. unfold parseChars. by rewrite splitChars_app, fmap_app, filter_app. Qed.

Lemma parseChars_nil : parseChars normChar [] = [].
Proof. done. Qed.

Lemma parseChars_space c cs :
  isSpace c = true → parseChars normChar (c :: cs) = parseChars normChar cs.
Proof.
  intros Hc. unfold parseChars. simpl.
  assert (c ≠ comma) as Hne by (intros ->; done).
  destruct (Ascii.eqb_spec c comma) as [|_]; [done|].
  destruct (splitChars_cons comma cs) as (p&ps&->).
  by rewrite !fmap_cons, trimChars_space.
Qed.

Lemma parseChars_snoc_space c cs :
  isSpace c = true → parseChars normChar (cs ++ [c]) = parseChars normChar cs.
Proof.
  intros Hc. unfold parseChars.
  assert (c ≠ comma) as Hne by (intros ->; done).
  destruct (splitChars_snoc comma cs c Hne) as (ps&p&->&->).
  by rewrite !fmap_app, !fmap_cons, trimChars_snoc_space.
Qed.

Lemma parseChars_item item :
  storedChars normChar item → parseChars normChar item = [item].
Proof.
  intros (Hne&Hc&Ht&Hn). unfold parseChars.
  rewrite splitChars_whole by done. simpl. rewrite Ht, Hn.
  by rewrite filter_cons, decide_True.
Qed.

Lemma parseChars_join items :
  Forall (storedChars normChar) items →
  parseChars normChar (joinChars [comma; " "%char] items) = items.
Proof.
  induction 1 as [|item items Hitem _ IH]; [done|].
  destruct items as [|next items]; [by apply parseChars_item|].
  change (joinChars [comma; " "%char] (item :: next :: items))
    with (item ++ comma :: " "%char :: joinChars [comma; " "%char] (next :: items)).
  rewrite parseChars_app, parseChars_item, parseChars_space by done.
  by rewrite IH.
Qed.

End parse.

Lemma lowerChar_space c : isSpace (lowerChar c) = isSpace c.
Proof. by destruct c as [[] [] [] [] [] [] [] []]. Qed.
Lemma lowerChar_idemp c : lowerChar (lowerChar c) = lowerChar c.
Proof. by destruct c as [[] [] [] [] [] [] [] []]. Qed.
Lemma lowerChar_comma c : lowerChar c = comma → c = comma.
Proof. by destruct c as [[] [] [] [] [] [] [] []]. Qed.
Lemma upperChar_space c : isSpace (upperChar c) = isSpace c.
Proof. by destruct c as [[] [] [] [] [] [] [] []]. Qed.
Lemma upperChar_idemp c : upperChar (upperChar c) = upperChar c.
Proof. by destruct c as [[] [] [] [] [] [] [] []]. Qed.
Lemma upperChar_comma c : upperChar c = comma → c = comma.
Proof. by destruct c as [[] [] [] [] [] [] [] []]. Qed.

End ListInput.

(** **** The parser on strings *)

Lemma chars_of_string_of_chars cs :
  list_ascii_of_string (string_of_list_ascii cs) = cs.
Proof. apply list_ascii_of_string_of_list_ascii. Qed.

Lemma string_of_chars_of_string s :
  string_of_list_ascii (list_ascii_of_string s) = s.
Proof. apply string_of_list_ascii_of_string. Qed.

Lemma string_of_chars_inj cs1 cs2 :
  string_of_list_ascii cs1 = string_of_list_ascii cs2 → cs1 = cs2.
Proof.
  intros Heq. apply (f_equal list_ascii_of_string) in Heq.
  by rewrite !chars_of_string_of_chars in Heq.
Qed.

Lemma truthy_chars cs : JsString.truthy (string_of_list_ascii cs) = true ↔ cs ≠ [].
Proof. by destruct cs. Qed.

Lemma filter_fmap_iff {A B} (f : A → B) (P : B → Prop) (Q : A → Prop)
    `{∀ x, Decision (P x)} `{∀ x, Decision (Q x)} (l : list A) :
  (∀ x, Q x ↔ P (f x)) → filter P (f <$> l) = f <$> filter Q l.
Proof.
  intros HPQ. induction l as [|x l IH]; [done|].
  rewrite fmap_cons, !filter_cons, IH.
  destruct (decide (Q x)) as [HQ|HQ].
  - rewrite decide_True by by apply HPQ. done.
  - rewrite decide_False; [done|]. intros HP. by apply HQ, HPQ.
Qed.

Lemma parseList_lower value :
  parseList JsString.toLowerCase value =
    string_of_list_ascii <$> parseChars JsString.lowerChar (list_ascii_of_string value).
Proof.
  unfold parseList, parseChars, JsString.split.
  rewrite <- list_fmap_compose.
  rewrite <- (filter_fmap_iff string_of_list_ascii
                (λ item, JsString.truthy item = true) (λ item, item ≠ [])).
  - f_equal. rewrite <- list_fmap_compose. apply list_fmap_ext. intros i piece _. simpl.
    unfold JsString.toLowerCase, JsString.trim.
    by rewrite !chars_of_string_of_chars.
  - intros cs. by rewrite truthy_chars.
Qed.

Lemma parseList_upper value :
  parseList JsString.toUpperCase value =
    string_of_list_ascii <$> parseChars JsString.upperChar (list_ascii_of_string value).
Proof.
  unfold parseList, parseChars, JsString.split.
  rewrite <- list_fmap_compose.
  rewrite <- (filter_fmap_iff string_of_list_ascii
                (λ item, JsString.truthy item = true) (λ item, item ≠ [])).
  - f_equal. rewrite <- list_fmap_compose. apply list_fmap_ext. intros i piece _. simpl.
    unfold JsString.toUpperCase, JsString.trim.
    by rewrite !chars_of_string_of_chars.
  - intros cs. by rewrite truthy_chars.
Qed.

Lemma storedItem_lower item :
  storedItem JsString.toLowerCase item ↔
  storedChars JsString.lowerChar (list_ascii_of_string item).
Proof.
  unfold storedItem, storedChars, JsString.toLowerCase, JsString.trim.
  split; intros (H1&H2&H3&H4); split_and!; try done.
  - intros Hnil. apply H1. by rewrite <- (string_of_chars_of_string item), Hnil.
  - apply string_of_chars_inj. by rewrite H3, string_of_chars_of_string.
  - apply string_of_chars_inj. by rewrite H4, string_of_chars_of_string.
  - intros ->. by apply H1.
  - by rewrite H3, string_of_chars_of_string.
  - by rewrite H4, string_of_chars_of_string.
Qed.

Lemma storedItem_upper item :
  storedItem JsString.toUpperCase item ↔
  storedChars JsString.upperChar (list_ascii_of_string item).
Proof.
  unfold storedItem, storedChars, JsString.toUpperCase, JsString.trim.
  split; intros (H1&H2&H3&H4); split_and!; try done.
  - intros Hnil. apply H1. by rewrite <- (string_of_chars_of_string item), Hnil.
  - apply string_of_chars_inj. by rewrite H3, string_of_chars_of_string.
  - apply string_of_chars_inj. by rewrite H4, string_of_chars_of_string.
  - intros ->. by apply H1.
  - by rewrite H3, string_of_chars_of_string.
  - by rewrite H4, string_of_chars_of_string.
Qed.

Lemma parseList_lower_stored value :
  Forall (storedItem JsString.toLowerCase) (parseList JsString.toLowerCase value).
Proof.
  rewrite parseList_lower. apply Forall_fmap.
  eapply Forall_impl.
  - apply (ListInput.parseChars_stored JsString.lowerChar);
      [apply ListInput.lowerChar_space|apply ListInput.lowerChar_idemp
      |apply ListInput.lowerChar_comma].
  - intros cs Hcs. simpl. apply storedItem_lower. by rewrite chars_of_string_of_chars.
Qed.

Lemma parseList_upper_stored value :
  Forall (storedItem JsString.toUpperCase) (parseList JsString.toUpperCase value).
Proof.
  rewrite parseList_upper. apply Forall_fmap.
  eapply Forall_impl.
  - apply (ListInput.parseChars_stored JsString.upperChar);
      [apply ListInput.upperChar_space|apply ListInput.upperChar_idemp
      |apply ListInput.upperChar_comma].
  - intros cs Hcs. simpl. apply storedItem_upper. by rewrite chars_of_string_of_chars.
Qed.

Lemma join_chars items :
  list_ascii_of_string (JsString.join ", " items) =
    JsString.joinChars [JsString.comma; " "%char] (list_ascii_of_string <$> items).
Proof. unfold JsString.join. by rewrite chars_of_string_of_chars. Qed.

Lemma chars_app (s1 s2 : string) :
  list_ascii_of_string (s1 +:+ s2) = list_ascii_of_string s1 ++ list_ascii_of_string s2.
Proof. induction s1 as [|c s1 IH]; simpl; [done|]. by rewrite IH. Qed.

Lemma strings_of_chars (items : list string) :
  string_of_list_ascii <$> (list_ascii_of_string <$> items) = items.
Proof.
  rewrite <- list_fmap_compose. rewrite <- (list_fmap_id items) at 2.
  apply list_fmap_ext. intros i s _. apply string_of_chars_of_string.
Qed.

(** What a list input shows parses back to the list, also with text typed
    after it that is a comma or white space. *)
Lemma parseList_lower_shown items (suffix : list ascii) :
  Forall (storedItem JsString.toLowerCase) items →
  suffix = [] ∨ suffix = [JsString.comma] ∨
    (∃ c, suffix = [c] ∧ JsString.isSpace c = true) →
  parseList JsString.toLowerCase
    (JsString.join ", " items +:+ string_of_list_ascii suffix) = items.
Proof.
  intros Hst Hsuf. rewrite parseList_lower, chars_app, join_chars, chars_of_string_of_chars.
  assert (Forall (storedChars JsString.lowerChar) (list_ascii_of_string <$> items)) as Hch.
  { apply Forall_fmap. eapply Forall_impl; [done|]. intros s Hs. by apply storedItem_lower. }
  pose proof (ListInput.parseChars_join JsString.lowerChar _ Hch) as Hjoin.
  destruct Hsuf as [->|[->|(c&->&Hc)]].
  - by rewrite app_nil_r, Hjoin, strings_of_chars.
  - rewrite ListInput.parseChars_app, Hjoin. simpl.
    by rewrite app_nil_r, strings_of_chars.
  - rewrite ListInput.parseChars_snoc_space, Hjoin by done. by rewrite strings_of_chars.
Qed.

Lemma parseList_upper_shown items (suffix : list ascii) :
  Forall (storedItem JsString.toUpperCase) items →
  suffix = [] ∨ suffix = [JsString.comma] ∨
    (∃ c, suffix = [c] ∧ JsString.isSpace c = true) →
  parseList JsString.toUpperCase
    (JsString.join ", " items +:+ string_of_list_ascii suffix) = items.
Proof.
  intros Hst Hsuf. rewrite parseList_upper, chars_app, join_chars, chars_of_string_of_chars.
  assert (Forall (storedChars JsString.upperChar) (list_ascii_of_string <$> items)) as Hch.
  { apply Forall_fmap. eapply Forall_impl; [done|]. intros s Hs. by apply storedItem_upper. }
  pose proof (ListInput.parseChars_join JsString.upperChar _ Hch) as Hjoin.
  destruct Hsuf as [->|[->|(c&->&Hc)]].
  - by rewrite app_nil_r, Hjoin, strings_of_chars.
  - rewrite ListInput.parseChars_app, Hjoin. simpl.
    by rewrite app_nil_r, strings_of_chars.
  - rewrite ListInput.parseChars_snoc_space, Hjoin by done. by rewrite strings_of_chars.
Qed.

Lemma append_empty (s : string) : s +:+ "" = s.
Proof.
  induction s as [|c s IH]; [done|].
  change (String c (s +:+ "") = String c s). by rewrite IH.
Qed.


(** *** Sessions of the page *)

Lemma toUpperCase_idemp s :
  JsString.toUpperCase (JsString.toUpperCase s) = JsString.toUpperCase s.
Proof.
  unfold JsString.toUpperCase. rewrite chars_of_string_of_chars, <- list_fmap_compose.
  f_equal. apply list_fmap_ext. intros i c _. apply ListInput.upperChar_idemp.
Qed.

Lemma toLowerCase_idemp s :
  JsString.toLowerCase (JsString.toLowerCase s) = JsString.toLowerCase s.
Proof.
  unfold JsString.toLowerCase. rewrite chars_of_string_of_chars, <- list_fmap_compose.
  f_equal. apply list_fmap_ext. intros i c _. apply ListInput.lowerChar_idemp.
Qed.

Lemma initial_normalised : normalised initial.
Proof.
  split_and!; try done.
  - change (EligibilityPolicy.supportedVisaTypes (policy initial))
      with (parseList JsString.toLowerCase "tourist,business,student").
    apply parseList_lower_stored.
  - change (EligibilityPolicy.blacklistedNationalities (policy initial))
      with (parseList JsString.toUpperCase "IRN,PRK").
    apply parseList_upper_stored.
Qed.

Lemma submitted_session_reachable : reachable submitted_session.
Proof.
  eapply reachable_step.
  - eapply reachable_step; [apply reachable_initial|].
    apply (step_select (Some [passport_png])).
  - by apply step_submit.
Qed.

Lemma reachable_ui_normalised s : reachable s → normalised (ui s).
Proof.
  induction 1 as [|s ev s' _ IH Hstep]; [apply initial_normalised|].
  destruct IH as (Hp&Hn&Hv&Hvisas&Hcodes).
  destruct Hstep as [files s|file s Hin|key text s|v s|v s|text s|text s|s|s|s|s Hcan
                    |o before fd after s Hfl]; simpl.
  - destruct files; by split_and!.
  - by split_and!.
  - destruct key; split_and!; simpl; try done;
      try apply toUpperCase_idemp; try apply toLowerCase_idemp.
  - by split_and!.
  - by split_and!.
  - split_and!; try done. apply parseList_lower_stored.
  - split_and!; try done. apply parseList_upper_stored.
  - by split_and!.
  - by split_and!.
  - apply initial_normalised.
  - by split_and!.
  - unfold submitSettle. destruct o as [e|resp]; [by split_and!|].
    destruct (ok resp); by split_and!.
Qed.

(** X8.  Whatever the order of the user's actions and of the settling of
    requests: the page is submitting exactly while a request is in flight,
    and then holds neither an error nor a result; the Submit button is
    enabled only when no request is in flight, so at most one request is in
    flight at any time; and the page never holds an error and a result
    together. *)
Theorem submit_protocol (s : Session) :
  reachable s →
  (length (inflight s) ≤ 1)%nat
  ∧ (submitting (ui s) = true ↔ inflight s ≠ [])
  ∧ (canSubmit (ui s) = true → inflight s = [])
  ∧ (submitting (ui s) = true → error (ui s) = None ∧ result (ui s) = None)
  ∧ (error (ui s) = None ∨ result (ui s) = None).
Proof.
  assert (reachable s →
          (length (inflight s) ≤ 1)%nat
          ∧ (submitting (ui s) = true ↔ inflight s ≠ [])
          ∧ (submitting (ui s) = true → error (ui s) = None ∧ result (ui s) = None)
          ∧ (error (ui s) = None ∨ result (ui s) = None)) as Hinv.
  { induction 1 as [|s ev s' _ IH Hstep].
    { simpl. split_and!; [lia|done|done|by left]. }
    destruct IH as (Hlen&Hsub&Hclean&Hone).
    destruct Hstep as [files s|file s Hin|key text s|v s|v s|text s|text s|s|s|s|s Hcan
                      |o before fd after s Hfl]; simpl; try done.
    - destruct files; by split_and!.
    - split_and!; try done. by left.
    - unfold canSubmit in Hcan. apply andb_true_iff in Hcan as [_ Hns].
      apply negb_true_iff in Hns.
      assert (inflight s = []) as ->.
      { destruct (inflight s) as [|fd fl] eqn:Hfl; [done|].
        assert (submitting (ui s) = true) by by apply Hsub. congruence. }
      simpl. split_and!; [lia|done|done|by left].
    - assert (submitting (ui s) = true) as Hs.
      { apply Hsub. rewrite Hfl. by destruct before. }
      destruct (Hclean Hs) as [He Hr].
      assert (before ++ after = []) as ->.
      { rewrite Hfl, length_app in Hlen. simpl in Hlen.
        destruct before, after; simpl in *; try lia. done. }
      split_and!; [simpl; lia|done|done|].
      destruct o as [e|resp]; simpl; [by right|].
      destruct (ok resp); simpl; [by left|by right]. }
  intros Hr. destruct (Hinv Hr) as (Hlen&Hsub&Hclean&Hone).
  split_and!; try done.
  intros Hcan. unfold canSubmit in Hcan. apply andb_true_iff in Hcan as [_ Hns].
  apply negb_true_iff in Hns.
  destruct (inflight s) as [|fd fl] eqn:Hfl; [done|].
  assert (submitting (ui s) = true) by by apply Hsub. congruence.
Qed.

Lemma submit_protocol_witness :
  reachable submitted_session
  ∧ canSubmit (ui submitted_session) = false
  ∧ error (ui submitted_session) = None.
Proof.
  split; [apply submitted_session_reachable|].
  destruct (submit_protocol submitted_session submitted_session_reachable)
    as (_&Hsub&_&Hclean&_).
  split; [reflexivity|]. apply Hclean. by apply Hsub.
Defined.





(** *** The page and the route together *)

Lemma getAll_documents_only (name : string) (docs : list File.t) :
  getAll name ((λ file, ("documents", EntryFile file)) <$> docs) =
    if decide (name = "documents") then EntryFile <$> docs else [].
Proof.
  unfold getAll, FormData. induction docs as [|file docs IH].
  - by case_decide.
  - rewrite !fmap_cons, filter_cons. destruct (decide (name = "documents")) as [->|Hne].
    + rewrite decide_True by done. rewrite fmap_cons, IH. done.
    + rewrite decide_False by (simpl; congruence). done.
Qed.

Lemma getAll_formDataOf (name : string) (st : State) :
  getAll name (formDataOf st) =
    (if decide (name = "documents") then EntryFile <$> documents st else [])
    ++ getAll name
         [ ("applicant", EntryString (stringifyApplicant (applicant st)));
           ("policy", EntryString (stringifyPolicy (policy st))) ].
Proof.
  unfold formDataOf. rewrite <- getAll_documents_only.
  unfold getAll, FormData. by rewrite filter_app, fmap_app.
Qed.

Lemma nonEmptyFiles_filter (docs : list File.t) :
  omap nonEmptyFile (EntryFile <$> docs) = filter (λ file, (0 < File.size file)%N) docs.
Proof.
  induction docs as [|file docs IH]; [done|].
  rewrite filter_cons, <- IH. case_decide as Hsize; simpl.
  - apply N.ltb_lt in Hsize. by rewrite Hsize.
  - apply N.ltb_nlt in Hsize. by rewrite Hsize.
Qed.

Lemma documentFiles_formDataOf (st : State) :
  documentFiles (formDataOf st) = filter (λ file, (0 < File.size file)%N) (documents st).
Proof.
  unfold documentFiles. rewrite getAll_formDataOf, decide_True by done.
  change (getAll "documents" _) with (@nil FormDataEntryValue).
  by rewrite app_nil_r, nonEmptyFiles_filter.
Qed.

Lemma get_applicant_formDataOf (st : State) :
  get "applicant" (formDataOf st) =
    Some (EntryString (stringifyApplicant (applicant st))).
Proof. unfold get. by rewrite getAll_formDataOf. Qed.

Lemma get_policy_formDataOf (st : State) :
  get "policy" (formDataOf st) = Some (EntryString (stringifyPolicy (policy st))).
Proof. unfold get. by rewrite getAll_formDataOf. Qed.

Lemma truthy_stringifyApplicant a :
  truthyString (Some (EntryString (stringifyApplicant a))) = Some (stringifyApplicant a).
Proof. unfold truthyString. by rewrite decide_False. Qed.

Lemma truthy_stringifyPolicy p :
  truthyString (Some (EntryString (stringifyPolicy p))) = Some (stringifyPolicy p).
Proof. unfold truthyString. by rewrite decide_False. Qed.

Lemma asApplicantProfile_applicantJson a :
  asApplicantProfile (applicantJson a) = Some a.
Proof. by destruct a. Qed.

Lemma json_int_jint n : json_int (jint n) = Some n.
Proof. unfold json_int, jint. simpl. f_equal. lia. Qed.

Lemma mapM_json_strings (items : list string) :
  mapM (λ x, json_string (Some x)) (JStr <$> items) = Some items.
Proof.
  apply mapM_Some_2, Forall2_fmap_l, Forall_Forall2_diag.
  by apply Forall_true.
Qed.

Lemma asEligibilityPolicy_policyJson (σ σ0 : store) (l : loc)
    (p : EligibilityPolicy.t) (a : val) :
  σ !! l = Some (SObject (spread2 σ0 a (VJson (policyJson p)))) →
  asEligibilityPolicy σ (VRef l) = Some p.
Proof.
  intros Hl.
  assert (∀ k v, assoc_last k (ownProperties_json (policyJson p)) = Some v →
                 spread2 σ0 a (VJson (policyJson p)) !! k = Some v) as Hget.
  { intros k v Hk. unfold spread2. rewrite define_all_lookup.
    change (ownProperties σ0 (VJson (policyJson p)))
      with (ownProperties_json (policyJson p)).
    by rewrite Hk. }
  unfold asEligibilityPolicy, objectProps. rewrite Hl.
  remember (spread2 σ0 a (VJson (policyJson p))) as props eqn:Hprops.
  simpl.
  rewrite (Hget "minPassportValidityDays" _ eq_refl),
    (Hget "minApplicantAge" _ eq_refl),
    (Hget "supportedVisaTypes" _ eq_refl),
    (Hget "blacklistedNationalities" _ eq_refl),
    (Hget "requireNameMatch" _ eq_refl),
    (Hget "requirePassportMatch" _ eq_refl).
  unfold val_int, val_strings, val_bool. cbn [snd].
  rewrite !json_int_jint. cbn [mbind option_bind].
  rewrite !mapM_json_strings. by destruct p.
Qed.

(** The policy object the route builds from the page's policy payload. *)
Lemma effectivePolicy_page_policy `{Runtime} (st : State) (w : World) :
  JSON_parse (stringifyPolicy (policy st)) = Some (policyJson (policy st)) →
  ∃ l w1,
    effectivePolicy (get "policy" (formDataOf st)) w = (Normal (VRef l), w1)
    ∧ (l ∉ dom (heap w)) ∧ trace w1 = trace w
    ∧ asEligibilityPolicy (heap w1) (VRef l) = Some (policy st).
Proof.
  intros Hpol. rewrite get_policy_formDataOf. unfold effectivePolicy.
  rewrite truthy_stringifyPolicy, Hpol. unfold new_object, alloc.
  eexists _, _. split_and!; [done|apply is_fresh|done|].
  eapply (asEligibilityPolicy_policyJson _ (heap w)). simpl.
  apply lookup_insert_eq.
Qed.



(** X12.  What the page does with the route's answer, for any request and
    any state of the page: submitting ends, and the page holds the report
    exactly when the route answers with one (status 200); otherwise its error
    is the route's own message, so the page's fallback text for an answer
    without a message is never used for an answer of this route.  The
    documents, the applicant and the policy of the page are untouched. *)
Theorem page_shows_route_answer `{Runtime} (req : NextRequest) (w : World) (st : State) :
  ∃ resp w',
    POST req w = (Normal resp, w')
    ∧ let st' := submitSettle (FetchResponded resp) (submitStart st) in
      submitting st' = false
      ∧ documents st' = documents st
      ∧ applicant st' = applicant st
      ∧ policy st' = policy st
      ∧ match body resp with
        | ResultBody r =>
            status resp = 200 ∧ result st' = Some (ResultBody r) ∧ error st' = None
        | ErrorBody msg =>
            (status resp = 400 ∨ status resp = 500)
            ∧ error st' = Some msg ∧ result st' = None
        end.
Proof.
  destruct (POST_handled req w) as (resp&w'&HP&Hh).
  exists resp, w'. split; [done|].
  destruct Hh; simpl; split_and!; try done; auto.
Qed.

(** *** The two payloads, written and read back *)

Module RoundTrip.
Import JsonText.

Lemma read_string_escapeChar (c : ascii) (tail : list ascii) s r :
  read_string tail = Some (s, r) →
  read_string (escapeChar c ++ tail) = Some (String c s, r).
Proof.
  intros Htail.
  destruct c as [[] [] [] [] [] [] [] []]; simpl; rewrite Htail; reflexivity.
Qed.

Lemma read_string_escaped (s : string) (rest : list ascii) :
  read_string ((list_ascii_of_string s ≫= escapeChar) ++ dquote :: rest)
  = Some (s, rest).
Proof.
  induction s as [|c s IH].
  - simpl. done.
  - change (list_ascii_of_string (String c s)) with (c :: list_ascii_of_string s).
    rewrite bind_cons, <- app_assoc. by apply read_string_escapeChar.
Qed.

Lemma read_value_string (fuel : nat) (s : string) (rest : list ascii) :
  read_value (S fuel) (quoteChars s ++ rest) = Some (JStr s, rest).
Proof.
  unfold quoteChars. rewrite <- app_comm_cons, <- app_assoc.
  change ([dquote] ++ rest) with (dquote :: rest).
  unfold read_value. fold read_value.
  change (skip_ws (dquote :: ?x)) with (dquote :: x).
  cbn [skip_ws]. simpl. by rewrite read_string_escaped.
Qed.

Lemma digit_char (d : N) :
  (d < 10)%N →
  is_digit (pretty_N_char d) = true ∧ digit_val (pretty_N_char d) = Z.of_N d.
Proof.
  intros Hd.
  assert (d = 0 ∨ d = 1 ∨ d = 2 ∨ d = 3 ∨ d = 4 ∨ d = 5 ∨ d = 6 ∨ d = 7 ∨ d = 8
          ∨ d = 9)%N as Hcases by lia.
  repeat (destruct Hcases as [->|Hcases]; [done|]). by subst.
Qed.

Lemma digit_char_nonzero (d : N) :
  (0 < d < 10)%N → Ascii.eqb (pretty_N_char d) "0" = false.
Proof.
  intros Hd.
  assert (d = 1 ∨ d = 2 ∨ d = 3 ∨ d = 4 ∨ d = 5 ∨ d = 6 ∨ d = 7 ∨ d = 8 ∨ d = 9)%N
    as Hcases by lia.
  repeat (destruct Hcases as [->|Hcases]; [done|]). by subst.
Qed.

(** The digits [pretty_N_go] puts in front of its accumulator, as
    [read_digits] reads them. *)
Lemma pretty_N_go_digits (x : N) (s : string) :
  (0 < x)%N →
  ∃ c ds,
    list_ascii_of_string (pretty_N_go x s) = c :: ds ++ list_ascii_of_string s
    ∧ is_digit c = true ∧ Ascii.eqb c "0" = false
    ∧ ∀ acc count rest,
        read_digits acc count (c :: ds ++ rest) =
          read_digits (acc * 10 ^ Z.of_nat (S (length ds)) + Z.of_N x)
            (count + Z.of_nat (S (length ds))) rest.
Proof.
  revert s. induction (N.lt_wf_0 x) as [x _ IH]; intros s Hpos.
  rewrite pretty_N_go_step by done.
  assert (x `mod` 10 < 10)%N as Hmod by (apply N.mod_lt; lia).
  destruct (digit_char _ Hmod) as [Hdig Hval].
  pose proof (N.div_mod x 10 ltac:(lia)) as Hx.
  destruct (decide (x `div` 10 = 0)%N) as [Hdiv|Hdiv].
  - rewrite Hdiv, pretty_N_go_0. rewrite Hdiv in Hx.
    exists (pretty_N_char (x `mod` 10)), []. split_and!; [done|done| |].
    + apply digit_char_nonzero. lia.
    + intros acc count rest. simpl. rewrite Hdig, Hval. f_equal; lia.
  - destruct (IH (x `div` 10)%N) with (s := String (pretty_N_char (x `mod` 10)) s)
      as (c&ds&Hchars&Hc&Hnz&Hread); [apply N.div_lt; lia|by apply N.neq_0_lt_0|].
    exists c, (ds ++ [pretty_N_char (x `mod` 10)]).
    split_and!; [|done|done|].
    + rewrite Hchars. simpl. by rewrite <- app_assoc.
    + intros acc count rest. rewrite <- app_assoc.
      rewrite Hread. simpl read_digits. rewrite Hdig, Hval.
      rewrite length_app. simpl length.
      replace (Z.of_nat (S (length ds + 1))) with (Z.succ (Z.of_nat (S (length ds))))
        by lia.
      rewrite Z.pow_succ_r by lia.
      f_equal; lia.
Qed.

Lemma pretty_N_digits (x : N) :
  ∃ c ds,
    list_ascii_of_string (pretty x) = c :: ds
    ∧ is_digit c = true
    ∧ (Ascii.eqb c "0" = true → ds = [])
    ∧ ∀ acc count rest,
        read_digits acc count (c :: ds ++ rest) =
          read_digits (acc * 10 ^ Z.of_nat (S (length ds)) + Z.of_N x)
            (count + Z.of_nat (S (length ds))) rest.
Proof.
  unfold pretty, pretty_N. case_decide as Hx.
  - subst x. exists "0"%char, []. split_and!; try done.
    intros acc count rest. simpl. change (digit_val "0") with 0.
    change (Z.of_nat 1) with 1. f_equal; lia.
  - destruct (pretty_N_go_digits x "" ltac:(lia)) as (c&ds&Hchars&Hc&Hnz&Hread).
    exists c, ds. simpl in Hchars. rewrite app_nil_r in Hchars.
    split_and!; try done. by rewrite Hnz.
Qed.

Lemma is_digit_head (c : ascii) :
  is_digit c = true →
  is_ws c = false ∧ Ascii.eqb c dquote = false ∧ Ascii.eqb c "[" = false
  ∧ Ascii.eqb c "{" = false ∧ Ascii.eqb c "-" = false.
Proof. by destruct c as [[] [] [] [] [] [] [] []]. Qed.

(** A whole number followed by a comma. *)
Lemma read_number_digits (neg : bool) (x : N) (rest : list ascii) :
  read_number ((if neg then ["-"%char] else [])
               ++ list_ascii_of_string (pretty x) ++ ","%char :: rest)
  = Some (JNum (if neg then - Z.of_N x else Z.of_N x) 0, ","%char :: rest).
Proof.
  destruct (pretty_N_digits x) as (c&ds&Hchars&Hc&Hzero&Hread).
  destruct (is_digit_head c Hc) as (_&_&_&_&Hminus).
  rewrite Hchars. unfold read_number.
  assert (∀ cs1 : list ascii,
            (let '(neg', cs1') :=
               match (if neg then ["-"%char] else []) ++ (c :: ds) ++ cs1 with
               | c' :: rest' =>
                   if Ascii.eqb c' "-" then (true, rest')
                   else (false, (if neg then ["-"%char] else []) ++ (c :: ds) ++ cs1)
               | [] => (false, (if neg then ["-"%char] else []) ++ (c :: ds) ++ cs1)
               end in (neg', cs1')) = (neg, c :: ds ++ cs1)) as Hsign.
  { intros cs1. destruct neg; simpl; [done|]. by rewrite Hminus. }
  specialize (Hsign (","%char :: rest)).
  destruct (match (if neg then ["-"%char] else []) ++ (c :: ds) ++ ","%char :: rest with
            | [] => _ | c' :: rest' => _ end) as [neg' cs1'].
  injection Hsign as -> ->.
  rewrite Hread. simpl read_digits. cbv beta iota zeta.
  assert ((0 + Z.of_nat (S (length ds)) =? 0) = false) as ->
    by (apply Z.eqb_neq; lia).
  assert (Ascii.eqb c "0" && (1 <? 0 + Z.of_nat (S (length ds))) = false) as ->.
  { destruct (Ascii.eqb c "0") eqn:Hc0; [|done].
    by rewrite (Hzero eq_refl). }
  simpl. destruct neg; repeat f_equal; lia.
Qed.

Lemma pretty_Z_chars (z : Z) :
  list_ascii_of_string (pretty z) =
    (if bool_decide (z < 0) then ["-"%char] else [])
    ++ list_ascii_of_string (pretty (Z.to_N (Z.abs z))).
Proof. by destruct z. Qed.

Lemma read_value_number_head (fuel : nat) (c : ascii) (rest : list ascii) :
  Ascii.eqb c "-" || is_digit c = true →
  read_value (S fuel) (c :: rest) = read_number (c :: rest).
Proof.
  intros Hhead.
  assert (is_ws c = false ∧ Ascii.eqb c dquote = false ∧ Ascii.eqb c "[" = false
          ∧ Ascii.eqb c "{" = false) as (Hws&Hq&Hb&Hbr).
  { by destruct c as [[] [] [] [] [] [] [] []]. }
  simpl. by rewrite Hws, Hq, Hb, Hbr, Hhead.
Qed.

Lemma read_value_number (fuel : nat) (z : Z) (rest : list ascii) :
  read_value (S fuel) (list_ascii_of_string (pretty z) ++ ","%char :: rest)
  = Some (jint z, ","%char :: rest).
Proof.
  rewrite pretty_Z_chars, <- app_assoc.
  pose proof (read_number_digits (bool_decide (z < 0)) (Z.to_N (Z.abs z)) rest) as Hnum.
  assert ((if bool_decide (z < 0) then - Z.of_N (Z.to_N (Z.abs z))
           else Z.of_N (Z.to_N (Z.abs z))) = z) as Hz.
  { case_bool_decide; lia. }
  rewrite Hz in Hnum. unfold jint. rewrite <- Hnum.
  destruct (pretty_N_digits (Z.to_N (Z.abs z))) as (c&ds&Hchars&Hc&_&_).
  rewrite Hchars.
  destruct (bool_decide (z < 0)); simpl app; apply read_value_number_head.
  - done.
  - rewrite Hc. by destruct (Ascii.eqb c "-").
Qed.

Lemma read_value_bool (fuel : nat) (b : bool) (rest : list ascii) :
  read_value (S fuel) (boolChars b ++ rest) = Some (JBool b, rest).
Proof. by destruct b. Qed.

Lemma read_items_S (fuel : nat) (cs : list ascii) :
  read_items (S fuel) cs =
    match read_value fuel cs with
    | None => None
    | Some (x, r) =>
        match skip_ws r with
        | c :: r' =>
            if Ascii.eqb c "," then
              match read_items fuel r' with
              | Some (xs, r'') => Some (x :: xs, r'')
              | None => None
              end
            else if Ascii.eqb c "]" then Some ([x], r')
            else None
        | [] => None
        end
    end.
Proof. done. Qed.

Lemma read_items_strings (ss : list string) (fuel : nat) (rest : list ascii) :
  ss ≠ [] →
  read_items (S (length ss + fuel))
    (JsString.joinChars [","%char] (quoteChars <$> ss) ++ "]"%char :: rest)
  = Some (JStr <$> ss, rest).
Proof.
  induction ss as [|s ss IH]; [done|]. intros _.
  rewrite read_items_S. destruct ss as [|s' ss].
  - change (JsString.joinChars _ _) with (quoteChars s).
    change (length [s] + fuel)%nat with (S fuel).
    by rewrite read_value_string.
  - change (JsString.joinChars [","%char] (quoteChars <$> s :: s' :: ss))
      with (quoteChars s ++ [","%char]
            ++ JsString.joinChars [","%char] (quoteChars <$> s' :: ss)).
    rewrite <- !app_assoc.
    change (length (s :: s' :: ss) + fuel)%nat with (S (length (s' :: ss) + fuel)).
    rewrite read_value_string.
    change (skip_ws ([","%char] ++ ?x)) with (","%char :: x).
    cbn [skip_ws app]. change (is_ws ",") with false. cbv iota.
    change (Ascii.eqb "," ",") with true. cbv iota.
    by rewrite IH.
Qed.

Lemma read_value_bracket (fuel : nat) (tail : list ascii) :
  read_value (S fuel) ("["%char :: dquote :: tail) =
    match read_items fuel (dquote :: tail) with
    | Some (xs, r) => Some (JArr xs, r)
    | None => None
    end.
Proof. done. Qed.

Lemma read_value_array (ss : list string) (fuel : nat) (rest : list ascii) :
  read_value (S (S (length ss + fuel))) (arrayChars (quoteChars <$> ss) ++ rest)
  = Some (JArr (JStr <$> ss), rest).
Proof.
  unfold arrayChars. rewrite <- app_comm_cons, <- app_assoc.
  change (["]"%char] ++ rest) with ("]"%char :: rest).
  pose proof (read_items_strings ss fuel rest) as Hitems.
  destruct ss as [|s ss]; [done|].
  specialize (Hitems ltac:(done)).
  assert (∃ tail, JsString.joinChars [","%char] (quoteChars <$> s :: ss)
                  ++ "]"%char :: rest = dquote :: tail) as [tail Htail].
  { destruct ss; eexists; reflexivity. }
  rewrite Htail in *. by rewrite read_value_bracket, Hitems.
Qed.

Lemma read_members_S (fuel : nat) (key : string) (cs : list ascii) :
  read_members (S fuel) (quoteChars key ++ ":"%char :: cs) =
    match read_value fuel cs with
    | None => None
    | Some (v, r2) =>
        match skip_ws r2 with
        | c :: r3 =>
            if Ascii.eqb c "," then
              match read_members fuel r3 with
              | Some (kvs, r4) => Some ((key, v) :: kvs, r4)
              | None => None
              end
            else if Ascii.eqb c "}" then Some ([(key, v)], r3)
            else None
        | [] => None
        end
    end.
Proof.
  unfold quoteChars. rewrite <- app_comm_cons, <- app_assoc.
  change ([dquote] ++ ":"%char :: cs) with (dquote :: ":"%char :: cs).
  simpl. by rewrite read_string_escaped.
Qed.

Lemma read_members_cons (fuel : nat) (key : string) (value more : list ascii) v kvs r :
  read_value fuel (value ++ ","%char :: more) = Some (v, ","%char :: more) →
  read_members fuel more = Some (kvs, r) →
  read_members (S fuel) (memberChars key value ++ ","%char :: more)
  = Some ((key, v) :: kvs, r).
Proof.
  intros Hv Hmore. unfold memberChars.
  rewrite <- app_assoc, <- app_comm_cons, read_members_S, Hv.
  simpl. by rewrite Hmore.
Qed.

Lemma read_members_last (fuel : nat) (key : string) (value rest : list ascii) v :
  read_value fuel (value ++ "}"%char :: rest) = Some (v, "}"%char :: rest) →
  read_members (S fuel) (memberChars key value ++ "}"%char :: rest)
  = Some ([(key, v)], rest).
Proof.
  intros Hv. unfold memberChars.
  by rewrite <- app_assoc, <- app_comm_cons, read_members_S, Hv.
Qed.

Lemma read_value_object (fuel : nat) (key : string) (value tail : list ascii) kvs r :
  read_members fuel (memberChars key value ++ tail) = Some (kvs, r) →
  read_value (S fuel) ("{"%char :: memberChars key value ++ tail) = Some (JObj kvs, r).
Proof.
  unfold memberChars, quoteChars. rewrite <- !app_comm_cons.
  intros Hm. simpl. simpl in Hm. by rewrite Hm.
Qed.

Lemma read_applicant (a : ApplicantProfile.t) (fuel : nat) :
  read_value (8 + fuel) (list_ascii_of_string (stringifyApplicant a))
  = Some (applicantJson a, []).
Proof.
  unfold stringifyApplicant, objectChars. rewrite chars_of_string_of_chars.
  cbn [JsString.joinChars]. rewrite <- !app_assoc. cbn [app Nat.add].
  apply read_value_object.
  do 5 (apply read_members_cons; [apply read_value_string|]).
  apply read_members_last, read_value_string.
Qed.

Lemma read_policy (p : EligibilityPolicy.t) (fuel : nat) :
  read_value
    (8 + (length (EligibilityPolicy.supportedVisaTypes p)
          + (length (EligibilityPolicy.blacklistedNationalities p) + fuel)))
    (list_ascii_of_string (stringifyPolicy p))
  = Some (policyJson p, []).
Proof.
  unfold stringifyPolicy, objectChars. rewrite chars_of_string_of_chars.
  cbn [JsString.joinChars]. rewrite <- !app_assoc. cbn [app Nat.add].
  apply read_value_object.
  do 2 (apply read_members_cons; [apply read_value_number|]).
  apply read_members_cons.
  { change (S (S (S (S ?n)))) with (S (S (2 + n))).
    replace (2 + (length (EligibilityPolicy.supportedVisaTypes p)
                  + (length (EligibilityPolicy.blacklistedNationalities p) + fuel)))%nat
      with (length (EligibilityPolicy.supportedVisaTypes p)
            + (2 + length (EligibilityPolicy.blacklistedNationalities p) + fuel))%nat
      by lia.
    apply read_value_array. }
  apply read_members_cons.
  { change (S (S (S ?n))) with (S (S (1 + n))).
    replace (1 + (length (EligibilityPolicy.supportedVisaTypes p)
                  + (length (EligibilityPolicy.blacklistedNationalities p) + fuel)))%nat
      with (length (EligibilityPolicy.blacklistedNationalities p)
            + (1 + length (EligibilityPolicy.supportedVisaTypes p) + fuel))%nat
      by lia.
    apply read_value_array. }
  apply read_members_cons; [apply read_value_bool|].
  apply read_members_last, read_value_bool.
Qed.

Lemma joinChars_length (c : ascii) (items : list (list ascii)) :
  (length items ≤ S (length (JsString.joinChars [c] items)))%nat.
Proof.
  pose [c] as sep.
  change (length items ≤ S (length (JsString.joinChars sep items)))%nat.
  assert (length sep = 1%nat) as Hsep by done. clearbody sep.
  induction items as [|x items IH]; [simpl; lia|].
  destruct items as [|y items]; [simpl; lia|].
  change (JsString.joinChars sep (x :: y :: items))
    with (x ++ sep ++ JsString.joinChars sep (y :: items)).
  rewrite !length_app. cbn [length] in *. lia.
Qed.

Lemma stringifyApplicant_length (a : ApplicantProfile.t) :
  (3 ≤ length (list_ascii_of_string (stringifyApplicant a)))%nat.
Proof.
  unfold stringifyApplicant, objectChars. rewrite chars_of_string_of_chars.
  cbn [JsString.joinChars]. repeat (rewrite ?length_app; cbn [length]). lia.
Qed.

Lemma stringifyPolicy_length (p : EligibilityPolicy.t) :
  (3 + length (EligibilityPolicy.supportedVisaTypes p)
   + length (EligibilityPolicy.blacklistedNationalities p)
   ≤ length (list_ascii_of_string (stringifyPolicy p)))%nat.
Proof.
  unfold stringifyPolicy, objectChars. rewrite chars_of_string_of_chars.
  cbn [JsString.joinChars]. unfold memberChars, arrayChars.
  pose proof (joinChars_length ","%char
                (quoteChars <$> EligibilityPolicy.supportedVisaTypes p)) as Hv.
  pose proof (joinChars_length ","%char
                (quoteChars <$> EligibilityPolicy.blacklistedNationalities p)) as Hb.
  rewrite length_fmap in Hv, Hb.
  repeat (rewrite ?length_app; cbn [length]). lia.
Qed.

Lemma json_parse_applicant (a : ApplicantProfile.t) :
  json_parse (stringifyApplicant a) = Some (applicantJson a).
Proof.
  unfold json_parse. pose proof (stringifyApplicant_length a) as Hlen.
  replace (2 * length (list_ascii_of_string (stringifyApplicant a)) + 2)%nat
    with (8 + (2 * length (list_ascii_of_string (stringifyApplicant a)) - 6))%nat
    by lia.
  by rewrite read_applicant.
Qed.

Lemma json_parse_policy (p : EligibilityPolicy.t) :
  json_parse (stringifyPolicy p) = Some (policyJson p).
Proof.
  unfold json_parse. pose proof (stringifyPolicy_length p) as Hlen.
  replace (2 * length (list_ascii_of_string (stringifyPolicy p)) + 2)%nat
    with (8 + (length (EligibilityPolicy.supportedVisaTypes p)
               + (length (EligibilityPolicy.blacklistedNationalities p)
                  + (2 * length (list_ascii_of_string (stringifyPolicy p)) - 6
                     - length (EligibilityPolicy.supportedVisaTypes p)
                     - length (EligibilityPolicy.blacklistedNationalities p)))))%nat
    by lia.
  by rewrite read_policy.
Qed.

End RoundTrip.

